(** * SynaGraph: a shallow embedding of the node store, the capsule
    translation layer, the capsule ingest handler and the outbox.

    Sources embedded here:
    - src/domain/node.rs          (KnowledgeNode)
    - src/domain/capsule.rs       (capsule records, from_node, into_node)
    - src/repository/mod.rs       (UpsertOutcome, OutboxEvent, OutboxKind)
    - src/repository/in_memory.rs (InMemoryNodeRepository, InMemoryOutboxRepository)
    - src/repository/postgres.rs  (the SQL of PostgresNodeRepository and
                                   PostgresOutboxRepository)
    - src/server/http.rs          (api_capsule_store, api_store, api_lookup,
                                   api_capsule_lookup, api_capsule_purge,
                                   resolve_tenant)
    - src/server/grpc.rs          (upsert_node, parse_payload)
    - src/state.rs                (DashboardData)
    - src/config.rs               (AppConfig::from_env, parse_slug_map)

    Modelling conventions:
    - a [Uuid] is its 128-bit value as a [Z] (the [Ord] of [uuid::Uuid]
      compares the bytes big-endian, i.e. the integers);
    - a [DateTime<Utc>] is a count of nanoseconds as a [Z], and
      [Utc::now()] is an explicit [now] argument;
    - [f32] vector entries are carried as rationals [Q]; no definition
      computes with them;
    - [f64] is IEEE-754 binary64 as the Standard Library's [SpecFloat];
    - a [HashMap] is a [gmap]; iteration over [values()] is
      [map_to_list], but the sorting lemmas hold for any iteration order. *)

From Stdlib Require Import ZArith QArith Lia Ascii String List Sorting.Permutation Sorting.Sorted.
From Stdlib Require Floats.SpecFloat.
From stdpp Require Import base gmap list strings.

Open Scope Z_scope.

(* ================================================================== *)
(** ** Machine words and UUID v5 ([Uuid::new_v5] over SHA-1)           *)
(* ================================================================== *)

Module Sha1.

Definition mask32 : Z := 2 ^ 32 - 1.
Definition add32 (a b : Z) : Z := Z.land (a + b) mask32.
Definition rotl32 (n x : Z) : Z :=
  Z.land (Z.lor (Z.shiftl x n) (Z.shiftr x (32 - n))) mask32.
Definition not32 (x : Z) : Z := Z.lxor x mask32.

(** big-endian bytes of a [w]-byte number *)
Fixpoint be_bytes (w : nat) (x : Z) : list Z :=
  match w with
  | O => []
  | S w' => be_bytes w' (Z.shiftr x 8) ++ [Z.land x 255]
  end.

(** big-endian number of a byte list *)
Definition be_value (bs : list Z) : Z :=
  fold_left (fun acc b => Z.lor (Z.shiftl acc 8) b) bs 0.

(** message padding: 0x80, zeros up to 56 mod 64, 64-bit bit length *)
Definition pad (msg : list Z) : list Z :=
  let len := Z.of_nat (length msg) in
  let zeros := Z.to_nat ((55 - len) mod 64) in
  msg ++ [128] ++ repeat 0 zeros ++ be_bytes 8 (len * 8).

Fixpoint words (fuel : nat) (bs : list Z) : list Z :=
  match fuel with
  | O => []
  | S f => match bs with
           | [] => []
           | _ => be_value (firstn 4 bs) :: words f (skipn 4 bs)
           end
  end.

(** message schedule, built newest-first: [w t] for t = 16 .. 79 *)
Fixpoint schedule_rev (n : nat) (acc : list Z) : list Z :=
  match n with
  | O => acc
  | S n' =>
      let w3 := nth 2 acc 0 in let w8 := nth 7 acc 0 in
      let w14 := nth 13 acc 0 in let w16 := nth 15 acc 0 in
      schedule_rev n' (rotl32 1 (Z.lxor (Z.lxor w3 w8) (Z.lxor w14 w16)) :: acc)
  end.

Definition schedule (block : list Z) : list Z :=
  rev (schedule_rev 64 (rev block)).

Definition round_fk (t : nat) (b c d : Z) : Z * Z :=
  if (t <? 20)%nat then (Z.lor (Z.land b c) (Z.land (not32 b) d), 1518500249)
  else if (t <? 40)%nat then (Z.lxor (Z.lxor b c) d, 1859775393)
  else if (t <? 60)%nat then
    (Z.lor (Z.lor (Z.land b c) (Z.land b d)) (Z.land c d), 2400959708)
  else (Z.lxor (Z.lxor b c) d, 3395469782).

Definition state := (Z * Z * Z * Z * Z)%type.

Fixpoint rounds (t : nat) (ws : list Z) (s : state) : state :=
  match ws with
  | [] => s
  | w :: ws' =>
      let '(a, b, c, d, e) := s in
      let '(f, k) := round_fk t b c d in
      let temp := add32 (add32 (add32 (add32 (rotl32 5 a) f) e) k) w in
      rounds (S t) ws' (temp, a, rotl32 30 b, c, d)
  end.

Definition compress (h : state) (block : list Z) : state :=
  let '(h0, h1, h2, h3, h4) := h in
  let '(a, b, c, d, e) := rounds 0 (schedule block) h in
  (add32 h0 a, add32 h1 b, add32 h2 c, add32 h3 d, add32 h4 e).

Fixpoint blocks (fuel : nat) (ws : list Z) (h : state) : state :=
  match fuel with
  | O => h
  | S f => match ws with
           | [] => h
           | _ => blocks f (skipn 16 ws) (compress h (firstn 16 ws))
           end
  end.

Definition h_init : state :=
  (1732584193, 4023233417, 2562383102, 271733878, 3285377520).

(** SHA-1 digest of a byte list, as a 160-bit number *)
Definition sha1 (msg : list Z) : Z :=
  let p := pad msg in
  let ws := words (length p) p in
  let '(h0, h1, h2, h3, h4) := blocks (length ws) ws h_init in
  be_value (be_bytes 4 h0 ++ be_bytes 4 h1 ++ be_bytes 4 h2
            ++ be_bytes 4 h3 ++ be_bytes 4 h4).

End Sha1.

Abbreviation Uuid := Z (only parsing).

Definition string_bytes (s : string) : list Z :=
  map (fun c => Z.of_nat (nat_of_ascii c)) (list_ascii_of_string s).

(** [Uuid::NAMESPACE_URL] = 6ba7b811-9dad-11d1-80b4-00c04fd430c8 *)
Definition NAMESPACE_URL : Uuid := 143098242483405524118141958906375844040.

(** [Uuid::new_v5]: the first 16 bytes of SHA-1(namespace ++ name), with
    the version nibble set to 5 and the variant bits to 10. *)
Definition new_v5 (ns : Uuid) (name : list Z) : Uuid :=
  let d := Z.shiftr (Sha1.sha1 (Sha1.be_bytes 16 ns ++ name)) 32 in
  let d := Z.lor (Z.ldiff d (Z.shiftl 15 76)) (Z.shiftl 5 76) in
  Z.lor (Z.ldiff d (Z.shiftl 3 62)) (Z.shiftl 2 62).

(* ================================================================== *)
(** ** Results, time and the entity model                              *)
(* ================================================================== *)

(** [anyhow::Result], with a third outcome for a Rust panic. *)
Inductive res (A : Type) : Type :=
| Ok (a : A)
| Err (msg : string)
| Panic (msg : string).
Arguments Ok {A} a.
Arguments Err {A} msg.
Arguments Panic {A} msg.

(** [DateTime<Utc>]: nanoseconds since the epoch, within chrono's range
    (years -262144 ..= 262143). *)
Abbreviation DateTime := Z (only parsing).
Definition MIN_UTC : DateTime := -8334632937600000000000.
Definition MAX_UTC : DateTime := 8210298412799999999999.
Definition NANOS_PER_SEC : Z := 1000000000.
Definition I64_MAX : Z := 9223372036854775807.

(** [chrono::Duration::seconds]: panics when the duration exceeds
    [i64::MAX] milliseconds in absolute value. *)
Definition duration_seconds (secs : Z) : res Z :=
  if (Z.abs (secs * 1000) <=? I64_MAX) then Ok (secs * NANOS_PER_SEC)
  else Panic "Duration::seconds out of bounds".

(** [DateTime + Duration]: panics when the result leaves chrono's range. *)
Definition datetime_add (t d : DateTime) : res DateTime :=
  if (MIN_UTC <=? t + d) && (t + d <=? MAX_UTC) then Ok (t + d)
  else Panic "DateTime + Duration overflowed".

(** [Duration::num_seconds]: whole seconds, rounded toward zero. *)
Definition num_seconds (d : Z) : Z := Z.quot d NANOS_PER_SEC.

(** ---- src/domain/capsule.rs ---- *)

Record CapsuleProvenance := {
  prov_source : string;
  prov_hash : string;
  prov_version : option string;
  prov_generated_at : option DateTime }.

Definition CapsuleProvenance_default : CapsuleProvenance :=
  {| prov_source := ""; prov_hash := ""; prov_version := None;
     prov_generated_at := None |}.

Record CapsulePolicy := {
  pol_tenant : string;
  pol_phi : bool;
  pol_pii : bool;
  pol_region : option string;
  pol_compliance_tags : list string }.

(** [answer], [metrics] and [metadata] are opaque JSON values. *)
Record CapsuleArtifact := {
  answer : string;
  policy : CapsulePolicy;
  provenance : list CapsuleProvenance;
  metrics : option string;
  ttl_seconds : option Z;
  hash : string;
  metadata : option string }.

Record CapsuleIngestRequest := {
  key : string;
  artifact : CapsuleArtifact;
  expires_at : option DateTime }.

Record CapsuleLookupResponse := {
  resp_key : string;
  resp_artifact : CapsuleArtifact;
  resp_expires_at : option DateTime;
  resp_ttl_remaining_seconds : option Z }.

Definition set_provenance (a : CapsuleArtifact) (p : list CapsuleProvenance) :=
  {| answer := answer a; policy := policy a; provenance := p;
     metrics := metrics a; ttl_seconds := ttl_seconds a; hash := hash a;
     metadata := metadata a |}.
Definition set_ttl_seconds (a : CapsuleArtifact) (t : option Z) :=
  {| answer := answer a; policy := policy a; provenance := provenance a;
     metrics := metrics a; ttl_seconds := t; hash := hash a;
     metadata := metadata a |}.
Definition set_hash (a : CapsuleArtifact) (h : string) :=
  {| answer := answer a; policy := policy a; provenance := provenance a;
     metrics := metrics a; ttl_seconds := ttl_seconds a; hash := h;
     metadata := metadata a |}.
Definition set_policy_tenant (a : CapsuleArtifact) (t : string) :=
  let p := policy a in
  {| answer := answer a;
     policy := {| pol_tenant := t; pol_phi := pol_phi p; pol_pii := pol_pii p;
                  pol_region := pol_region p;
                  pol_compliance_tags := pol_compliance_tags p |};
     provenance := provenance a; metrics := metrics a;
     ttl_seconds := ttl_seconds a; hash := hash a; metadata := metadata a |}.
Definition set_artifact (c : CapsuleIngestRequest) (a : CapsuleArtifact) :=
  {| key := key c; artifact := a; expires_at := expires_at c |}.

(** JSON values as the node store holds them: [VCapsule c] is
    [serde_json::to_value(&c)] of a capsule request [c], [VPolicy] and
    [VProvenance] the serialized policy and provenance list, and [VOther]
    any other JSON value, in its text form ([VOther "null"] is [null]). *)
Inductive Value :=
| VCapsule (c : CapsuleIngestRequest)
| VPolicy (p : CapsulePolicy)
| VProvenance (l : list CapsuleProvenance)
| VOther (s : string).

(** [serde]'s [Option<Value>]: [Some(Value::Null)] serializes as [null],
    which deserializes as [None]. *)
Definition option_value_roundtrip (v : option string) : option string :=
  match v with
  | Some s => if String.eqb s "null" then None else Some s
  | None => None
  end.

(** [serde_json::from_value] of [serde_json::to_value(&a)] for an
    artifact: every field comes back as it was, except [metrics] and
    [metadata] holding JSON [null], which come back absent. *)
Definition artifact_roundtrip (a : CapsuleArtifact) : CapsuleArtifact :=
  {| answer := answer a; policy := policy a; provenance := provenance a;
     metrics := option_value_roundtrip (metrics a);
     ttl_seconds := ttl_seconds a; hash := hash a;
     metadata := option_value_roundtrip (metadata a) |}.

(** the same for a capsule request; [expires_at] is skipped when absent
    and read back as absent *)
Definition capsule_roundtrip (c : CapsuleIngestRequest) : CapsuleIngestRequest :=
  {| key := key c; artifact := artifact_roundtrip (artifact c); expires_at := expires_at c |}.

(** [serde_json::from_value::<CapsuleIngestRequest>] *)
Definition capsule_from_value (v : Value) : option CapsuleIngestRequest :=
  match v with VCapsule c => Some (capsule_roundtrip c) | _ => None end.

(** ---- src/domain/node.rs ---- *)

Record KnowledgeNode := {
  id : Uuid;
  tenant_id : Uuid;
  kind : string;
  payload_json : Value;
  vector : option (list Q);
  node_provenance : option Value;
  node_policy : option Value;
  created_at : DateTime;
  updated_at : DateTime }.

Definition Build_node i t k p v pr po c u : KnowledgeNode :=
  {| id := i; tenant_id := t; kind := k; payload_json := p; vector := v;
     node_provenance := pr; node_policy := po; created_at := c; updated_at := u |}.

(** [KnowledgeNode::new]: the random [Uuid::new_v4] is the argument [fresh]. *)
Definition KnowledgeNode_new (fresh tenant : Uuid) (k : string) (p : Value)
    (now : DateTime) : KnowledgeNode :=
  Build_node fresh tenant k p None None None now now.

(** [Uuid]'s [Display]: 32 lower-case hex digits, grouped 8-4-4-4-12. *)
Definition hex_digit (n : Z) : ascii :=
  ascii_of_nat (Z.to_nat (if n <? 10 then 48 + n else 87 + n)).

Fixpoint hex_digits (w : nat) (x : Z) : list ascii :=
  match w with
  | O => []
  | S w' => hex_digits w' (Z.shiftr x 4) ++ [hex_digit (Z.land x 15)]
  end.

Definition uuid_to_string (u : Uuid) : string :=
  let ds := hex_digits 32 u in
  let dash := "-"%char in
  string_of_list_ascii
    (firstn 8 ds ++ [dash] ++ firstn 4 (skipn 8 ds) ++ [dash]
     ++ firstn 4 (skipn 12 ds) ++ [dash] ++ firstn 4 (skipn 16 ds) ++ [dash]
     ++ skipn 20 ds).

Definition res_bind {A B} (m : res A) (f : A -> res B) : res B :=
  match m with Ok a => f a | Err e => Err e | Panic p => Panic p end.
Notation "'let?' x ':=' m 'in' k" := (res_bind m (fun x => k))
  (at level 200, x name, k at level 200).

Definition is_empty (s : string) : bool := String.eqb s "".

(** [CapsuleArtifact::ensure_defaults] *)
Definition ensure_defaults (a : CapsuleArtifact) : CapsuleArtifact :=
  match provenance a with
  | [] => set_provenance a [CapsuleProvenance_default]
  | _ => a
  end.

(** [CapsuleLookupResponse::from_node]; [now] is [Utc::now()]. *)
Definition from_node (node : KnowledgeNode) (now : DateTime)
    : res CapsuleLookupResponse :=
  match capsule_from_value (payload_json node) with
  | None => Err "knowledge node payload is not a capsule"
  | Some capsule =>
      let a := ensure_defaults (artifact capsule) in
      let a := if is_empty (pol_tenant (policy a))
               then set_policy_tenant a "default" else a in
      let a := if is_empty (hash a) then set_hash a (uuid_to_string (id node))
               else a in
      (* Derive base TTL if only expires_at is present. *)
      let a := match ttl_seconds a, expires_at capsule with
               | None, Some exp =>
                   set_ttl_seconds a (Some (Z.max (num_seconds (exp - updated_at node)) 0))
               | _, _ => a
               end in
      let? exp_opt :=
        match expires_at capsule with
        | Some e => Ok (Some e)
        | None =>
            match ttl_seconds a with
            | Some ttl =>
                let? d := duration_seconds ttl in
                let? e := datetime_add (updated_at node) d in Ok (Some e)
            | None => Ok None
            end
        end in
      (* Ensure both expires_at and ttl_seconds are populated together. *)
      let a := match ttl_seconds a, exp_opt with
               | None, Some exp =>
                   set_ttl_seconds a (Some (Z.max (num_seconds (exp - updated_at node)) 0))
               | _, _ => a
               end in
      let remaining := option_map (fun ts => Z.max (num_seconds (ts - now)) 0) exp_opt in
      Ok {| resp_key := key capsule; resp_artifact := a;
            resp_expires_at := exp_opt; resp_ttl_remaining_seconds := remaining |}
  end.

(** [CapsuleIngestRequest::into_node]; [fresh] is the [Uuid::new_v4] drawn
    by [KnowledgeNode::new], overwritten by the stable id. *)
Definition into_node (req : CapsuleIngestRequest) (tenant : Uuid)
    (fresh : Uuid) (now : DateTime) : res KnowledgeNode :=
  let capsule := set_artifact req (ensure_defaults (artifact req)) in
  if is_empty (pol_tenant (policy (artifact capsule)))
  then Err "capsule policy.tenant is required"
  else if is_empty (hash (artifact capsule))
  then Err "capsule artifact.hash is required"
  else
    let node := KnowledgeNode_new fresh tenant "capsule" (VCapsule capsule) now in
    let stable_id := new_v5 NAMESPACE_URL
          (string_bytes (key capsule ++ ":" ++ hash (artifact capsule))) in
    Ok (Build_node stable_id (tenant_id node) (kind node) (payload_json node)
          (vector node) (Some (VProvenance (provenance (artifact capsule))))
          (Some (VPolicy (policy (artifact capsule)))) (created_at node)
          (updated_at node)).

Definition set_tenant (n : KnowledgeNode) (t : Uuid) : KnowledgeNode :=
  Build_node (id n) t (kind n) (payload_json n) (vector n) (node_provenance n)
    (node_policy n) (created_at n) (updated_at n).
Definition set_times (n : KnowledgeNode) (c u : DateTime) : KnowledgeNode :=
  Build_node (id n) (tenant_id n) (kind n) (payload_json n) (vector n)
    (node_provenance n) (node_policy n) c u.

(* ================================================================== *)
(** ** Sorting as [slice::sort_by] does it                             *)
(* ================================================================== *)

(** [sort_by] is a stable sort; for a total preorder its result is the
    one of this stable insertion sort. *)
Fixpoint insert_by {A} (cmp : A -> A -> comparison) (x : A) (l : list A) : list A :=
  match l with
  | [] => [x]
  | y :: l' => match cmp x y with
               | Lt => x :: y :: l'
               | _ => y :: insert_by cmp x l'
               end
  end.

Definition sort_by {A} (cmp : A -> A -> comparison) (l : list A) : list A :=
  fold_left (fun acc x => insert_by cmp x acc) l [].

(** [Iterator::position] *)
Fixpoint position {A} (p : A -> bool) (l : list A) : option nat :=
  match l with
  | [] => None
  | x :: l' => if p x then Some O else option_map S (position p l')
  end.

(* ================================================================== *)
(** ** src/repository/in_memory.rs: [InMemoryNodeRepository]          *)
(* ================================================================== *)

Inductive UpsertOutcome := Created | Updated.

(** [RwLock<HashMap<Uuid, HashMap<Uuid, KnowledgeNode>>>] *)
Abbreviation NodeStore := (gmap Z (gmap Z KnowledgeNode)) (only parsing).

(** [upsert]; [now] is [Utc::now()].  [tenant_map_mut] inserts an empty
    map for an unseen tenant. *)
Definition upsert (tenant : Uuid) (node : KnowledgeNode) (now : DateTime)
    (store : NodeStore) : UpsertOutcome * NodeStore :=
  let tenant_map := default ∅ (store !! tenant) in
  let node := set_tenant node tenant in
  match tenant_map !! id node with
  | Some existing =>
      let node := set_times node (created_at existing) now in
      (Updated, <[tenant := <[id node := node]> tenant_map]> store)
  | None =>
      let node := set_times node now now in
      (Created, <[tenant := <[id node := node]> tenant_map]> store)
  end.

(** [get] *)
Definition get (tenant i : Uuid) (store : NodeStore) : option KnowledgeNode :=
  match store !! tenant with
  | Some nodes => nodes !! i
  | None => None
  end.

(** [values()] of a tenant map, in the map's iteration order. *)
Definition values (m : gmap Z KnowledgeNode) : list KnowledgeNode :=
  map snd (map_to_list m).

(** the comparator of [query_by_kind]: [created_at], then [id] *)
Definition created_id_cmp (a b : KnowledgeNode) : comparison :=
  match Z.compare (created_at a) (created_at b) with
  | Eq => Z.compare (id a) (id b)
  | c => c
  end.

(** the body of [query_by_kind] after the tenant map was found *)
Definition query_nodes (vals : list KnowledgeNode) (k : string) (limit : nat)
    (cursor : option Uuid) : list KnowledgeNode :=
  let nodes := List.filter (fun n => String.eqb (kind n) k) vals in
  let nodes := sort_by created_id_cmp nodes in
  let nodes := match cursor with
               | Some cursor_id =>
                   match position (fun n => Z.eqb (id n) cursor_id) nodes with
                   | Some pos => skipn (pos + 1) nodes
                   | None => nodes
                   end
               | None => nodes
               end in
  firstn limit nodes.

(** [query_by_kind] *)
Definition query_by_kind (tenant : Uuid) (k : string) (limit : nat)
    (cursor : option Uuid) (store : NodeStore) : list KnowledgeNode :=
  match store !! tenant with
  | None => []
  | Some nodes_map => query_nodes (values nodes_map) k limit cursor
  end.

(* ================================================================== *)
(** ** src/repository/postgres.rs: the SQL of [PostgresNodeRepository] *)
(* ================================================================== *)

(** A [knowledge_nodes] row carries the columns of a [KnowledgeNode]; the
    table is a list of rows whose [id] is unique (the conflict target of
    [ON CONFLICT (id)] is a unique key on [id] alone).

    Every method first runs [set_tenant_on_conn], that is
    [SELECT set_config('app.current_tenant', $1, true)], on a connection
    taken with [pool.acquire()] and no open transaction.  With
    [is_local = true] the setting only lasts for the current transaction,
    which is that statement's own autocommit transaction: the tenant
    marker has lapsed when the method's next statement runs.  The
    statements below are therefore modelled by their SQL text alone. *)
Abbreviation PgTable := (list KnowledgeNode) (only parsing).

(** [map_node_row]: the [vector] column is never read. *)
Definition map_node_row (row : KnowledgeNode) : KnowledgeNode :=
  Build_node (id row) (tenant_id row) (kind row) (payload_json row) None
    (node_provenance row) (node_policy row) (created_at row) (updated_at row).

(** [PostgresNodeRepository::get]: [SELECT ... WHERE id = $1]; the
    [tenant] argument only reaches the lapsed marker. *)
Definition pg_get (tenant i : Uuid) (rows : PgTable) : option KnowledgeNode :=
  match List.find (fun r => Z.eqb (id r) i) rows with
  | Some r => Some (map_node_row r)
  | None => None
  end.

(** [ORDER BY created_at DESC, id ASC] *)
Definition pg_order (a b : KnowledgeNode) : comparison :=
  match Z.compare (created_at b) (created_at a) with
  | Eq => Z.compare (id a) (id b)
  | c => c
  end.

(** [PostgresNodeRepository::query_by_kind]:
    [WHERE tenant_id = $1 AND kind = $2 AND ($3::uuid IS NULL OR id > $3)
     ORDER BY created_at DESC, id ASC LIMIT $4]. *)
Definition pg_query_by_kind (tenant : Uuid) (k : string) (limit : nat)
    (cursor : option Uuid) (rows : PgTable) : list KnowledgeNode :=
  let sel := List.filter (fun r => Z.eqb (tenant_id r) tenant
                                   && String.eqb (kind r) k
                                   && match cursor with
                                      | None => true
                                      | Some c => Z.ltb c (id r)
                                      end) rows in
  map map_node_row (firstn limit (sort_by pg_order sel)).

(** [PostgresNodeRepository::search_similar]: pending pgvector, always empty. *)
Definition pg_search_similar (tenant : Uuid) (query : list Q) (limit : nat)
    (rows : PgTable) : list KnowledgeNode :=
  [].

(** [PostgresNodeRepository::upsert]:
    [INSERT INTO knowledge_nodes (id, tenant_id, kind, payload_json,
     provenance, policy) VALUES (...) ON CONFLICT (id) DO UPDATE SET kind,
     payload_json, provenance, policy, updated_at = now()
     RETURNING (xmax = 0)].  The conflict is on [id] alone, whatever
    tenant owns the row, and the update leaves [tenant_id],
    [created_at] and the [vector] column as they were.  The inserted
    row's [created_at] and [updated_at] are the columns' defaults (the
    schema is not in src/), here the statement's [now]; the [vector]
    column is not written. *)
Definition pg_upsert (tenant : Uuid) (node : KnowledgeNode) (now : DateTime)
    (rows : PgTable) : res UpsertOutcome * PgTable :=
  match List.find (fun r => Z.eqb (id r) (id node)) rows with
  | Some r =>
      (Ok Updated,
       map (fun r' => if Z.eqb (id r') (id node) then
                        Build_node (id r') (tenant_id r') (kind node)
                          (payload_json node) (vector r') (node_provenance node)
                          (node_policy node) (created_at r') now
                      else r') rows)
  | None =>
      (Ok Created,
       rows ++ [Build_node (id node) tenant (kind node) (payload_json node) None
                  (node_provenance node) (node_policy node) now now])
  end.

(* ================================================================== *)
(** ** The outbox: [InMemoryOutboxRepository]                           *)
(* ================================================================== *)

Inductive OutboxKind := Upsert | SupersededBy | RevokeCapsule.

Record OutboxEvent := {
  ev_id : Z;
  ev_tenant_id : Uuid;
  ev_kind : OutboxKind;
  ev_payload : Value;
  ev_created_at : DateTime;
  ev_published_at : option DateTime }.

Definition set_published (e : OutboxEvent) (p : option DateTime) : OutboxEvent :=
  {| ev_id := ev_id e; ev_tenant_id := ev_tenant_id e; ev_kind := ev_kind e;
     ev_payload := ev_payload e; ev_created_at := ev_created_at e;
     ev_published_at := p |}.

(** [RwLock<VecDeque<OutboxEvent>>], front first *)
Abbreviation Outbox := (list OutboxEvent) (only parsing).

(** the event [enqueue] appends *)
Definition new_event (i : Z) (tenant : Uuid) (k : OutboxKind) (payload : Value)
    (now : DateTime) : OutboxEvent :=
  {| ev_id := i; ev_tenant_id := tenant; ev_kind := k; ev_payload := payload;
     ev_created_at := now; ev_published_at := None |}.

(** [enqueue]: [id = guard.len() + 1], then [push_back]. *)
Definition enqueue (tenant : Uuid) (k : OutboxKind) (payload : Value)
    (now : DateTime) (q : Outbox) : Z * Outbox :=
  let i := Z.of_nat (length q) + 1 in
  (i, q ++ [new_event i tenant k payload now]).

(** the loop of [claim_batch]: [n] times [pop_front], stamping
    [published_at]; [now] is [Utc::now()]. *)
Fixpoint claim_loop (n : nat) (now : DateTime) (q : Outbox) : list OutboxEvent * Outbox :=
  match n with
  | O => ([], q)
  | S n' =>
      match q with
      | [] => ([], q)
      | event :: q' =>
          let '(events, rest) := claim_loop n' now q' in
          (set_published event (Some now) :: events, rest)
      end
  end.

(** [claim_batch]: [for _ in 0..size.min(guard.len())] *)
Definition claim_batch (size : nat) (now : DateTime) (q : Outbox) : list OutboxEvent * Outbox :=
  claim_loop (Nat.min size (length q)) now q.

(** A client of the outbox: a sequence of calls. *)
Inductive OutboxCall :=
| CallEnqueue (tenant : Uuid) (k : OutboxKind) (payload : Value) (now : DateTime)
| CallClaim (size : nat) (now : DateTime).

(** Running the calls from an empty queue.  Besides the queue, the run
    records every enqueued event in call order and, for every
    [claim_batch], its [size], the queue it ran on, and the batch. *)
Record OutboxRun := {
  run_queue : Outbox;
  run_enqueued : list OutboxEvent;
  run_claims : list (nat * Outbox * list OutboxEvent) }.

Definition outbox_step (st : OutboxRun) (c : OutboxCall) : OutboxRun :=
  match c with
  | CallEnqueue t k p now =>
      let '(i, q') := enqueue t k p now (run_queue st) in
      {| run_queue := q';
         run_enqueued := run_enqueued st ++ [new_event i t k p now];
         run_claims := run_claims st |}
  | CallClaim size now =>
      let '(batch, q') := claim_batch size now (run_queue st) in
      {| run_queue := q'; run_enqueued := run_enqueued st;
         run_claims := run_claims st ++ [(size, run_queue st, batch)] |}
  end.

Definition run_outbox (calls : list OutboxCall) : OutboxRun :=
  fold_left outbox_step calls {| run_queue := []; run_enqueued := []; run_claims := [] |}.

(* ================================================================== *)
(** ** src/server/http.rs: [api_capsule_store]                          *)
(* ================================================================== *)

(** the fields of [AppConfig] the handler reads *)
Record AppConfig := {
  default_tenant_id : Uuid;
  scedge_event_bus_enabled : bool;
  tenant_slugs : gmap string Uuid }.

(** [resolve_tenant] *)
Definition resolve_tenant (cfg : AppConfig) (slug : option string) : Uuid :=
  match slug with
  | Some s => match tenant_slugs cfg !! s with
              | Some u => u
              | None => default_tenant_id cfg
              end
  | None => default_tenant_id cfg
  end.

(** the JSON events handed to [publish_graph_event] *)
Inductive GraphEvent :=
| SUPERSEDED_BY (tenant old_hash new_hash : string)
| UPSERT_NODE (tenant key hash : string).

(** the handler's reply: the HTTP status, the [status] field of a
    successful reply, the node store after the call and the published
    events *)
Record StoreReply := {
  http_status : Z;
  reply_status : option string;
  reply_store : NodeStore;
  published : list GraphEvent }.

Definition error_reply (code : Z) (store : NodeStore) : res StoreReply :=
  Ok {| http_status := code; reply_status := None; reply_store := store;
        published := [] |}.

Section CapsuleStore.

(** [NodeRepository::get_by_key] is declared by the trait but implemented
    by no backend in src/; the handler is modelled for every such
    function. *)
Variable get_by_key : Uuid -> string -> NodeStore -> res (option KnowledgeNode).

(** [api_capsule_store] over the in-memory node repository; [fresh] is the
    [new_v4] drawn in [KnowledgeNode::new] and [now] is [Utc::now()]. *)
Definition api_capsule_store (cfg : AppConfig) (tenant : option string)
    (capsule : CapsuleIngestRequest) (fresh : Uuid) (now : DateTime)
    (store : NodeStore) : res StoreReply :=
  let policy_tenant := pol_tenant (policy (artifact capsule)) in
  if match tenant with
     | Some expected => negb (String.eqb policy_tenant expected)
     | None => false
     end
  then error_reply 400 store (* policy.tenant mismatch *)
  else if is_empty policy_tenant
  then error_reply 400 store (* artifact.policy.tenant is required *)
  else
    let tenant_id := resolve_tenant cfg tenant in
    match get_by_key tenant_id (key capsule) store with
    | Err _ => error_reply 500 store
    | Panic m => Panic m
    | Ok existing_node =>
        let response_capsule := capsule in
        match into_node capsule tenant_id fresh now with
        | Err _ => error_reply 500 store
        | Panic m => Panic m
        | Ok node =>
            let? existing_capsule :=
              match existing_node with
              | Some n => match from_node n now with
                          | Ok c => Ok (Some c)
                          | Err _ => Ok None
                          | Panic m => Panic m
                          end
              | None => Ok None
              end in
            let '(outcome, store') := upsert tenant_id node now store in
            let status := match outcome with
                          | Created => "created"
                          | Updated => "updated"
                          end in
            let tenant_slug := pol_tenant (policy (artifact response_capsule)) in
            let new_hash := hash (artifact response_capsule) in
            let events :=
              if scedge_event_bus_enabled cfg then
                [match outcome, existing_capsule with
                 | Updated, Some old_capsule =>
                     SUPERSEDED_BY tenant_slug (hash (resp_artifact old_capsule)) new_hash
                 | _, _ => UPSERT_NODE tenant_slug (key response_capsule) new_hash
                 end]
              else [] in
            Ok {| http_status := 200; reply_status := Some status;
                  reply_store := store'; published := events |}
        end
    end.

End CapsuleStore.

(** Modelled from the spec: [NodeRepository::get_by_key] ("node
    repository get-by-key"), which no backend in src/ implements: the
    first node of the tenant, in the map's iteration order, whose payload
    is a capsule with that key. *)
Definition get_by_key_spec (tenant : Uuid) (k : string) (store : NodeStore)
    : res (option KnowledgeNode) :=
  match store !! tenant with
  | None => Ok None
  | Some nodes =>
      Ok (List.find (fun n => match capsule_from_value (payload_json n) with
                              | Some c => String.eqb (key c) k
                              | None => false
                              end) (values nodes))
  end.

(* ================================================================== *)
(** ** Sample inputs                                                   *)
(* ================================================================== *)

Definition sample_policy (t : string) : CapsulePolicy :=
  {| pol_tenant := t; pol_phi := false; pol_pii := false; pol_region := None;
     pol_compliance_tags := [] |}.

Definition sample_artifact (t h : string) (ttl : option Z) : CapsuleArtifact :=
  {| answer := "Quarterly revenue was up 23%."; policy := sample_policy t;
     provenance := []; metrics := None; ttl_seconds := ttl; hash := h;
     metadata := None |}.

Definition sample_request (k h : string) (ttl exp : option Z) : CapsuleIngestRequest :=
  {| key := k; artifact := sample_artifact "acme" h ttl; expires_at := exp |}.

(** the event bus enabled, no slug table, default tenant 1 *)
Definition cfg_bus : AppConfig :=
  {| default_tenant_id := 1; scedge_event_bus_enabled := true;
     tenant_slugs := ∅ |}.

(* ================================================================== *)
(** ** Notions used by the statements                                  *)
(* ================================================================== *)

(** A [get_by_key] that never fails and only returns nodes stored for
    the tenant it is asked about. *)
Definition get_by_key_sound (g : Uuid -> string -> NodeStore -> res (option KnowledgeNode)) :=
  forall t k s, g t k s = Ok None
                \/ exists n m i, g t k s = Ok (Some n) /\ s !! t = Some m /\ m !! i = Some n.

(** The first ingest of the rehash scenario (key "k", hash "h1") into an empty
    store, which a sound [get_by_key] answers with [None]. *)
Definition first_reply : res StoreReply :=
  api_capsule_store (fun _ _ _ => Ok None) cfg_bus None
    (sample_request "k" "h1" None None) 7 100 ∅.

Definition first_store : NodeStore :=
  match first_reply with Ok r => reply_store r | _ => ∅ end.

(** The defaults [from_node] fills in before reconciling the expiry keep
    the TTL. *)
Definition lookup_defaults (node : KnowledgeNode) (c : CapsuleIngestRequest)
    : CapsuleArtifact :=
  let a := ensure_defaults (artifact c) in
  let a := if is_empty (pol_tenant (policy a)) then set_policy_tenant a "default" else a in
  if is_empty (hash a) then set_hash a (uuid_to_string (id node)) else a.

(** the nodes stored for a tenant, in iteration order *)
Definition tenant_nodes (t : Uuid) (store : NodeStore) : list KnowledgeNode :=
  match store !! t with Some m => values m | None => [] end.

(** the number of nodes stored for a tenant *)
Definition tenant_count (t : Uuid) (store : NodeStore) : nat :=
  match store !! t with Some m => size m | None => O end.

(** a node with an empty JSON payload and neither provenance nor policy *)
Definition sample_node (i t : Uuid) (k : string) (c u : DateTime)
    (v : option (list Q)) : KnowledgeNode :=
  Build_node i t k (VOther "{}") v None None c u.

(** the row [pg_upsert] writes for a node it has not seen *)
Definition pg_new_row (tenant : Uuid) (node : KnowledgeNode) (now : DateTime)
    : KnowledgeNode :=
  Build_node (id node) tenant (kind node) (payload_json node) None
    (node_provenance node) (node_policy node) now now.

(** [n'] is [n] written over the stored [e] at time [now]: the columns
    the upsert replaces come from [n], [created_at] from [e]. *)
Definition replaced_from (n e n' : KnowledgeNode) (now : DateTime) : Prop :=
  id n' = id n /\ kind n' = kind n /\ payload_json n' = payload_json n
  /\ node_provenance n' = node_provenance n /\ node_policy n' = node_policy n
  /\ created_at n' = created_at e /\ updated_at n' = now.

(** the row update of the [ON CONFLICT] branch *)
Definition pg_update_row (node : KnowledgeNode) (now : DateTime) (r' : KnowledgeNode)
    : KnowledgeNode :=
  if Z.eqb (id r') (id node) then
    Build_node (id r') (tenant_id r') (kind node) (payload_json node) (vector r')
      (node_provenance node) (node_policy node) (created_at r') now
  else r'.

(** the row of the table with a given id, whatever its tenant *)
Definition pg_row (i : Uuid) (rows : PgTable) : option KnowledgeNode :=
  List.find (fun r => Z.eqb (id r) i) rows.

(** every node of the in-memory store sits under its own tenant and id *)
Definition store_wf (s : NodeStore) : Prop :=
  forall t m i n, s !! t = Some m -> m !! i = Some n -> tenant_id n = t /\ id n = i.

(** a sequence of upserts [(tenant, node, now)], applied in order *)
Definition upsert_all (ops : list (Uuid * KnowledgeNode * DateTime)) (s : NodeStore)
    : NodeStore :=
  fold_left (fun s op => let '(t, n, now) := op in snd (upsert t n now s)) ops s.

(** three notes of tenant 1 with ids 3, 1, 2 upserted at times 1, 2, 3 *)
Definition pg_three_notes : PgTable :=
  snd (pg_upsert 1 (sample_node 2 1 "note" 0 0 None) 3
    (snd (pg_upsert 1 (sample_node 1 1 "note" 0 0 None) 2
      (snd (pg_upsert 1 (sample_node 3 1 "note" 0 0 None) 1 []))))).

(** the three nodes of the ranking example, with vectors [1,0], [0,1]
    and [0.9,0.1], upserted by tenant 1 into an empty Postgres table *)
Definition pg_ranking_rows : PgTable :=
  snd (pg_upsert 1 (sample_node 3 1 "doc" 0 0 (Some [9 # 10; 1 # 10]%Q)) 12
    (snd (pg_upsert 1 (sample_node 2 1 "doc" 0 0 (Some [0; 1]%Q)) 11
      (snd (pg_upsert 1 (sample_node 1 1 "doc" 0 0 (Some [1; 0]%Q)) 10 []))))).

(** an event with its publication stamp cleared, as it was enqueued *)
Definition strip (e : OutboxEvent) : OutboxEvent := set_published e None.

(** the events of every recorded [claim_batch] of a run, in call order *)
Definition claimed (r : OutboxRun) : list OutboxEvent :=
  concat (map snd (run_claims r)).

(** what a [claim_batch] of [size] returned from the queue [pending] *)
Definition claim_ok (size : nat) (pending batch : list OutboxEvent) : Prop :=
  (length batch <= size)%nat
  /\ map strip batch = firstn size pending
  /\ Forall (fun e => ev_published_at e = None) pending
  /\ Forall (fun e => ev_published_at e <> None) batch.

(** the invariant of a run of the in-memory outbox *)
Definition outbox_inv (r : OutboxRun) : Prop :=
  Forall (fun e => ev_published_at e = None) (run_queue r)
  /\ map strip (claimed r) ++ run_queue r = run_enqueued r
  /\ (forall size pending batch, In (size, pending, batch) (run_claims r) ->
        claim_ok size pending batch).

(** three events enqueued at times 1, 2, 3, then two claims of size 2 *)
Definition sample_calls : list OutboxCall :=
  [CallEnqueue 1 Upsert (VOther "a") 1; CallEnqueue 1 SupersededBy (VOther "b") 2;
   CallEnqueue 2 Upsert (VOther "c") 3; CallClaim 2 10; CallClaim 2 11].

(* ================================================================== *)
(** ** src/state.rs: the dashboard                                      *)
(* ================================================================== *)

(** [u64] arithmetic wraps around (release builds). *)
Definition U64_MOD : Z := 2 ^ 64.
Definition u64_incr (x : Z) : Z := (x + 1) mod U64_MOD.
Definition u64_add (x y : Z) : Z := (x + y) mod U64_MOD.

Definition MAX_HISTORY : nat := 200.

(** the [detail] objects the dashboard records: [json!({"node_id", "kind",
    "created"})], [json!({"node_id", "hit"})], or a given value *)
Inductive HistoryDetail :=
| DetailStore (node_id : Uuid) (kind : string) (created : bool)
| DetailLookup (node_id : Uuid) (hit : bool)
| DetailValue (v : Value).

Record HistoryEvent := {
  timestamp : DateTime;
  event_type : string;
  hist_tenant_id : Uuid;
  detail : HistoryDetail }.

Record Metrics := {
  cache_hits : Z;
  cache_misses : Z;
  total_stores : Z;
  total_lookups : Z;
  total_purges : Z;
  last_updated : option DateTime }.

(** [DashboardData], its history front first *)
Record DashboardData := {
  dash_metrics : Metrics;
  dash_history : list HistoryEvent }.

Definition Metrics_default : Metrics :=
  {| cache_hits := 0; cache_misses := 0; total_stores := 0; total_lookups := 0;
     total_purges := 0; last_updated := None |}.

Definition DashboardData_default : DashboardData :=
  {| dash_metrics := Metrics_default; dash_history := [] |}.

(** [push_history]: [pop_back] when full, then [push_front] *)
Definition push_history (d : DashboardData) (e : HistoryEvent) : DashboardData :=
  let h := if Nat.eqb (length (dash_history d)) MAX_HISTORY then removelast (dash_history d)
           else dash_history d in
  {| dash_metrics := dash_metrics d; dash_history := e :: h |}.

(** [HistoryEvent::new]; [now] is [Utc::now()] *)
Definition HistoryEvent_new (event_type : string) (tenant : Uuid) (detail : HistoryDetail)
    (now : DateTime) : HistoryEvent :=
  {| timestamp := now; event_type := event_type; hist_tenant_id := tenant;
     detail := detail |}.

Definition record_store (d : DashboardData) (tenant : Uuid) (k : string) (node_id : Uuid)
    (created : bool) (now : DateTime) : DashboardData :=
  let m := dash_metrics d in
  let m := {| cache_hits := cache_hits m; cache_misses := cache_misses m;
              total_stores := u64_incr (total_stores m); total_lookups := total_lookups m;
              total_purges := total_purges m; last_updated := Some now |} in
  push_history {| dash_metrics := m; dash_history := dash_history d |}
    (HistoryEvent_new "STORE" tenant (DetailStore node_id k created) now).

Definition record_lookup (d : DashboardData) (tenant : Uuid) (node_id : Uuid) (hit : bool)
    (now : DateTime) : DashboardData :=
  let m := dash_metrics d in
  let m := {| cache_hits := if hit then u64_incr (cache_hits m) else cache_hits m;
              cache_misses := if hit then cache_misses m else u64_incr (cache_misses m);
              total_stores := total_stores m; total_lookups := u64_incr (total_lookups m);
              total_purges := total_purges m; last_updated := Some now |} in
  push_history {| dash_metrics := m; dash_history := dash_history d |}
    (HistoryEvent_new "LOOKUP" tenant (DetailLookup node_id hit) now).

Definition record_purge (d : DashboardData) (tenant : Uuid) (dt : Value) (now : DateTime)
    : DashboardData :=
  let m := dash_metrics d in
  let m := {| cache_hits := cache_hits m; cache_misses := cache_misses m;
              total_stores := total_stores m; total_lookups := total_lookups m;
              total_purges := u64_incr (total_purges m); last_updated := Some now |} in
  push_history {| dash_metrics := m; dash_history := dash_history d |}
    (HistoryEvent_new "PURGE" tenant (DetailValue dt) now).

Definition clear_history (d : DashboardData) : DashboardData :=
  {| dash_metrics := dash_metrics d; dash_history := [] |}.

(** [f64] is IEEE-754 binary64 (precision 53, [emax] 1024), with the
    operations of the Standard Library's [SpecFloat]: round to nearest,
    ties to even. *)
Definition f64 : Type := SpecFloat.spec_float.
Definition f64_div : f64 -> f64 -> f64 := SpecFloat.SFdiv 53 1024.
Definition f64_mul : f64 -> f64 -> f64 := SpecFloat.SFmul 53 1024.
Definition f64_le (x y : f64) : bool := SpecFloat.SFleb x y.

(** [x as f64] for an unsigned integer [x]: round to nearest, ties to even *)
Definition u64_as_f64 (x : Z) : f64 := SpecFloat.binary_normalize 53 1024 x 0 false.

(** the literals [0.0] and [100.0] *)
Definition f64_zero : f64 := SpecFloat.S754_zero false.
Definition f64_100 : f64 := u64_as_f64 100.

(** neither NaN nor below zero: [+0.0], a positive finite value or [+inf] *)
Definition f64_nonneg (x : f64) : bool :=
  match x with
  | SpecFloat.S754_zero false | SpecFloat.S754_finite false _ _
  | SpecFloat.S754_infinity false => true
  | _ => false
  end.

(** [DashboardOverview] *)
Record DashboardOverview := {
  ov_cache_hits : Z;
  ov_cache_misses : Z;
  ov_total_stores : Z;
  ov_total_lookups : Z;
  ov_total_purges : Z;
  hit_rate : f64;
  ov_last_updated : option DateTime }.

(** [Metrics::compute_overview] *)
Definition compute_overview (m : Metrics) : DashboardOverview :=
  let total := u64_add (cache_hits m) (cache_misses m) in
  let hit_rate := if Z.eqb total 0 then f64_zero
                  else f64_mul (f64_div (u64_as_f64 (cache_hits m)) (u64_as_f64 total)) f64_100 in
  {| ov_cache_hits := cache_hits m; ov_cache_misses := cache_misses m;
     ov_total_stores := total_stores m; ov_total_lookups := total_lookups m;
     ov_total_purges := total_purges m; hit_rate := hit_rate;
     ov_last_updated := last_updated m |}.

Definition overview (d : DashboardData) : DashboardOverview := compute_overview (dash_metrics d).

(** The calls a client makes on a [DashboardHandle]. *)
Inductive DashboardCall :=
| DRecordStore (tenant : Uuid) (k : string) (node_id : Uuid) (created : bool) (now : DateTime)
| DRecordLookup (tenant : Uuid) (node_id : Uuid) (hit : bool) (now : DateTime)
| DRecordPurge (tenant : Uuid) (dt : Value) (now : DateTime)
| DClearHistory.

Definition dashboard_step (d : DashboardData) (c : DashboardCall) : DashboardData :=
  match c with
  | DRecordStore t k i cr now => record_store d t k i cr now
  | DRecordLookup t i hit now => record_lookup d t i hit now
  | DRecordPurge t dt now => record_purge d t dt now
  | DClearHistory => clear_history d
  end.

Definition run_dashboard (calls : list DashboardCall) : DashboardData :=
  fold_left dashboard_step calls DashboardData_default.

(** the dash_history event a call pushes, if any *)
Definition call_event (c : DashboardCall) : option HistoryEvent :=
  match c with
  | DRecordStore t k i cr now => Some (HistoryEvent_new "STORE" t (DetailStore i k cr) now)
  | DRecordLookup t i hit now => Some (HistoryEvent_new "LOOKUP" t (DetailLookup i hit) now)
  | DRecordPurge t dt now => Some (HistoryEvent_new "PURGE" t (DetailValue dt) now)
  | DClearHistory => None
  end.

(** the events pushed since the last [clear_history], oldest first *)
Definition events_since_clear (calls : list DashboardCall) : list HistoryEvent :=
  fold_left (fun es c => match c with
                         | DClearHistory => []
                         | _ => match call_event c with Some e => es ++ [e] | None => es end
                         end) calls [].

(** how many calls satisfy [p] *)
Definition count_calls (p : DashboardCall -> bool) (calls : list DashboardCall) : Z :=
  Z.of_nat (length (List.filter p calls)).

Definition is_store (c : DashboardCall) : bool :=
  match c with DRecordStore _ _ _ _ _ => true | _ => false end.
Definition is_lookup (c : DashboardCall) : bool :=
  match c with DRecordLookup _ _ _ _ => true | _ => false end.
Definition is_hit (c : DashboardCall) : bool :=
  match c with DRecordLookup _ _ hit _ => hit | _ => false end.
Definition is_miss (c : DashboardCall) : bool :=
  match c with DRecordLookup _ _ hit _ => negb hit | _ => false end.
Definition is_purge (c : DashboardCall) : bool :=
  match c with DRecordPurge _ _ _ => true | _ => false end.

(* ================================================================== *)
(** ** src/server/http.rs: the operations endpoints                     *)
(* ================================================================== *)

(** the parts of [HttpState] the operations endpoints touch: the
    in-memory node repository and the dashboard *)
Record HttpCtx := {
  ctx_store : NodeStore;
  ctx_dash : DashboardData }.

Record StoreResponse := {
  resp_node_id : Uuid;
  resp_created : bool }.

Record LookupResponse := {
  found : bool;
  resp_node : option KnowledgeNode }.

Definition set_id (n : KnowledgeNode) (i : Uuid) : KnowledgeNode :=
  Build_node i (tenant_id n) (kind n) (payload_json n) (vector n)
    (node_provenance n) (node_policy n) (created_at n) (updated_at n).

(** [api_store]; [fresh] and [t_new] are the [new_v4] and [Utc::now()] of
    [KnowledgeNode::new], [t_up] the [Utc::now()] of [upsert] and [t_dash]
    the one of [record_store].  The in-memory [upsert] never fails, so the
    [expect] never panics. *)
Definition api_store (cfg : AppConfig) (tenant_id : option Uuid) (node_id : option Uuid)
    (k : string) (payload : Value) (fresh t_new t_up t_dash : DateTime)
    (ctx : HttpCtx) : StoreResponse * HttpCtx :=
  let tenant := default (default_tenant_id cfg) tenant_id in
  let node := KnowledgeNode_new fresh tenant k payload t_new in
  let node := match node_id with Some i => set_id node i | None => node end in
  let '(outcome, store') := upsert tenant node t_up (ctx_store ctx) in
  let created := match outcome with Created => true | Updated => false end in
  let dash := record_store (ctx_dash ctx) tenant (kind node) (id node) created t_dash in
  ({| resp_node_id := id node; resp_created := created |},
   {| ctx_store := store'; ctx_dash := dash |}).

(** [api_lookup]; the in-memory [get] never fails, so its [Err] arm is
    not reachable here. *)
Definition api_lookup (cfg : AppConfig) (tenant_id : option Uuid) (node_id : Uuid)
    (t_dash : DateTime) (ctx : HttpCtx) : LookupResponse * HttpCtx :=
  let tenant := default (default_tenant_id cfg) tenant_id in
  match get tenant node_id (ctx_store ctx) with
  | Some node =>
      ({| found := true; resp_node := Some node |},
       {| ctx_store := ctx_store ctx;
          ctx_dash := record_lookup (ctx_dash ctx) tenant node_id true t_dash |})
  | None =>
      ({| found := false; resp_node := None |},
       {| ctx_store := ctx_store ctx;
          ctx_dash := record_lookup (ctx_dash ctx) tenant node_id false t_dash |})
  end.

(* ================================================================== *)
(** ** src/repository/in_memory.rs: [InMemoryEdgeRepository]          *)
(* ================================================================== *)

(** [KnowledgeEdge]; its [f32] [weight] is carried as a rational and never
    computed with *)
Record KnowledgeEdge := {
  edge_id : Uuid;
  edge_tenant_id : Uuid;
  edge_src : Uuid;
  edge_dst : Uuid;
  edge_rel : string;
  edge_weight : Q;
  edge_props : option Value;
  edge_created_at : DateTime }.

(** [RwLock<HashMap<Uuid, Vec<(Uuid, KnowledgeEdge)>>>] *)
Abbreviation EdgeStore := (gmap Z (list (Uuid * KnowledgeEdge))) (only parsing).

(** [link]; [fresh] is the edge's [Uuid::new_v4()] and [now] its
    [Utc::now()]. *)
Definition link (tenant src dst : Uuid) (rel : string) (weight : Q) (props : option Value)
    (fresh : Uuid) (now : DateTime) (store : EdgeStore) : EdgeStore :=
  let list := default [] (store !! tenant) in
  let edge := {| edge_id := fresh; edge_tenant_id := tenant; edge_src := src; edge_dst := dst;
                 edge_rel := rel; edge_weight := weight; edge_props := props;
                 edge_created_at := now |} in
  <[tenant := list ++ [(src, edge)] ]> store.

(** the double quote character *)
Definition dq : string := String "034"%char EmptyString.

(** [json!({ "target": edge.dst })], serialized *)
Definition target_json (dst : Uuid) : Value :=
  VOther ("{" ++ dq ++ "target" ++ dq ++ ":" ++ dq ++ uuid_to_string dst ++ dq ++ "}").

(** the [filter] closure of [neighbors] *)
Definition edge_selected (id : Uuid) (rel : option string) (se : Uuid * KnowledgeEdge) : bool :=
  Z.eqb (fst se) id
  && match rel with Some r => String.eqb r (edge_rel (snd se)) | None => true end.

(** [neighbors]; the [i]-th node built draws [fresh i] from
    [Uuid::new_v4()] and [clock i] from [Utc::now()] in
    [KnowledgeNode::new].  [_hops] is not read. *)
Definition neighbors (tenant id : Uuid) (rel : option string) (hops : Z) (limit : nat)
    (fresh clock : nat -> Z) (store : EdgeStore) : list KnowledgeNode :=
  match store !! tenant with
  | None => []
  | Some edges =>
      imap (fun i se => KnowledgeNode_new (fresh i) tenant (edge_rel (snd se))
                          (target_json (edge_dst (snd se))) (clock i))
        (firstn limit (List.filter (edge_selected id rel) edges))
  end.

(** a call of [link] *)
Record LinkCall := {
  l_tenant : Uuid; l_src : Uuid; l_dst : Uuid; l_rel : string; l_weight : Q;
  l_props : option Value; l_fresh : Uuid; l_now : DateTime }.

Definition run_links (calls : list LinkCall) (store : EdgeStore) : EdgeStore :=
  fold_left (fun s c => link (l_tenant c) (l_src c) (l_dst c) (l_rel c) (l_weight c)
                          (l_props c) (l_fresh c) (l_now c) s) calls store.

(** the entry a [link] call pushes onto its tenant's list *)
Definition link_entry (c : LinkCall) : Uuid * KnowledgeEdge :=
  (l_src c,
   {| edge_id := l_fresh c; edge_tenant_id := l_tenant c; edge_src := l_src c;
      edge_dst := l_dst c; edge_rel := l_rel c; edge_weight := l_weight c;
      edge_props := l_props c; edge_created_at := l_now c |}).

(** the link calls whose edge [neighbors tenant id rel] selects *)
Definition link_selected (tenant id : Uuid) (rel : option string) (c : LinkCall) : bool :=
  Z.eqb (l_tenant c) tenant && Z.eqb (l_src c) id
  && match rel with Some r => String.eqb r (l_rel c) | None => true end.

(* ================================================================== *)
(** ** src/config.rs: [parse_slug_map]                                 *)
(* ================================================================== *)

(** Rust's [str::split] on a one-byte (ASCII) separator: always at least
    one piece, an empty one for each separator at an end. *)
Fixpoint split_on (sep : ascii) (s : string) : list string :=
  match s with
  | EmptyString => [EmptyString]
  | String x s' =>
      let rest := split_on sep s' in
      if Ascii.eqb x sep then EmptyString :: rest
      else match rest with
           | r :: rs => String x r :: rs
           | [] => [String x EmptyString]
           end
  end.

Definition byte (n : nat) : ascii := ascii_of_nat n.

(** the UTF-8 encodings of the characters [char::is_whitespace] accepts
    (Unicode White_Space): U+0009..U+000D, U+0020, U+0085, U+00A0,
    U+1680, U+2000..U+200A, U+2028, U+2029, U+202F, U+205F, U+3000 *)
Definition ws_encodings : list (list ascii) :=
  map (fun n => [byte n]) [9; 10; 11; 12; 13; 32]%nat
  ++ [[byte 194; byte 133]; [byte 194; byte 160]; [byte 225; byte 154; byte 128]]
  ++ map (fun n => [byte 226; byte 128; byte n]) (seq 128 11)
  ++ [[byte 226; byte 128; byte 168]; [byte 226; byte 128; byte 169];
      [byte 226; byte 128; byte 175]; [byte 226; byte 129; byte 159];
      [byte 227; byte 128; byte 128]].

Fixpoint is_prefix (p l : list ascii) : bool :=
  match p, l with
  | [], _ => true
  | a :: p', b :: l' => Ascii.eqb a b && is_prefix p' l'
  | _ :: _, [] => false
  end.

(** strips leading encodings in [encs], at most [fuel] times *)
Fixpoint strip_prefixes (fuel : nat) (encs : list (list ascii)) (l : list ascii) : list ascii :=
  match fuel with
  | O => l
  | S f => match List.find (fun e => is_prefix e l) encs with
           | Some e => strip_prefixes f encs (skipn (length e) l)
           | None => l
           end
  end.

(** [str::trim] on the UTF-8 bytes of a [&str]: every step removes at least
    one byte, so [length l] steps suffice. *)
Definition trim_bytes (l : list ascii) : list ascii :=
  let l := strip_prefixes (length l) ws_encodings l in
  rev (strip_prefixes (length l) (map (@rev ascii) ws_encodings) (rev l)).

Definition trim (s : string) : string :=
  string_of_list_ascii (trim_bytes (list_ascii_of_string s)).

Section SlugMap.

(** [Uuid::parse_str], from the [uuid] crate *)
Variable parse_str : string -> option Uuid.

(** one iteration of the loop of [parse_slug_map] *)
Definition slug_entry (map : gmap string Uuid) (entry : string) : gmap string Uuid :=
  let trimmed := trim entry in
  if String.eqb trimmed EmptyString then map
  else match split_on "=" trimmed with
       | s :: parts =>
           if String.eqb s EmptyString then map
           else match parts with
                | uuid_str :: _ =>
                    match parse_str uuid_str with
                    | Some uuid => <[s := uuid]> map
                    | None => map
                    end
                | [] => map
                end
       | [] => map
       end.

(** [parse_slug_map] *)
Definition parse_slug_map (source : option string) : gmap string Uuid :=
  match source with
  | None => ∅
  | Some raw => fold_left slug_entry (split_on "," raw) ∅
  end.

End SlugMap.

(** a byte of a slug or uuid text that needs no escaping: printable ASCII
    other than the space, [','] and ['='] *)
Definition plain_byte (a : ascii) : bool :=
  let n := nat_of_ascii a in
  (Nat.leb 33 n && Nat.leb n 126 && negb (Nat.eqb n 44) && negb (Nat.eqb n 61))%bool.

Definition plain (s : string) : bool := forallb plain_byte (list_ascii_of_string s).

(** [slug=uuid] entries separated by commas *)
Definition slug_source (pairs : list (string * string)) : string :=
  String.concat "," (map (fun p => fst p ++ "=" ++ snd p)%string pairs).

(** the uuid of the last pair for [slug] whose text [parse_str] accepts *)
Definition slug_lookup (parse_str : string -> option Uuid) (pairs : list (string * string))
    (slug : string) : option Uuid :=
  fold_left (fun acc p => if String.eqb (fst p) slug then
                            match parse_str (snd p) with Some u => Some u | None => acc end
                          else acc) pairs None.

(* ================================================================== *)
(** ** src/server/http.rs: [api_capsule_lookup]                         *)
(* ================================================================== *)

(** the handler's reply: the capsule, or the status of the error reply
    ([cache_miss] is 404, [internal_error] 500) *)
Inductive CapsuleLookupReply :=
| LookupFound (capsule : CapsuleLookupResponse)
| LookupError (status : Z).

Section CapsuleLookup.

(** [NodeRepository::get_by_key], implemented by no backend in src/ *)
Variable get_by_key : Uuid -> string -> NodeStore -> res (option KnowledgeNode).

(** [api_capsule_lookup]; [now] is the [Utc::now()] of [from_node]. *)
Definition api_capsule_lookup (cfg : AppConfig) (qkey : string) (qtenant : option string)
    (now : DateTime) (store : NodeStore) : res CapsuleLookupReply :=
  let tenant_id := resolve_tenant cfg qtenant in
  match get_by_key tenant_id qkey store with
  | Err _ => Ok (LookupError 500)
  | Panic m => Panic m
  | Ok None => Ok (LookupError 404)
  | Ok (Some node) =>
      match from_node node now with
      | Err _ => Ok (LookupError 500)
      | Panic m => Panic m
      | Ok capsule =>
          match qtenant with
          | Some expected =>
              if negb (String.eqb (pol_tenant (policy (resp_artifact capsule))) expected)
              then Ok (LookupError 404)
              else Ok (LookupFound capsule)
          | None => Ok (LookupFound capsule)
          end
      end
  end.

End CapsuleLookup.

(* ================================================================== *)
(** ** src/repository: the outbox kind column                          *)
(* ================================================================== *)

(** [OutboxKind::as_str], the text [enqueue] binds *)
Definition outbox_kind_as_str (k : OutboxKind) : string :=
  match k with
  | Upsert => "UPSERT"
  | SupersededBy => "SUPERSEDED_BY"
  | RevokeCapsule => "REVOKE_CAPSULE"
  end.

(** the [match] on the [kind] column in the Postgres [claim_batch] *)
Definition decode_outbox_kind (s : string) : res OutboxKind :=
  if String.eqb s "UPSERT" then Ok Upsert
  else if String.eqb s "SUPERSEDED_BY" then Ok SupersededBy
  else if String.eqb s "REVOKE_CAPSULE" then Ok RevokeCapsule
  else Err ("unknown outbox kind " ++ s).

(* ================================================================== *)
(** ** src/server/grpc.rs: [GraphService::upsert_node]                  *)
(* ================================================================== *)

(** the [tonic::Status] codes the service returns *)
Inductive GrpcStatus :=
| InvalidArgument (msg : string)
| Internal (msg : string).

Record UpsertNodeResponse := {
  un_node_id : string;
  un_created : bool }.

(** [serde_json::Value::Null] *)
Definition VNull : Value := VOther "null".

Section Grpc.

(** [Uuid::parse_str], from the [uuid] crate *)
Variable parse_str : string -> option Uuid.
(** [serde_json::from_str::<Value>]: the value, or the parser's message *)
Variable json_from_str : string -> Value + string.

(** [parse_payload] *)
Definition parse_payload (raw : string) : GrpcStatus + Value :=
  if String.eqb (trim raw) EmptyString then inr VNull
  else match json_from_str raw with
       | inl v => inr v
       | inr err => inl (InvalidArgument ("payload_json is not valid JSON: " ++ err))
       end.

(** [GraphServiceImpl::upsert_node], over any node repository:
    [repo_upsert] is [repos.nodes.upsert] with its store of type [S]
    (the in-memory map or the Postgres table, as main.rs wires it),
    answering the outcome or an error; [fresh] and [t_new] are drawn by
    [KnowledgeNode::new] and [t_dash] by [record_store]. *)
Definition upsert_node_with {S : Type}
    (repo_upsert : Uuid -> KnowledgeNode -> S -> (UpsertOutcome + string) * S)
    (cfg : AppConfig) (node_id k payload_json : string)
    (fresh t_new t_dash : DateTime) (store : S) (dash : DashboardData)
    : (GrpcStatus + UpsertNodeResponse) * (S * DashboardData) :=
  match parse_payload payload_json with
  | inl st => (inl st, (store, dash))
  | inr json_payload =>
      let tenant_id := default_tenant_id cfg in
      let node := KnowledgeNode_new fresh tenant_id k json_payload t_new in
      match (if String.eqb node_id EmptyString then Some (id node) else parse_str node_id) with
      | None => (inl (InvalidArgument "node_id must be a UUID"), (store, dash))
      | Some nid =>
          let node := set_id node nid in
          match repo_upsert tenant_id node store with
          | (inr _, store') => (inl (Internal "failed to persist node"), (store', dash))
          | (inl outcome, store') =>
              let created := match outcome with Created => true | Updated => false end in
              let dash' := record_store dash tenant_id (kind node) (id node) created t_dash in
              (inr {| un_node_id := uuid_to_string nid; un_created := created |},
               (store', dash'))
          end
      end
  end.

(** [InMemoryNodeRepository::upsert] as a repository call that never
    fails; [now] is its [Utc::now()] *)
Definition inmem_repo_upsert (now : DateTime) (tenant : Uuid) (node : KnowledgeNode)
    (s : NodeStore) : (UpsertOutcome + string) * NodeStore :=
  let '(o, s') := upsert tenant node now s in (inl o, s').

(** [upsert_node] with the in-memory repository, sharing its store and
    dashboard with the HTTP handlers; [t_up] is the upsert's clock. *)
Definition upsert_node (cfg : AppConfig) (node_id k payload_json : string)
    (fresh t_new t_up t_dash : DateTime) (ctx : HttpCtx)
    : (GrpcStatus + UpsertNodeResponse) * HttpCtx :=
  let '(r, (store', dash')) :=
    upsert_node_with (inmem_repo_upsert t_up) cfg node_id k payload_json fresh t_new t_dash
      (ctx_store ctx) (ctx_dash ctx) in
  (r, {| ctx_store := store'; ctx_dash := dash' |}).

End Grpc.

(* ================================================================== *)
(** ** src/server/http.rs: [api_capsule_purge]                          *)
(* ================================================================== *)

(** the [REVOKE_CAPSULE] event handed to [publish_graph_event] *)
Record RevokeEvent := {
  rv_tenant : string;
  rv_capsule_id : string;
  rv_hash : string }.

(** the handler's reply: the status, the [purged] and [revoked_hashes]
    fields of a 200 reply, the events published and the node store after
    the call *)
Record PurgeReply := {
  purge_status : Z;
  purge_purged : Z;
  purge_revoked : list string;
  purge_published : list RevokeEvent;
  purge_store : NodeStore }.

Definition U32_MOD : Z := 2 ^ 32.

(** the keys of a [CapsulePurgeBody]: [key] as given, then the non-empty
    entries of [keys] *)
Definition purge_keys (body_key : option string) (body_keys : option (list string)) : list string :=
  match body_key with Some k => [k] | None => [] end
  ++ List.filter (fun k => negb (is_empty k)) (default [] body_keys).

Section CapsulePurge.

(** [NodeRepository::delete_by_key], implemented by no backend in src/:
    the deleted node if any, or an error, and the store afterwards *)
Variable delete_by_key : Uuid -> string -> NodeStore -> (option KnowledgeNode + string) * NodeStore.

(** the [for key in keys] loop; [now] is the [Utc::now()] of [from_node] *)
Fixpoint purge_loop (cfg : AppConfig) (tenant_id : Uuid) (now : DateTime) (keys : list string)
    (purged : Z) (revoked : list string) (events : list RevokeEvent) (store : NodeStore)
    : res PurgeReply :=
  match keys with
  | [] => Ok {| purge_status := 200; purge_purged := purged; purge_revoked := revoked;
                purge_published := events; purge_store := store |}
  | key :: keys =>
      let '(r, store) := delete_by_key tenant_id key store in
      match r with
      | inr _ => Ok {| purge_status := 500; purge_purged := 0; purge_revoked := [];
                       purge_published := events; purge_store := store |}
      | inl None => purge_loop cfg tenant_id now keys purged revoked events store
      | inl (Some node) =>
          let purged := (purged + 1) mod U32_MOD in
          if scedge_event_bus_enabled cfg then
            match from_node node now with
            | Ok capsule =>
                let tenant_slug := pol_tenant (policy (resp_artifact capsule)) in
                let hash := hash (resp_artifact capsule) in
                purge_loop cfg tenant_id now keys purged (revoked ++ [hash])
                  (events ++ [{| rv_tenant := tenant_slug; rv_capsule_id := resp_key capsule;
                                 rv_hash := hash |}]) store
            | Err _ => purge_loop cfg tenant_id now keys purged revoked events store
            | Panic m => Panic m
            end
          else purge_loop cfg tenant_id now keys purged revoked events store
      end
  end.

(** [api_capsule_purge] *)
Definition api_capsule_purge (cfg : AppConfig) (tenant : option string) (body_key : option string)
    (body_keys : option (list string)) (now : DateTime) (store : NodeStore) : res PurgeReply :=
  let tenant_id := resolve_tenant cfg tenant in
  purge_loop cfg tenant_id now (purge_keys body_key body_keys) 0 [] [] store.

End CapsulePurge.

(** [Uuid::nil] *)
Definition Uuid_nil : Uuid := 0.

(** [AppConfig::from_env] once [HTTP_ADDR] and [GRPC_ADDR] have parsed
    (its only failures), for the fields of [AppConfig] modelled here;
    each argument is [env::var(..).ok()] of [DEFAULT_TENANT_ID],
    [SCEDGE_EVENT_BUS_ENABLED] and [TENANT_SLUGS]. *)
Definition from_env (parse_str : string -> option Uuid)
    (default_tenant_env bus_env slugs_env : option string) : AppConfig :=
  let default_tenant_id :=
    match match default_tenant_env with Some value => parse_str value | None => None end with
    | Some u => u
    | None => Uuid_nil
    end in
  let scedge_event_bus_enabled :=
    match bus_env with
    | Some v => (String.eqb v "1" || String.eqb v "true" || String.eqb v "TRUE")%bool
    | None => false
    end in
  {| default_tenant_id := default_tenant_id;
     scedge_event_bus_enabled := scedge_event_bus_enabled;
     tenant_slugs := parse_slug_map parse_str slugs_env |}.

(* ================================================================== *)
(** ** src/repository/postgres.rs: [PostgresOutboxRepository]          *)
(* ================================================================== *)

(** An [outbox_events] row; [kind] is the text column. *)
Record OutboxRow := {
  orow_id : Z;
  orow_tenant_id : Uuid;
  orow_kind : string;
  orow_payload : Value;
  orow_created_at : DateTime;
  orow_published_at : option DateTime }.

(** A [claim_batch] in flight: its [UPDATE] has run the subquery and holds
    the row locks taken by [FOR UPDATE SKIP LOCKED] on the rows with ids
    [lock_ids], but has not committed yet; [lock_now] is [now()], the start
    time of its transaction.  Other statements run in between. *)
Record ClaimLock := {
  lock_claimer : nat;
  lock_now : DateTime;
  lock_ids : list Z }.

(** the table, its id sequence and the claims in flight *)
Record PgOutbox := {
  ob_rows : list OutboxRow;
  ob_next_id : Z;
  ob_locks : list ClaimLock }.

Definition zmem (x : Z) (l : list Z) : bool := existsb (Z.eqb x) l.

(** the ids of the rows locked by the claims in flight *)
Definition locked_ids (st : PgOutbox) : list Z := concat (map lock_ids (ob_locks st)).

(** [enqueue]: [INSERT INTO outbox_events (tenant_id, kind, payload)
    VALUES ($1, $2, $3) RETURNING id], binding [kind.as_str()].  The id is
    the next value of the table's id sequence and [created_at] the
    column's default [now()] (the schema is not in src/; the spec gives
    events a sequential identity). *)
Definition pg_enqueue (tenant : Uuid) (k : OutboxKind) (payload : Value) (now : DateTime)
    (st : PgOutbox) : Z * PgOutbox :=
  let i := ob_next_id st in
  (i, {| ob_rows := ob_rows st ++ [Build_OutboxRow i tenant (outbox_kind_as_str k) payload now None];
         ob_next_id := i + 1; ob_locks := ob_locks st |}).

(** the row with [published_at = now] *)
Definition stamp_row (now : DateTime) (r : OutboxRow) : OutboxRow :=
  Build_OutboxRow (orow_id r) (orow_tenant_id r) (orow_kind r) (orow_payload r)
    (orow_created_at r) (Some now).

(** the event [claim_batch] builds from a [RETURNING] row *)
Definition decode_row (r : OutboxRow) : res OutboxEvent :=
  match decode_outbox_kind (orow_kind r) with
  | Ok k => Ok {| ev_id := orow_id r; ev_tenant_id := orow_tenant_id r; ev_kind := k;
                  ev_payload := orow_payload r; ev_created_at := orow_created_at r;
                  ev_published_at := orow_published_at r |}
  | Err e => Err e
  | Panic m => Panic m
  end.

(** the [for row in rows] loop: the first unknown kind bails out *)
Fixpoint decode_rows (rows : list OutboxRow) : res (list OutboxEvent) :=
  match rows with
  | [] => Ok []
  | r :: rs =>
      match decode_row r with
      | Ok e => match decode_rows rs with
                | Ok es => Ok (e :: es)
                | Err m => Err m
                | Panic m => Panic m
                end
      | Err m => Err m
      | Panic m => Panic m
      end
  end.

(** the first claim in flight of claimer [c], and the others *)
Fixpoint take_lock (c : nat) (ls : list ClaimLock) : option (ClaimLock * list ClaimLock) :=
  match ls with
  | [] => None
  | l :: ls' =>
      if Nat.eqb (lock_claimer l) c then Some (l, ls')
      else match take_lock c ls' with
           | Some (l', rest) => Some (l', l :: rest)
           | None => None
           end
  end.

Section PgClaim.

(** [order]: the order in which [ORDER BY created_at ASC] lists the rows
    of the subquery (ties are the database's choice); [ret]: the order of
    the [RETURNING] rows (unspecified). *)
Variable order : list OutboxRow -> list OutboxRow.
Variable ret : list OutboxRow -> list OutboxRow.

(** the rows the subquery can take: [published_at IS NULL] and not
    locked by a claim in flight ([SKIP LOCKED]) *)
Definition takeable (st : PgOutbox) : list OutboxRow :=
  List.filter (fun r => match orow_published_at r with
                        | None => negb (zmem (orow_id r) (locked_ids st))
                        | Some _ => false
                        end) (ob_rows st).

(** [claim_batch], first half: the subquery
    [SELECT id ... WHERE published_at IS NULL ORDER BY created_at ASC
     LIMIT $1 FOR UPDATE SKIP LOCKED] locks the rows it returns. *)
Definition pg_claim_start (c size : nat) (now : DateTime) (st : PgOutbox) : PgOutbox :=
  {| ob_rows := ob_rows st; ob_next_id := ob_next_id st;
     ob_locks := ob_locks st
                 ++ [Build_ClaimLock c now (map orow_id (firstn size (order (takeable st))))] |}.

(** [claim_batch], second half: [UPDATE outbox_events SET published_at =
    now() WHERE id IN (...) RETURNING ...] commits, releasing the locks;
    then the returned rows are decoded.  [None] when claimer [c] has no
    claim in flight. *)
Definition pg_claim_finish (c : nat) (st : PgOutbox)
    : option (res (list OutboxEvent) * PgOutbox) :=
  match take_lock c (ob_locks st) with
  | None => None
  | Some (l, rest) =>
      let rows' := map (fun r => if zmem (orow_id r) (lock_ids l)
                                 then stamp_row (lock_now l) r else r) (ob_rows st) in
      Some (decode_rows (ret (List.filter (fun r => zmem (orow_id r) (lock_ids l)) rows')),
            {| ob_rows := rows'; ob_next_id := ob_next_id st; ob_locks := rest |})
  end.

(** Clients of the Postgres outbox, interleaved: enqueues, and the two
    halves of the claims of concurrent claimers. *)
Inductive PgOutboxCall :=
| PgEnqueue (tenant : Uuid) (k : OutboxKind) (payload : Value) (now : DateTime)
| PgClaimStart (c size : nat) (now : DateTime)
| PgClaimFinish (c : nat).

(** a run: the database, the ids [enqueue] returned and the results of
    the finished claims, in order *)
Record PgOutboxRun := {
  pr_state : PgOutbox;
  pr_enqueued : list Z;
  pr_results : list (res (list OutboxEvent)) }.

Definition pg_outbox_step (r : PgOutboxRun) (c : PgOutboxCall) : PgOutboxRun :=
  match c with
  | PgEnqueue t k p now =>
      let '(i, st') := pg_enqueue t k p now (pr_state r) in
      {| pr_state := st'; pr_enqueued := pr_enqueued r ++ [i]; pr_results := pr_results r |}
  | PgClaimStart cl size now =>
      {| pr_state := pg_claim_start cl size now (pr_state r);
         pr_enqueued := pr_enqueued r; pr_results := pr_results r |}
  | PgClaimFinish cl =>
      match pg_claim_finish cl (pr_state r) with
      | None => r
      | Some (out, st') =>
          {| pr_state := st'; pr_enqueued := pr_enqueued r; pr_results := pr_results r ++ [out] |}
      end
  end.

Definition pg_outbox_empty : PgOutboxRun :=
  {| pr_state := {| ob_rows := []; ob_next_id := 1; ob_locks := [] |};
     pr_enqueued := []; pr_results := [] |}.

Definition pg_run_outbox (calls : list PgOutboxCall) : PgOutboxRun :=
  fold_left pg_outbox_step calls pg_outbox_empty.

End PgClaim.

(** the events of the successful claims of a run *)
Definition pg_returned (r : PgOutboxRun) : list OutboxEvent :=
  concat (map (fun o => match o with Ok b => b | _ => [] end) (pr_results r)).

(** [ORDER BY created_at ASC], ties in table order *)
Definition created_order (l : list OutboxRow) : list OutboxRow :=
  sort_by (fun a b => Z.compare (orow_created_at a) (orow_created_at b)) l.

(** a row whose [kind] is the text of a kind *)
Definition kind_ok (r : OutboxRow) : Prop := exists k, orow_kind r = outbox_kind_as_str k.

(** [published_at IS NOT NULL] *)
Definition is_pub (x : OutboxRow) : bool :=
  match orow_published_at x with Some _ => true | None => false end.

(** the invariant of a run of the Postgres outbox *)
Definition pg_ob_inv (r : PgOutboxRun) : Prop :=
  map orow_id (ob_rows (pr_state r)) = pr_enqueued r
  /\ Forall (fun x => orow_id x < ob_next_id (pr_state r)) (ob_rows (pr_state r))
  /\ NoDup (map orow_id (ob_rows (pr_state r)))
  /\ Forall kind_ok (ob_rows (pr_state r))
  /\ Forall (fun o => exists b, o = Ok b) (pr_results r)
  /\ Permutation (map ev_id (pg_returned r))
                 (map orow_id (List.filter is_pub (ob_rows (pr_state r))))
  /\ NoDup (locked_ids (pr_state r))
  /\ (forall i, In i (locked_ids (pr_state r)) ->
        exists x, In x (ob_rows (pr_state r)) /\ orow_id x = i /\ orow_published_at x = None).

(** in memory: one event enqueued and claimed, then another one *)
Definition reuse_calls : list OutboxCall :=
  [CallEnqueue 1 Upsert (VOther "a") 1; CallClaim 1 2;
   CallEnqueue 1 Upsert (VOther "b") 3; CallClaim 1 4].

(** Postgres: two events, created at times 1 and 2; claimer 1 locks the
    older one, claimer 2 starts and finishes while claimer 1 is in flight *)
Definition skip_locked_calls : list PgOutboxCall :=
  [PgEnqueue 1 Upsert (VOther "a") 1; PgEnqueue 1 Upsert (VOther "b") 2;
   PgClaimStart 1 1 5; PgClaimStart 2 1 6; PgClaimFinish 2].

(** Postgres: two events, created at times 1 and 2, claimed by one claim *)
Definition one_claim_calls : list PgOutboxCall :=
  [PgEnqueue 1 Upsert (VOther "a") 1; PgEnqueue 1 Upsert (VOther "b") 2;
   PgClaimStart 1 2 5; PgClaimFinish 1].

(* ================================================================== *)
(** * Properties                                                       *)
(* ================================================================== *)

(** ** Sanity checks of the embedding *)

Example sha1_abc :
  Sha1.sha1 (string_bytes "abc") = 968236873715988614170569073515315707566766479517.
Proof. vm_compute. reflexivity. Qed.

Example new_v5_k_h1 :
  new_v5 NAMESPACE_URL (string_bytes "k:h1") = 11453899657592607424935039980174933035.
Proof. vm_compute. reflexivity. Qed.

Example uuid_to_string_k_h1 :
  uuid_to_string 11453899657592607424935039980174933035
  = "089df0da-6f68-5df0-95b3-fd75001d7c2b".
Proof. vm_compute. reflexivity. Qed.

(** ** The capsule ingest handler *)

(** The handler consults [get_by_key] once, at the resolved tenant and
    the request's key: two implementations that agree there give the
    same reply. *)
Lemma api_capsule_store_get_by_key_ext g g' cfg tenant c fresh now store :
  g (resolve_tenant cfg tenant) (key c) store
  = g' (resolve_tenant cfg tenant) (key c) store ->
  api_capsule_store g cfg tenant c fresh now store
  = api_capsule_store g' cfg tenant c fresh now store.
Proof. intros H. unfold api_capsule_store. rewrite H. reflexivity. Qed.

Lemma get_by_key_spec_sound : get_by_key_sound get_by_key_spec.
Proof.
  intros t k s. unfold get_by_key_spec.
  destruct (s !! t) as [m|] eqn:Hm; [|left; reflexivity].
  destruct (List.find _ _) as [n|] eqn:Hf; [|left; reflexivity].
  right. apply List.find_some in Hf as [Hin _].
  unfold values in Hin. apply in_map_iff in Hin as [[i v] [Hv Hin]].
  simpl in Hv. subst v.
  apply list_elem_of_In, elem_of_map_to_list in Hin.
  exists n, m, i. auto.
Qed.

Lemma first_reply_eq :
  first_reply = Ok {| http_status := 200; reply_status := Some "created";
                      reply_store := first_store;
                      published := [UPSERT_NODE "acme" "k" "h1"] |}.
Proof. vm_compute. reflexivity. Qed.

(** After it, a sound [get_by_key] finds nothing or the stored node. *)
Lemma first_ingest_get_by_key g :
  get_by_key_sound g ->
  api_capsule_store g cfg_bus None (sample_request "k" "h1" None None) 7 100 ∅ = first_reply
  /\ (g 1 "k"%string first_store = Ok None
      \/ g 1 "k"%string first_store
          = Ok (get 1 (new_v5 NAMESPACE_URL (string_bytes "k:h1")) first_store)).
Proof.
  intros Hg. split.
  - destruct (Hg 1 "k"%string ∅) as [Hz|[n [m [i [_ [Hm _]]]]]];
      [|rewrite lookup_empty in Hm; discriminate].
    apply api_capsule_store_get_by_key_ext. exact Hz.
  - destruct (Hg 1 "k"%string first_store) as [H|[n [m [i [H [Hm Hi]]]]]];
      [left; exact H|right].
    rewrite H. f_equal.
    vm_compute in Hm. injection Hm as <-.
    apply elem_of_map_to_list in Hi. vm_compute in Hi.
    apply list_elem_of_singleton in Hi. injection Hi as _ ->.
    vm_compute. reflexivity.
Qed.

(** C1 (code_bug).  Ingesting key "k" with hash "h1" into an empty store
    and then key "k" with hash "h2", with the event bus enabled, publishes
    no SUPERSEDED_BY event: the stable node id hashes "key:hash", so the
    second upsert is [Created] and the handler publishes UPSERT_NODE for
    "h2".  This holds for every [get_by_key] that only returns stored
    nodes. *)
Theorem capsule_rehash_not_superseded g :
  get_by_key_sound g ->
  match api_capsule_store g cfg_bus None (sample_request "k" "h1" None None) 7 100 ∅ with
  | Ok rep1 =>
      published rep1 = [UPSERT_NODE "acme" "k" "h1"]
      /\ match api_capsule_store g cfg_bus None (sample_request "k" "h2" None None)
                 8 200 (reply_store rep1) with
         | Ok rep2 => reply_status rep2 = Some "created"%string
                      /\ published rep2 = [UPSERT_NODE "acme" "k" "h2"]
         | _ => False
         end
  | _ => False
  end.
Proof.
  intros Hg. destruct (first_ingest_get_by_key g Hg) as [E1 H2].
  rewrite E1, first_reply_eq. cbn -[api_capsule_store first_store].
  split; [reflexivity|].
  destruct H2 as [H|H].
  - rewrite (api_capsule_store_get_by_key_ext g (fun _ _ _ => Ok None) cfg_bus None
               (sample_request "k" "h2" None None) 8 200 first_store H).
    vm_compute. split; reflexivity.
  - rewrite (api_capsule_store_get_by_key_ext g
               (fun _ _ _ => Ok (get 1 (new_v5 NAMESPACE_URL (string_bytes "k:h1")) first_store))
               cfg_bus None (sample_request "k" "h2" None None) 8 200 first_store H).
    vm_compute. split; reflexivity.
Qed.

Lemma capsule_rehash_not_superseded_witness :
  get_by_key_sound get_by_key_spec /\
  match api_capsule_store get_by_key_spec cfg_bus None
          (sample_request "k" "h1" None None) 7 100 ∅ with
  | Ok rep1 =>
      published rep1 = [UPSERT_NODE "acme" "k" "h1"]
      /\ match api_capsule_store get_by_key_spec cfg_bus None
                 (sample_request "k" "h2" None None) 8 200 (reply_store rep1) with
         | Ok rep2 => reply_status rep2 = Some "created"%string
                      /\ published rep2 = [UPSERT_NODE "acme" "k" "h2"]
         | _ => False
         end
  | _ => False
  end.
Proof.
  split; [exact get_by_key_spec_sound|].
  apply capsule_rehash_not_superseded. exact get_by_key_spec_sound.
Defined.

(** ** Capsule translation *)

Lemma ensure_defaults_policy a : policy (ensure_defaults a) = policy a.
Proof. unfold ensure_defaults. destruct (provenance a); reflexivity. Qed.

Lemma ensure_defaults_hash a : hash (ensure_defaults a) = hash a.
Proof. unfold ensure_defaults. destruct (provenance a); reflexivity. Qed.

Lemma ensure_defaults_ttl a : ttl_seconds (ensure_defaults a) = ttl_seconds a.
Proof. unfold ensure_defaults. destruct (provenance a); reflexivity. Qed.

Lemma is_empty_spec s : is_empty s = true <-> s = ""%string.
Proof. unfold is_empty. apply String.eqb_eq. Qed.

(** C8.  [into_node] rejects a request exactly when its policy tenant or
    its hash is empty (provenance defaulting touches neither), it never
    panics, and when it rejects, [api_capsule_store] answers with an
    error status, stores nothing and publishes nothing. *)
Theorem into_node_rejects_iff_missing_fields :
  (forall req tenant fresh now,
      (exists e, into_node req tenant fresh now = Err e)
      <-> (pol_tenant (policy (artifact req)) = ""%string
           \/ hash (artifact req) = ""%string))
  /\ (forall req tenant fresh now m, into_node req tenant fresh now <> Panic m)
  /\ (forall g cfg tenant c fresh now store e rep,
        into_node c (resolve_tenant cfg tenant) fresh now = Err e ->
        api_capsule_store g cfg tenant c fresh now store = Ok rep ->
        http_status rep <> 200 /\ reply_store rep = store /\ published rep = []).
Proof.
  split; [|split].
  - intros req tenant fresh now. unfold into_node. cbn [artifact set_artifact].
    rewrite ensure_defaults_policy, ensure_defaults_hash.
    destruct (is_empty (pol_tenant (policy (artifact req)))) eqn:Ht.
    + apply is_empty_spec in Ht. split; [intros _; left; exact Ht|eauto].
    + destruct (is_empty (hash (artifact req))) eqn:Hh.
      * apply is_empty_spec in Hh. split; [intros _; right; exact Hh|eauto].
      * split; [intros [e He]; discriminate|].
        intros [H|H]; apply is_empty_spec in H; congruence.
  - intros req tenant fresh now m. unfold into_node.
    destruct (is_empty _); [discriminate|]. destruct (is_empty _); discriminate.
  - intros g cfg tenant c fresh now store e rep Hn Hapi.
    unfold api_capsule_store in Hapi.
    destruct (match tenant with Some _ => _ | None => false end).
    { injection Hapi as <-. split; [discriminate|split; reflexivity]. }
    destruct (is_empty _).
    { injection Hapi as <-. split; [discriminate|split; reflexivity]. }
    destruct (g _ _ _); try discriminate.
    + rewrite Hn in Hapi. injection Hapi as <-. split; [discriminate|split; reflexivity].
    + injection Hapi as <-. split; [discriminate|split; reflexivity].
Qed.

Lemma into_node_rejects_iff_missing_fields_witness :
  into_node (sample_request "k" "" None None) 1 7 0 = Err "capsule artifact.hash is required"
  /\ forall rep,
       api_capsule_store get_by_key_spec cfg_bus None (sample_request "k" "" None None)
         7 0 ∅ = Ok rep ->
       http_status rep <> 200 /\ reply_store rep = ∅ /\ published rep = [].
Proof.
  split; [vm_compute; reflexivity|].
  intros rep. apply (proj2 (proj2 into_node_rejects_iff_missing_fields)
                       get_by_key_spec cfg_bus None (sample_request "k" "" None None)
                       7 0 ∅ "capsule artifact.hash is required").
  vm_compute. reflexivity.
Defined.

Lemma lookup_defaults_ttl node c :
  ttl_seconds (lookup_defaults node c) = ttl_seconds (artifact c).
Proof.
  unfold lookup_defaults.
  destruct (is_empty (pol_tenant _)), (is_empty (hash _));
    cbn; rewrite ?ensure_defaults_ttl; reflexivity.
Qed.

Lemma from_node_unfold node c now :
  capsule_from_value (payload_json node) = Some c ->
  from_node node now =
  let a := lookup_defaults node c in
  let a := match ttl_seconds a, expires_at c with
           | None, Some exp =>
               set_ttl_seconds a (Some (Z.max (num_seconds (exp - updated_at node)) 0))
           | _, _ => a
           end in
  let? exp_opt :=
    match expires_at c with
    | Some e => Ok (Some e)
    | None =>
        match ttl_seconds a with
        | Some ttl =>
            let? d := duration_seconds ttl in
            let? e := datetime_add (updated_at node) d in Ok (Some e)
        | None => Ok None
        end
    end in
  let a := match ttl_seconds a, exp_opt with
           | None, Some exp =>
               set_ttl_seconds a (Some (Z.max (num_seconds (exp - updated_at node)) 0))
           | _, _ => a
           end in
  Ok {| resp_key := key c; resp_artifact := a; resp_expires_at := exp_opt;
        resp_ttl_remaining_seconds :=
          option_map (fun ts => Z.max (num_seconds (ts - now)) 0) exp_opt |}.
Proof. intros H. unfold from_node. rewrite H. reflexivity. Qed.

(** TTL/expiry reconciliation of [from_node] where chrono's arithmetic
    stays in range: an expiry alone derives the TTL, a TTL alone derives
    the expiry, and neither gives neither. *)
Lemma from_node_expiry_in_range node c now :
  capsule_from_value (payload_json node) = Some c ->
  (forall e, ttl_seconds (artifact c) = None -> expires_at c = Some e ->
     exists r, from_node node now = Ok r /\ resp_expires_at r = Some e
       /\ ttl_seconds (resp_artifact r) = Some (Z.max (num_seconds (e - updated_at node)) 0))
  /\ (forall t, ttl_seconds (artifact c) = Some t -> expires_at c = None ->
       Z.abs (t * 1000) <= I64_MAX ->
       MIN_UTC <= updated_at node + t * NANOS_PER_SEC <= MAX_UTC ->
       exists r, from_node node now = Ok r
         /\ resp_expires_at r = Some (updated_at node + t * NANOS_PER_SEC)
         /\ ttl_seconds (resp_artifact r) = Some t)
  /\ (ttl_seconds (artifact c) = None -> expires_at c = None ->
       exists r, from_node node now = Ok r /\ resp_expires_at r = None
         /\ resp_ttl_remaining_seconds r = None).
Proof.
  intros Hp. rewrite (from_node_unfold node c now Hp). cbv zeta.
  pose proof (lookup_defaults_ttl node c) as Ht.
  split; [|split].
  - intros e Hn He. rewrite Hn in Ht. rewrite Ht, He. cbn.
    eexists. split; [reflexivity|]. split; reflexivity.
  - intros t Hs He Hd Hr. rewrite Hs in Ht. rewrite Ht, He.
    cbn -[lookup_defaults duration_seconds datetime_add]. rewrite Ht.
    unfold duration_seconds. apply Z.leb_le in Hd. rewrite Hd.
    cbn -[lookup_defaults datetime_add]. unfold datetime_add. destruct Hr as [Hr1 Hr2].
    apply Z.leb_le in Hr1, Hr2. rewrite Hr1, Hr2. cbn -[lookup_defaults].
    eexists. split; [reflexivity|]. cbn -[lookup_defaults]. rewrite Ht.
    split; reflexivity.
  - intros Hn He. rewrite Hn in Ht. rewrite Ht, He.
    cbn -[lookup_defaults]. rewrite Ht. cbn -[lookup_defaults].
    eexists. split; [reflexivity|]. split; reflexivity.
Qed.

(** C5 (code_bug).  A capsule ingested with only [ttl_seconds =
    10^16] (a valid [i64]) is accepted and stored, but every lookup of
    it panics in [Duration::seconds] instead of deriving
    [expires_at = updated_at + ttl_seconds]. *)
Theorem capsule_huge_ttl_lookup_panics :
  match into_node (sample_request "k" "h" (Some (10 ^ 16)) None) 1 7 0 with
  | Ok n =>
      let '(outcome, store) := upsert 1 n 0 ∅ in
      outcome = Created
      /\ match get 1 (id n) store with
         | Some stored => from_node stored 5 = Panic "Duration::seconds out of bounds"
         | None => False
         end
  | _ => False
  end.
Proof. vm_compute. split; reflexivity. Qed.

(** ** The in-memory node repository *)

Lemma get_tenant_map t i (store : NodeStore) :
  get t i store = default ∅ (store !! t) !! i.
Proof. unfold get. destruct (store !! t); reflexivity. Qed.

Lemma upsert_cases t n now (store : NodeStore) :
  upsert t n now store =
  match get t (id n) store with
  | Some existing =>
      (Updated, <[t := <[id n := set_times (set_tenant n t) (created_at existing) now]>
                         (default ∅ (store !! t))]> store)
  | None =>
      (Created, <[t := <[id n := set_times (set_tenant n t) now now]>
                         (default ∅ (store !! t))]> store)
  end.
Proof.
  unfold upsert. rewrite get_tenant_map. cbn [id set_tenant Build_node].
  destruct (default ∅ (store !! t) !! id n); reflexivity.
Qed.

Lemma get_upsert_same t n now (store : NodeStore) :
  get t (id n) (snd (upsert t n now store))
  = Some (set_times (set_tenant n t)
            (match get t (id n) store with Some e => created_at e | None => now end) now).
Proof.
  rewrite upsert_cases. unfold get at 1.
  destruct (get t (id n) store); cbn [snd];
    rewrite lookup_insert_eq; cbn; rewrite lookup_insert_eq; reflexivity.
Qed.

Lemma get_upsert_other t n now (store : NodeStore) t' i :
  (t' <> t \/ i <> id n) ->
  get t' i (snd (upsert t n now store)) = get t' i store.
Proof.
  intros Hne. rewrite upsert_cases.
  destruct (get t (id n) store); cbn [snd]; rewrite !get_tenant_map;
    (destruct (decide (t' = t)) as [->|Ht];
     [ destruct Hne as [Hne|Hne]; [congruence|];
       rewrite lookup_insert_eq; cbn; rewrite lookup_insert_ne by congruence; reflexivity
     | rewrite lookup_insert_ne by congruence; reflexivity ]).
Qed.

Lemma tenant_count_upsert_seen t n now (store : NodeStore) e :
  get t (id n) store = Some e ->
  forall t', tenant_count t' (snd (upsert t n now store)) = tenant_count t' store.
Proof.
  intros He t'. rewrite upsert_cases, He. cbn [snd]. unfold tenant_count.
  rewrite get_tenant_map in He.
  destruct (decide (t' = t)) as [->|Ht].
  - rewrite lookup_insert_eq. rewrite map_size_insert_Some by (exists e; exact He).
    destruct (store !! t); [reflexivity|]. cbn in He. rewrite lookup_empty in He. discriminate.
  - rewrite lookup_insert_ne by congruence. reflexivity.
Qed.

(** ** The Postgres node repository *)

Lemma find_map_same {A} (p : A -> bool) (f : A -> A) (l : list A) :
  (forall x, p (f x) = p x) ->
  List.find p (map f l) = option_map f (List.find p l).
Proof.
  intros Hp. induction l as [|x l IH]; [reflexivity|].
  cbn. rewrite Hp. destruct (p x); [reflexivity|exact IH].
Qed.

Lemma find_app_none {A} (p : A -> bool) (l1 l2 : list A) :
  List.find p l1 = None -> List.find p (l1 ++ l2) = List.find p l2.
Proof.
  induction l1 as [|x l1 IH]; [reflexivity|].
  cbn. destruct (p x); [discriminate|exact IH].
Qed.

Lemma find_id_absent (b : KnowledgeNode -> bool) i (rows : PgTable) :
  ~ In i (map id rows) ->
  List.find (fun r => b r && Z.eqb (id r) i) rows = None.
Proof.
  induction rows as [|r rows IH]; [reflexivity|].
  intros Hn. cbn in *. destruct (Z.eqb_spec (id r) i) as [E|E]; [tauto|].
  rewrite andb_false_r. apply IH. tauto.
Qed.

Lemma find_id_none i (rows : PgTable) :
  List.find (fun r => Z.eqb (id r) i) rows = None -> ~ In i (map id rows).
Proof.
  induction rows as [|r rows IH]; [tauto|].
  cbn. destruct (Z.eqb_spec (id r) i) as [E|E]; [discriminate|].
  intros Hf [Hr|Hr]; [congruence|exact (IH Hf Hr)].
Qed.

Lemma find_id_some i (rows : PgTable) r :
  List.find (fun r => Z.eqb (id r) i) rows = Some r -> id r = i /\ In r rows.
Proof.
  intros Hf. apply List.find_some in Hf as [Hin Hr]. apply Z.eqb_eq in Hr. auto.
Qed.

Lemma pg_update_row_id node now r : id (pg_update_row node now r) = id r.
Proof. unfold pg_update_row. destruct (Z.eqb _ _); reflexivity. Qed.

Lemma pg_update_row_tenant node now r :
  tenant_id (pg_update_row node now r) = tenant_id r.
Proof. unfold pg_update_row. destruct (Z.eqb _ _); reflexivity. Qed.

Lemma pg_upsert_cases t n now (rows : PgTable) :
  pg_upsert t n now rows =
  match pg_row (id n) rows with
  | Some r => (Ok Updated, map (pg_update_row n now) rows)
  | None => (Ok Created, rows ++ [pg_new_row t n now])
  end.
Proof. reflexivity. Qed.

Lemma find_none_intro {A} (p : A -> bool) (l : list A) :
  (forall x, In x l -> p x = false) -> List.find p l = None.
Proof.
  induction l as [|x l IH]; intros H; [reflexivity|].
  cbn. rewrite (H x (or_introl eq_refl)). apply IH. intros y Hy. apply H. right. exact Hy.
Qed.

Lemma pg_get_row t i (rows : PgTable) :
  pg_get t i rows = option_map map_node_row (pg_row i rows).
Proof. unfold pg_get, pg_row. destruct (List.find _ rows); reflexivity. Qed.

(** an id no row has: [upsert] appends the tenant's row *)
Lemma pg_upsert_fresh t n now (rows : PgTable) :
  (forall r, In r rows -> id r <> id n) ->
  pg_upsert t n now rows = (Ok Created, rows ++ [pg_new_row t n now])
  /\ pg_row (id n) (rows ++ [pg_new_row t n now]) = Some (pg_new_row t n now).
Proof.
  intros H.
  assert (Hf : pg_row (id n) rows = None).
  { unfold pg_row. apply find_none_intro. intros r Hr. apply Z.eqb_neq, H, Hr. }
  rewrite pg_upsert_cases, Hf. split; [reflexivity|].
  unfold pg_row in *. rewrite find_app_none by exact Hf. cbn. rewrite Z.eqb_refl. reflexivity.
Qed.

(** an id some row has, whatever its tenant: [upsert] overwrites it *)
Lemma pg_upsert_conflict t n now (rows : PgTable) e :
  pg_row (id n) rows = Some e ->
  fst (pg_upsert t n now rows) = Ok Updated
  /\ exists n', pg_row (id n) (snd (pg_upsert t n now rows)) = Some n'
               /\ replaced_from n e n' now /\ tenant_id n' = tenant_id e.
Proof.
  intros He. pose proof (find_id_some _ _ _ He) as [Hid _].
  rewrite pg_upsert_cases, He. cbn [fst snd]. split; [reflexivity|].
  exists (pg_update_row n now e). unfold pg_row in *.
  rewrite find_map_same by (intros x; rewrite pg_update_row_id; reflexivity).
  rewrite He. split; [reflexivity|].
  unfold pg_update_row. rewrite Hid, Z.eqb_refl.
  unfold replaced_from. cbn. auto 10.
Qed.

(** ** Upsert outcomes *)

(** X17. In the in-memory repository, [upsert] returns [Created] and
    stores the node under the tenant, with
    [created_at = updated_at = now], when the tenant has no node with its
    id; otherwise it returns [Updated] and stores the new node with the
    stored [created_at] and [updated_at = now]. So a second upsert of the
    same node returns [Updated] and keeps [created_at]. *)
Theorem inmem_upsert_created_or_updated :
  (forall t n now (s : NodeStore),
     get t (id n) s = None ->
     fst (upsert t n now s) = Created
     /\ get t (id n) (snd (upsert t n now s)) = Some (set_times (set_tenant n t) now now))
  /\ (forall t n now (s : NodeStore) e,
        get t (id n) s = Some e ->
        fst (upsert t n now s) = Updated
        /\ exists n', get t (id n) (snd (upsert t n now s)) = Some n'
                     /\ replaced_from n e n' now /\ tenant_id n' = t)
  /\ (forall t n now1 now2 (s : NodeStore),
        let s1 := snd (upsert t n now1 s) in
        fst (upsert t n now2 s1) = Updated
        /\ option_map created_at (get t (id n) (snd (upsert t n now2 s1)))
           = option_map created_at (get t (id n) s1)).
Proof.
  split; [|split].
  - intros t n now s H. rewrite get_upsert_same, H, upsert_cases, H. split; reflexivity.
  - intros t n now s e H. rewrite get_upsert_same, H, upsert_cases, H. split; [reflexivity|].
    eexists. split; [reflexivity|]. unfold replaced_from. cbn. auto 10.
  - intros t n now1 now2 s s1.
    assert (H1 : get t (id n) s1 = Some (set_times (set_tenant n t)
                   (match get t (id n) s with Some e => created_at e | None => now1 end) now1))
      by apply get_upsert_same.
    rewrite get_upsert_same, H1, upsert_cases, H1. split; reflexivity.
Qed.

Lemma inmem_upsert_created_or_updated_witness :
  (fst (upsert 1 (sample_node 42 1 "note" 0 0 None) 10 ∅) = Created
   /\ get 1 42 (snd (upsert 1 (sample_node 42 1 "note" 0 0 None) 10 ∅))
      = Some (sample_node 42 1 "note" 10 10 None))
  /\ fst (upsert 1 (sample_node 42 1 "note" 0 0 None) 20
            (snd (upsert 1 (sample_node 42 1 "note" 0 0 None) 10 ∅))) = Updated.
Proof.
  destruct inmem_upsert_created_or_updated as (A & B & _).
  split.
  - exact (A 1 (sample_node 42 1 "note" 0 0 None) 10 ∅ eq_refl).
  - destruct (B 1 (sample_node 42 1 "note" 0 0 None) 20
                (snd (upsert 1 (sample_node 42 1 "note" 0 0 None) 10 ∅))
                (sample_node 42 1 "note" 10 10 None)) as [U _];
      [vm_compute; reflexivity|exact U].
Defined.

(** C6 (code bug). In Postgres, once tenant [t1] has created the row of
    a node, an upsert by any tenant [t2] of a node with the same id
    returns [Updated], even when [t2] has never stored that id, and
    overwrites [t1]'s row: the row keeps tenant [t1] and its
    [created_at] but now carries [t2]'s kind, payload, provenance and
    policy. *)
Theorem pg_upsert_overwrites_other_tenant t1 t2 n1 n2 now1 now2 (rows : PgTable) :
  (forall r, In r rows -> id r <> id n1) -> id n2 = id n1 ->
  let rows1 := snd (pg_upsert t1 n1 now1 rows) in
  fst (pg_upsert t1 n1 now1 rows) = Ok Created
  /\ fst (pg_upsert t2 n2 now2 rows1) = Ok Updated
  /\ exists r, pg_row (id n1) (snd (pg_upsert t2 n2 now2 rows1)) = Some r
              /\ tenant_id r = t1 /\ created_at r = now1
              /\ kind r = kind n2 /\ payload_json r = payload_json n2
              /\ node_provenance r = node_provenance n2 /\ node_policy r = node_policy n2.
Proof.
  intros Hf Hid rows1.
  destruct (pg_upsert_fresh t1 n1 now1 rows Hf) as [E1 R1].
  unfold rows1. rewrite E1. cbn [fst snd]. split; [reflexivity|].
  rewrite <- Hid in R1.
  destruct (pg_upsert_conflict t2 n2 now2 _ _ R1) as [U [n' [G [Rp Ht]]]].
  split; [exact U|]. exists n'. rewrite Hid in G. split; [exact G|].
  destruct Rp as (_ & Hk & Hp & Hpr & Hpo & Hc & _).
  split; [exact Ht|]. split; [exact Hc|]. auto.
Qed.

Lemma pg_upsert_overwrites_other_tenant_witness :
  fst (pg_upsert 2 (sample_node 42 2 "task" 0 0 None) 20
         (snd (pg_upsert 1 (sample_node 42 1 "note" 0 0 None) 10 []))) = Ok Updated.
Proof.
  exact (proj1 (proj2 (pg_upsert_overwrites_other_tenant 1 2
    (sample_node 42 1 "note" 0 0 None) (sample_node 42 2 "task" 0 0 None) 10 20 []
    (fun r Hr => match Hr with end) eq_refl))).
Defined.

(** ** Capsule identity *)

Lemma into_node_ok_id req t fresh now n :
  into_node req t fresh now = Ok n ->
  id n = new_v5 NAMESPACE_URL (string_bytes (key req ++ ":" ++ hash (artifact req))).
Proof.
  unfold into_node. cbn [artifact set_artifact key].
  rewrite ensure_defaults_hash.
  destruct (is_empty _); [discriminate|]. destruct (is_empty _); [discriminate|].
  intros H. injection H as <-. reflexivity.
Qed.

(** C7. The node id [into_node] gives a capsule is
    [new_v5(NAMESPACE_URL, key ":" hash)], whatever the tenant, the other
    fields, the random draw and the clock; two requests with equal key
    and hash get the same id; and upserting the second one after the
    first, under the same tenant, returns [Updated] and leaves every
    tenant's node count unchanged. *)
Theorem capsule_identity_deterministic :
  forall req1 req2 t1 t2 fresh1 fresh2 now1 now2 n1 n2,
    key req1 = key req2 -> hash (artifact req1) = hash (artifact req2) ->
    into_node req1 t1 fresh1 now1 = Ok n1 ->
    into_node req2 t2 fresh2 now2 = Ok n2 ->
    id n1 = new_v5 NAMESPACE_URL (string_bytes (key req1 ++ ":" ++ hash (artifact req1)))
    /\ id n1 = id n2
    /\ (t1 = t2 -> forall (s : NodeStore) t',
          let s1 := snd (upsert t1 n1 now1 s) in
          fst (upsert t2 n2 now2 s1) = Updated
          /\ tenant_count t' (snd (upsert t2 n2 now2 s1)) = tenant_count t' s1).
Proof.
  intros req1 req2 t1 t2 fresh1 fresh2 now1 now2 n1 n2 Hk Hh H1 H2.
  apply into_node_ok_id in H1. apply into_node_ok_id in H2.
  assert (Hid : id n1 = id n2) by congruence.
  split; [exact H1|]. split; [exact Hid|].
  intros <- s t' s1.
  assert (Hg : get t1 (id n2) s1 = Some (set_times (set_tenant n1 t1)
                 (match get t1 (id n1) s with Some e => created_at e | None => now1 end) now1))
    by (rewrite <- Hid; apply get_upsert_same).
  split.
  - rewrite upsert_cases, Hg. reflexivity.
  - exact (tenant_count_upsert_seen t1 n2 now2 s1 _ Hg t').
Qed.

Lemma capsule_identity_deterministic_witness :
  id (match into_node (sample_request "k" "h1" None None) 1 7 100 with
      | Ok n => n | _ => sample_node 0 0 "" 0 0 None end)
  = id (match into_node (sample_request "k" "h1" (Some 60) None) 1 8 200 with
        | Ok n => n | _ => sample_node 0 0 "" 0 0 None end).
Proof.
  refine (proj1 (proj2 (capsule_identity_deterministic
            (sample_request "k" "h1" None None) (sample_request "k" "h1" (Some 60) None)
            1 1 7 8 100 200 _ _ eq_refl eq_refl _ _))); vm_compute; reflexivity.
Defined.

(** ** Sorting and searching lists *)

Lemma insert_by_perm {A} (cmp : A -> A -> comparison) x l :
  Permutation (insert_by cmp x l) (x :: l).
Proof.
  induction l as [|y l IH]; cbn; [reflexivity|].
  destruct (cmp x y); try reflexivity;
    (etransitivity; [apply perm_skip, IH|apply perm_swap]).
Qed.

Lemma fold_insert_perm {A} (cmp : A -> A -> comparison) l acc :
  Permutation (fold_left (fun acc x => insert_by cmp x acc) l acc) (l ++ acc).
Proof.
  revert acc. induction l as [|x l IH]; intros acc; cbn; [reflexivity|].
  etransitivity; [apply IH|]. rewrite insert_by_perm. symmetry. apply Permutation_middle.
Qed.

Lemma sort_by_perm {A} (cmp : A -> A -> comparison) l :
  Permutation (sort_by cmp l) l.
Proof. unfold sort_by. rewrite fold_insert_perm. rewrite app_nil_r. reflexivity. Qed.

Lemma position_none {A} (p : A -> bool) l :
  (forall x, In x l -> p x = false) -> position p l = None.
Proof.
  induction l as [|x l IH]; intros H; [reflexivity|].
  cbn. rewrite (H x (or_introl eq_refl)), IH; [reflexivity|].
  intros y Hy. apply H. right. exact Hy.
Qed.

(** ** Stale cursors *)

(** C10. In the in-memory backend, a cursor that is the id of no node of
    the tenant with the kind is ignored: the call returns the first
    [limit] nodes of the whole ordered sequence, as without a cursor. *)
Theorem query_by_kind_stale_cursor_restarts t k limit c (s : NodeStore) :
  (forall n, In n (tenant_nodes t s) -> kind n = k -> id n <> c) ->
  query_by_kind t k limit (Some c) s = query_by_kind t k limit None s
  /\ query_by_kind t k limit None s
     = firstn limit (sort_by created_id_cmp
                       (List.filter (fun n => String.eqb (kind n) k) (tenant_nodes t s))).
Proof.
  intros H. unfold query_by_kind, tenant_nodes in *.
  destruct (s !! t) as [m|]; [|split; [reflexivity|destruct limit; reflexivity]].
  split; [|reflexivity].
  unfold query_nodes. rewrite position_none; [reflexivity|].
  intros x Hx. apply (Permutation_in _ (sort_by_perm _ _)) in Hx.
  apply filter_In in Hx as [Hx Hk]. apply String.eqb_eq in Hk.
  apply Z.eqb_neq. exact (H x Hx Hk).
Qed.

Lemma query_by_kind_stale_cursor_restarts_witness :
  query_by_kind 1 "note" 1 (Some 99)
    (<[1 := <[5 := sample_node 5 1 "note" 20 20 None]>
              (<[3 := sample_node 3 1 "note" 10 10 None]> ∅)]> ∅)
  = [sample_node 3 1 "note" 10 10 None].
Proof.
  refine (eq_trans (proj1 (query_by_kind_stale_cursor_restarts 1 "note" 1 99 _ _)) _).
  - intros n Hn _. vm_compute in Hn.
    destruct Hn as [<-|[<-|[]]]; discriminate.
  - vm_compute. reflexivity.
Defined.

(** ** Tenant isolation *)

Lemma in_firstn {A} n (l : list A) x : In x (firstn n l) -> In x l.
Proof. intros H. rewrite <- (firstn_skipn n l). apply in_or_app. left. exact H. Qed.

Lemma in_skipn {A} n (l : list A) x : In x (skipn n l) -> In x l.
Proof. intros H. rewrite <- (firstn_skipn n l). apply in_or_app. right. exact H. Qed.

Lemma in_values m n : In n (values m) -> exists i, m !! i = Some n.
Proof.
  unfold values. intros H. apply in_map_iff in H as [[i n'] [Hs Hi]]. cbn in Hs. subst n'.
  exists i. apply elem_of_map_to_list. apply list_elem_of_In. exact Hi.
Qed.

Lemma upsert_wf t n now (s : NodeStore) : store_wf s -> store_wf (snd (upsert t n now s)).
Proof.
  intros Hwf t' m i n' Hm Hi.
  assert (Hg : get t' i (snd (upsert t n now s)) = Some n')
    by (unfold get; rewrite Hm; exact Hi).
  destruct (decide (t' = t /\ i = id n)) as [[-> ->]|Hne].
  - rewrite get_upsert_same in Hg. injection Hg as <-. split; reflexivity.
  - rewrite get_upsert_other in Hg by (destruct (decide (t' = t)); [right|left]; tauto).
    unfold get in Hg. destruct (s !! t') as [m0|] eqn:Hm0; [|discriminate].
    exact (Hwf t' m0 i n' Hm0 Hg).
Qed.

Lemma upsert_all_wf ops (s : NodeStore) : store_wf s -> store_wf (upsert_all ops s).
Proof.
  revert s. induction ops as [|[[t n] now] ops IH]; intros s Hwf; [exact Hwf|].
  apply IH, upsert_wf, Hwf.
Qed.

Lemma get_wf (s : NodeStore) t i n : store_wf s -> get t i s = Some n -> tenant_id n = t /\ id n = i.
Proof.
  intros Hwf. unfold get. destruct (s !! t) as [m|] eqn:Hm; [|discriminate].
  apply (Hwf t m i n Hm).
Qed.

Lemma tenant_nodes_wf (s : NodeStore) t n :
  store_wf s -> In n (tenant_nodes t s) -> tenant_id n = t.
Proof.
  intros Hwf. unfold tenant_nodes. destruct (s !! t) as [m|] eqn:Hm; [|intros []].
  intros H. apply in_values in H as [i Hi]. exact (proj1 (Hwf t m i n Hm Hi)).
Qed.

Lemma query_by_kind_in t k limit cursor (s : NodeStore) n :
  In n (query_by_kind t k limit cursor s) -> In n (tenant_nodes t s) /\ kind n = k.
Proof.
  unfold query_by_kind, tenant_nodes. destruct (s !! t) as [m|]; [|intros []].
  unfold query_nodes. intros H. apply in_firstn in H.
  assert (H' : In n (sort_by created_id_cmp
                       (List.filter (fun n => String.eqb (kind n) k) (values m)))).
  { destruct cursor as [c|]; [|exact H].
    destruct (position _ _); [exact (in_skipn _ _ _ H)|exact H]. }
  apply (Permutation_in _ (sort_by_perm _ _)) in H'.
  apply filter_In in H' as [Hn Hk]. apply String.eqb_eq in Hk. auto.
Qed.

Lemma get_upsert_all_other t2 i ops (s : NodeStore) :
  (forall t n now, In (t, n, now) ops -> t = t2 -> id n <> i) ->
  get t2 i (upsert_all ops s) = get t2 i s.
Proof.
  revert s. induction ops as [|[[t n] now] ops IH]; intros s H; [reflexivity|].
  cbn. rewrite IH.
  - apply get_upsert_other. destruct (decide (t2 = t)) as [->|Ht]; [right|left; exact Ht].
    intros E. apply (H t n now); [left; reflexivity|reflexivity|symmetry; exact E].
  - intros t' n' now' Hin. exact (H t' n' now' (or_intror Hin)).
Qed.

(** X18. In the in-memory repository, after any sequence of upserts
    from the empty store, [get] and [query_by_kind] with tenant [t]
    return only nodes whose [tenant_id] is [t]; [get t2 i] is [None]
    unless some upsert under [t2] had id [i]. *)
Theorem inmem_reads_own_tenant :
  (forall ops t i n, get t i (upsert_all ops ∅) = Some n -> tenant_id n = t /\ id n = i)
  /\ (forall ops t k limit cursor n,
        In n (query_by_kind t k limit cursor (upsert_all ops ∅)) ->
        tenant_id n = t /\ kind n = k)
  /\ (forall ops t2 i,
        (forall t n now, In (t, n, now) ops -> t = t2 -> id n <> i) ->
        get t2 i (upsert_all ops ∅) = None).
Proof.
  assert (Hwf0 : store_wf ∅) by (intros t m i n H; discriminate).
  split; [|split].
  - intros ops t i n. apply get_wf, upsert_all_wf, Hwf0.
  - intros ops t k limit cursor n H. apply query_by_kind_in in H as [H Hk].
    split; [|exact Hk]. exact (tenant_nodes_wf _ _ _ (upsert_all_wf ops _ Hwf0) H).
  - intros ops t2 i H. rewrite get_upsert_all_other by exact H. reflexivity.
Qed.

Lemma inmem_reads_own_tenant_witness :
  get 2 42 (upsert_all [(1, sample_node 42 1 "note" 0 0 None, 10)] ∅) = None.
Proof.
  apply (proj2 (proj2 inmem_reads_own_tenant)).
  intros t n now [E|[]] Ht. injection E as <- <- _. discriminate.
Defined.

(** C3 (code bug). In Postgres, [get] ignores its tenant: after tenant
    [t1] created the row of a node whose id no row had, [get t2] of that
    id returns [t1]'s node, with [t1] as its tenant and [t1]'s kind and
    payload, for every tenant [t2]. *)
Theorem pg_get_ignores_tenant t1 t2 n now (rows : PgTable) :
  (forall r, In r rows -> id r <> id n) ->
  fst (pg_upsert t1 n now rows) = Ok Created
  /\ exists r, pg_get t2 (id n) (snd (pg_upsert t1 n now rows)) = Some r
              /\ tenant_id r = t1 /\ id r = id n
              /\ kind r = kind n /\ payload_json r = payload_json n.
Proof.
  intros Hf. destruct (pg_upsert_fresh t1 n now rows Hf) as [E R].
  rewrite E. cbn [fst snd]. split; [reflexivity|].
  rewrite pg_get_row, R. eexists. split; [reflexivity|]. cbn. auto.
Qed.

Lemma pg_get_ignores_tenant_witness :
  pg_get 2 42 (snd (pg_upsert 1 (sample_node 42 1 "note" 0 0 None) 10 [])) <> None.
Proof.
  destruct (pg_get_ignores_tenant 1 2 (sample_node 42 1 "note" 0 0 None) 10 []
              (fun r Hr => match Hr with end)) as [_ [r [G _]]].
  change (id (sample_node 42 1 "note" 0 0 None)) with 42 in G.
  rewrite G. discriminate.
Defined.

(** ** Keyset pagination *)

(** C2 fails for Postgres. Three notes with ids 3, 1, 2 are created at
    times 1, 2, 3. The whole result is in descending creation order
    (ids 2, 1, 3), not ascending. Paging with size 1 and the last id as
    the cursor gives the pages [2], [3], [] and never returns the note
    with id 1. *)
Lemma pg_query_by_kind_pages_skip_row :
  map (fun n => (id n, created_at n)) pg_three_notes = [(3, 1); (1, 2); (2, 3)]
  /\ map id (pg_query_by_kind 1 "note" 10 None pg_three_notes) = [2; 1; 3]
  /\ map id (pg_query_by_kind 1 "note" 1 None pg_three_notes) = [2]
  /\ map id (pg_query_by_kind 1 "note" 1 (Some 2) pg_three_notes) = [3]
  /\ pg_query_by_kind 1 "note" 1 (Some 3) pg_three_notes = [].
Proof. vm_compute. repeat split. Qed.

(** ** Similarity search *)


(** ** The outbox *)

Lemma claim_loop_eq n now (q : Outbox) :
  claim_loop n now q = (map (fun e => set_published e (Some now)) (firstn n q), skipn n q).
Proof.
  revert q. induction n as [|n IH]; intros q; [reflexivity|].
  destruct q as [|e q]; [reflexivity|]. cbn. rewrite IH. reflexivity.
Qed.

Lemma firstn_min_length {A} n (l : list A) : firstn (Nat.min n (length l)) l = firstn n l.
Proof.
  destruct (Nat.le_ge_cases n (length l)).
  - rewrite Nat.min_l by exact H. reflexivity.
  - rewrite Nat.min_r by exact H. rewrite !firstn_all2 by lia. reflexivity.
Qed.

Lemma skipn_min_length {A} n (l : list A) : skipn (Nat.min n (length l)) l = skipn n l.
Proof.
  destruct (Nat.le_ge_cases n (length l)).
  - rewrite Nat.min_l by exact H. reflexivity.
  - rewrite Nat.min_r by exact H. rewrite !skipn_all2 by lia. reflexivity.
Qed.

Lemma claim_batch_eq size now (q : Outbox) :
  claim_batch size now q
  = (map (fun e => set_published e (Some now)) (firstn size q), skipn size q).
Proof.
  unfold claim_batch. rewrite claim_loop_eq, firstn_min_length, skipn_min_length.
  reflexivity.
Qed.

Lemma strip_published e now : ev_published_at e = None -> strip (set_published e (Some now)) = e.
Proof. destruct e; cbn. intros ->. reflexivity. Qed.

Lemma Forall_firstn' {A} (P : A -> Prop) n (l : list A) : Forall P l -> Forall P (firstn n l).
Proof.
  rewrite !Forall_forall. intros H x Hx. apply H. apply list_elem_of_In in Hx.
  apply list_elem_of_In. exact (in_firstn _ _ _ Hx).
Qed.

Lemma Forall_skipn' {A} (P : A -> Prop) n (l : list A) : Forall P l -> Forall P (skipn n l).
Proof.
  rewrite !Forall_forall. intros H x Hx. apply H. apply list_elem_of_In in Hx.
  apply list_elem_of_In. exact (in_skipn _ _ _ Hx).
Qed.

Lemma outbox_step_inv r c : outbox_inv r -> outbox_inv (outbox_step r c).
Proof.
  intros (Hq & Hc & Hb). destruct c as [t k p now|size now]; cbn.
  - unfold outbox_inv, claimed in *. cbn. split; [|split].
    + apply Forall_app. split; [exact Hq|]. constructor; [reflexivity|constructor].
    + rewrite app_assoc, Hc. reflexivity.
    + exact Hb.
  - rewrite claim_batch_eq. unfold outbox_inv, claimed in *. cbn. split; [|split].
    + apply Forall_skipn', Hq.
    + rewrite map_app, concat_app, map_app. cbn. rewrite app_nil_r, <- app_assoc.
      rewrite map_map.
      assert (Hs : map (fun e => strip (set_published e (Some now))) (firstn size (run_queue r))
                   = firstn size (run_queue r)).
      { pose proof (Forall_firstn' _ size _ Hq) as Hf. induction (firstn size (run_queue r))
          as [|e l IH]; [reflexivity|].
        inversion Hf as [|? ? He Hl]; subst. cbn. rewrite strip_published by exact He.
        rewrite IH by exact Hl. reflexivity. }
      rewrite Hs, firstn_skipn. exact Hc.
    + intros size' pending batch Hin. apply in_app_or in Hin as [Hin|[Heq|[]]];
        [exact (Hb _ _ _ Hin)|].
      injection Heq as <- <- <-. unfold claim_ok. split; [|split; [|split]].
      * rewrite length_map, length_firstn. lia.
      * rewrite map_map. pose proof (Forall_firstn' _ size _ Hq) as Hf.
        induction (firstn size (run_queue r)) as [|e l IH]; [reflexivity|].
        inversion Hf as [|? ? He Hl]; subst. cbn. rewrite strip_published by exact He.
        rewrite IH by exact Hl. reflexivity.
      * exact Hq.
      * apply Forall_forall. intros e He. apply list_elem_of_In, in_map_iff in He as [e' [<- _]].
        cbn. discriminate.
Qed.

Lemma run_outbox_inv calls : outbox_inv (run_outbox calls).
Proof.
  unfold run_outbox.
  assert (Hz : outbox_inv {| run_queue := []; run_enqueued := []; run_claims := [] |}).
  { split; [constructor|]. split; [reflexivity|]. intros ? ? ? []. }
  revert Hz. generalize {| run_queue := []; run_enqueued := []; run_claims := [] |}.
  induction calls as [|c calls IH]; intros r Hr; [exact Hr|]. apply IH, outbox_step_inv, Hr.
Qed.

Section InsertSorted.
Context {A : Type} (cmp : A -> A -> comparison) (R : A -> A -> Prop).
Hypothesis cmp_lt : forall x y, cmp x y = Lt -> R x y.
Hypothesis cmp_ge : forall x y, cmp x y <> Lt -> R y x.

Lemma insert_by_hdrel y x l :
  HdRel R y l -> R y x -> HdRel R y (insert_by cmp x l).
Proof.
  intros Hd Hyx. destruct l as [|z l]; cbn; [constructor; exact Hyx|].
  destruct (cmp x z); constructor; try exact Hyx; inversion Hd; assumption.
Qed.

Lemma insert_by_sorted x l : Sorted R l -> Sorted R (insert_by cmp x l).
Proof.
  induction l as [|y l IH]; intros Hs; cbn; [repeat constructor|].
  inversion Hs as [|? ? Hs' Hd]; subst.
  destruct (cmp x y) eqn:E.
  - constructor; [apply IH, Hs'|]. apply insert_by_hdrel; [exact Hd|]. apply cmp_ge. congruence.
  - constructor; [exact Hs|]. constructor. apply cmp_lt, E.
  - constructor; [apply IH, Hs'|]. apply insert_by_hdrel; [exact Hd|]. apply cmp_ge. congruence.
Qed.

Lemma sort_by_sorted l : Sorted R (sort_by cmp l).
Proof.
  unfold sort_by. enough (H : forall acc, Sorted R acc ->
                            Sorted R (fold_left (fun acc x => insert_by cmp x acc) l acc))
    by (apply H; constructor).
  induction l as [|x l IH]; intros acc Hacc; [exact Hacc|]. apply IH, insert_by_sorted, Hacc.
Qed.
End InsertSorted.

Lemma created_order_sorted l :
  Sorted (fun a b => orow_created_at a <= orow_created_at b) (created_order l).
Proof.
  apply sort_by_sorted; intros x y H; cbv beta in *.
  - destruct (Z.compare_spec (orow_created_at x) (orow_created_at y)); [discriminate|lia|discriminate].
  - destruct (Z.compare_spec (orow_created_at x) (orow_created_at y)); [lia|congruence|lia].
Qed.

(** ** The Postgres outbox *)

Lemma zmem_In x l : zmem x l = true <-> In x l.
Proof.
  unfold zmem. rewrite existsb_exists. split.
  - intros [y [Hy E]]. apply Z.eqb_eq in E. subst. exact Hy.
  - intros H. exists x. split; [exact H|apply Z.eqb_refl].
Qed.

Lemma filter_split_perm {A} (p : A -> bool) (l : list A) :
  Permutation (List.filter p l ++ List.filter (fun x => negb (p x)) l) l.
Proof.
  induction l as [|x l IH]; [reflexivity|]. cbn.
  destruct (p x); cbn.
  - constructor. exact IH.
  - rewrite <- Permutation_middle. constructor. exact IH.
Qed.

Lemma filter_or_perm {A} (p q : A -> bool) (l : list A) :
  (forall x, In x l -> p x = true -> q x = false) ->
  Permutation (List.filter (fun x => p x || q x) l) (List.filter p l ++ List.filter q l).
Proof.
  induction l as [|x l IH]; intros H; [reflexivity|]. cbn.
  assert (IH' := IH (fun y Hy => H y (or_intror Hy))).
  destruct (p x) eqn:Ep; cbn.
  - rewrite (H x (or_introl eq_refl) Ep). constructor. exact IH'.
  - destruct (q x); cbn; [|exact IH'].
    rewrite <- Permutation_middle. constructor. exact IH'.
Qed.

Lemma NoDup_map_filter {A B} (f : A -> B) (p : A -> bool) (l : list A) :
  NoDup (map f l) -> NoDup (map f (List.filter p l)).
Proof.
  induction l as [|x l IH]; intros H; cbn; [constructor|].
  inversion H as [|? ? Hn Hd]; subst. destruct (p x); [|exact (IH Hd)].
  cbn. constructor; [|exact (IH Hd)].
  intros Hin. apply Hn. apply list_elem_of_In in Hin. apply in_map_iff in Hin as [y [<- Hy]].
  apply list_elem_of_In, in_map. apply filter_In in Hy as [Hy _]. exact Hy.
Qed.

Lemma NoDup_map_inj_in {A B} (f : A -> B) (l : list A) a b :
  NoDup (map f l) -> In a l -> In b l -> f a = f b -> a = b.
Proof.
  induction l as [|x l IH]; intros H Ha Hb E; [destruct Ha|].
  inversion H as [|? ? Hn Hd]; subst.
  destruct Ha as [<-|Ha], Hb as [<-|Hb]; [reflexivity| | |exact (IH Hd Ha Hb E)].
  - exfalso. apply Hn. rewrite E. apply list_elem_of_In, in_map, Hb.
  - exfalso. apply Hn. rewrite <- E. apply list_elem_of_In, in_map, Ha.
Qed.

Lemma take_lock_perm c ls l rest :
  take_lock c ls = Some (l, rest) -> Permutation ls (l :: rest) /\ lock_claimer l = c.
Proof.
  revert rest. induction ls as [|l0 ls IH]; intros rest; cbn; [discriminate|].
  destruct (Nat.eqb_spec (lock_claimer l0) c) as [E|E].
  - intros H. injection H as <- <-. split; [reflexivity|exact E].
  - destruct (take_lock c ls) as [[l' rest']|] eqn:Ht; [|discriminate].
    intros H. injection H as <- <-. destruct (IH rest' eq_refl) as [P Hc].
    split; [|exact Hc]. rewrite P. apply perm_swap.
Qed.

Lemma decode_row_kind r k : orow_kind r = outbox_kind_as_str k ->
  decode_row r = Ok {| ev_id := orow_id r; ev_tenant_id := orow_tenant_id r; ev_kind := k;
                       ev_payload := orow_payload r; ev_created_at := orow_created_at r;
                       ev_published_at := orow_published_at r |}.
Proof. intros E. unfold decode_row. rewrite E. destruct k; reflexivity. Qed.

Lemma decode_rows_ok rows :
  Forall kind_ok rows ->
  exists es, decode_rows rows = Ok es /\ map ev_id es = map orow_id rows
             /\ Forall2 (fun r e => ev_published_at e = orow_published_at r) rows es.
Proof.
  induction rows as [|r rows IH]; intros H; [exists []; repeat constructor|].
  inversion H as [|? ? [k Hk] Hr]; subst.
  destruct (IH Hr) as [es [E [Hi Hp]]].
  eexists. cbn. rewrite (decode_row_kind _ _ Hk), E. split; [reflexivity|].
  split; [cbn; f_equal; exact Hi|]. constructor; [reflexivity|exact Hp].
Qed.

Lemma strongly_sorted_app {A} (R : A -> A -> Prop) (F B : list A) a b :
  StronglySorted R (F ++ B) -> In a F -> In b B -> R a b.
Proof.
  induction F as [|x F IH]; intros Hs Ha Hb; [destruct Ha|].
  inversion Hs as [|? ? Hs' Hall]; subst. destruct Ha as [<-|Ha].
  - rewrite Forall_forall in Hall. apply Hall, elem_of_app. right.
    apply list_elem_of_In. exact Hb.
  - exact (IH Hs' Ha Hb).
Qed.

Lemma filter_map_comm {A B} (p : B -> bool) (g : A -> B) (l : list A) :
  List.filter p (map g l) = map g (List.filter (fun x => p (g x)) l).
Proof.
  induction l as [|x l IH]; cbn; [reflexivity|].
  destruct (p (g x)); cbn; rewrite IH; reflexivity.
Qed.

Lemma perm_concat_map {A B} (f : A -> list B) (l1 l2 : list A) :
  Permutation l1 l2 -> Permutation (concat (map f l1)) (concat (map f l2)).
Proof.
  induction 1; cbn.
  - reflexivity.
  - apply Permutation_app_head. assumption.
  - rewrite !app_assoc. apply Permutation_app_tail, Permutation_app_comm.
  - etransitivity; eassumption.
Qed.

Lemma locked_ids_take c st l rest :
  take_lock c (ob_locks st) = Some (l, rest) ->
  Permutation (locked_ids st) (lock_ids l ++ concat (map lock_ids rest)).
Proof.
  intros H. destruct (take_lock_perm _ _ _ _ H) as [P _]. unfold locked_ids.
  rewrite (perm_concat_map lock_ids _ _ P). reflexivity.
Qed.

Lemma Forall2_Forall {A B} (R : A -> B -> Prop) (P : A -> Prop) (Q : B -> Prop) l1 l2 :
  Forall2 R l1 l2 -> Forall P l1 -> (forall a b, R a b -> P a -> Q b) -> Forall Q l2.
Proof.
  induction 1; intros HP HQ; constructor; inversion HP; subst; eauto.
Qed.

Lemma Forall_perm {A} (P : A -> Prop) l1 l2 :
  Permutation l1 l2 -> Forall P l2 -> Forall P l1.
Proof.
  intros Hp H. apply Forall_forall. intros x Hx. rewrite Forall_forall in H. apply H.
  apply list_elem_of_In. apply list_elem_of_In in Hx.
  exact (Permutation_in _ Hp Hx).
Qed.

Lemma pg_returned_app r s e o :
  pg_returned {| pr_state := s; pr_enqueued := e; pr_results := pr_results r ++ [o] |}
  = pg_returned r ++ match o with Ok b => b | _ => [] end.
Proof. unfold pg_returned. cbn. rewrite map_app, concat_app. cbn. rewrite app_nil_r. reflexivity. Qed.

Section PgInv.
Variables (order ret : list OutboxRow -> list OutboxRow).
Hypothesis order_perm : forall l, Permutation (order l) l.
Hypothesis ret_perm : forall l, Permutation (ret l) l.

Lemma pg_inv_enqueue r t k p now :
  pg_ob_inv r -> pg_ob_inv (pg_outbox_step order ret r (PgEnqueue t k p now)).
Proof.
  intros (I1 & I2 & I3 & I4 & I5 & I6 & I7 & I8). cbn.
  set (n := ob_next_id (pr_state r)).
  assert (Hn : ~ In n (map orow_id (ob_rows (pr_state r)))).
  { intros Hin. apply in_map_iff in Hin as [x [Ex Hx]]. rewrite Forall_forall in I2.
    assert (H := I2 x ltac:(apply list_elem_of_In; exact Hx)). fold n in H. lia. }
  unfold pg_ob_inv. cbn. rewrite !map_app. split; [|split; [|split; [|split; [|split; [|split; [|split]]]]]].
  - rewrite I1. reflexivity.
  - apply Forall_app. split; [|constructor; [cbn; fold n; lia|constructor]].
    eapply Forall_impl; [exact I2|]. intros x Hx. cbn beta in Hx. fold n in Hx |- *. lia.
  - apply NoDup_app. split; [exact I3|]. split; [|apply NoDup_singleton].
    intros x Hx Hy. apply list_elem_of_singleton in Hy. subst x. apply Hn, list_elem_of_In, Hx.
  - apply Forall_app. split; [exact I4|]. constructor; [exists k; reflexivity|constructor].
  - exact I5.
  - rewrite List.filter_app. cbn. rewrite app_nil_r. exact I6.
  - exact I7.
  - intros i Hi. destruct (I8 i Hi) as [x [Hx Hxi]]. exists x. split; [|exact Hxi].
    apply in_or_app. left. exact Hx.
Qed.

Lemma takeable_spec st x :
  In x (takeable st) <->
  In x (ob_rows st) /\ orow_published_at x = None /\ ~ In (orow_id x) (locked_ids st).
Proof.
  unfold takeable. rewrite filter_In. destruct (orow_published_at x); [split; [intros [_ H]; discriminate|intros (_ & H & _); discriminate]|].
  rewrite negb_true_iff. split.
  - intros [Hx Hz]. split; [exact Hx|]. split; [reflexivity|]. intros Hin.
    apply zmem_In in Hin. congruence.
  - intros (Hx & _ & Hn). split; [exact Hx|]. destruct (zmem _ _) eqn:E; [|reflexivity].
    apply zmem_In in E. contradiction.
Qed.

Lemma pg_inv_start r c size now :
  pg_ob_inv r -> pg_ob_inv (pg_outbox_step order ret r (PgClaimStart c size now)).
Proof.
  intros (I1 & I2 & I3 & I4 & I5 & I6 & I7 & I8). cbn.
  set (st := pr_state r). fold st in I1, I2, I3, I4, I6, I7, I8.
  set (taken := firstn size (order (takeable st))).
  assert (Htk : forall x, In x taken -> In x (takeable st)).
  { intros x Hx. apply in_firstn in Hx. exact (Permutation_in _ (order_perm _) Hx). }
  assert (Hl : locked_ids (pg_claim_start order c size now st)
               = locked_ids st ++ map orow_id taken).
  { unfold locked_ids. cbn. rewrite map_app, concat_app. cbn. rewrite app_nil_r. reflexivity. }
  unfold pg_ob_inv. cbn [pr_state pr_enqueued pr_results].
  change (pg_returned _) with (pg_returned r).
  split; [exact I1|]. split; [exact I2|]. split; [exact I3|]. split; [exact I4|].
  split; [exact I5|]. split; [exact I6|]. rewrite Hl. split.
  - apply NoDup_app. split; [exact I7|]. split.
    + intros i Hi Hj. apply list_elem_of_In in Hi, Hj. apply in_map_iff in Hj as [x [<- Hx]].
      apply Htk, takeable_spec in Hx as (_ & _ & Hn). contradiction.
    + assert (Hnd : NoDup (map orow_id (order (takeable st)))).
      { rewrite (Permutation_map orow_id (order_perm (takeable st))).
        apply NoDup_map_filter, I3. }
      unfold taken. rewrite <- firstn_map.
      rewrite <- (firstn_skipn size (map orow_id (order (takeable st)))) in Hnd.
      apply NoDup_app in Hnd as [Hnd _]. exact Hnd.
  - intros i Hi. apply in_app_or in Hi as [Hi|Hi]; [exact (I8 i Hi)|].
    apply in_map_iff in Hi as [x [<- Hx]]. apply Htk, takeable_spec in Hx as (Hx & Hp & _).
    exists x. auto.
Qed.
End PgInv.

Lemma stamp_if_id (L : list Z) now x :
  orow_id (if zmem (orow_id x) L then stamp_row now x else x) = orow_id x.
Proof. destruct (zmem _ _); reflexivity. Qed.

Lemma stamp_if_kind (L : list Z) now x :
  orow_kind (if zmem (orow_id x) L then stamp_row now x else x) = orow_kind x.
Proof. destruct (zmem _ _); reflexivity. Qed.

Lemma stamp_if_pub (L : list Z) now x :
  is_pub (if zmem (orow_id x) L then stamp_row now x else x) = is_pub x || zmem (orow_id x) L.
Proof. destruct (zmem _ _); [rewrite orb_true_r; reflexivity|]. rewrite orb_false_r. reflexivity. Qed.

Lemma map_stamp_id (L : list Z) now (l : list OutboxRow) :
  map orow_id (map (fun x => if zmem (orow_id x) L then stamp_row now x else x) l) = map orow_id l.
Proof. rewrite map_map. apply map_ext. intros x. apply stamp_if_id. Qed.

Lemma filter_stamp (L : list Z) now (l : list OutboxRow) :
  List.filter (fun r => zmem (orow_id r) L)
    (map (fun x => if zmem (orow_id x) L then stamp_row now x else x) l)
  = map (stamp_row now) (List.filter (fun r => zmem (orow_id r) L) l).
Proof.
  induction l as [|x l IH]; [reflexivity|]. cbn.
  destruct (zmem (orow_id x) L) eqn:E; cbn; rewrite ?E, IH; reflexivity.
Qed.

Lemma pg_inv_locked_unpub r x :
  pg_ob_inv r -> In x (ob_rows (pr_state r)) -> In (orow_id x) (locked_ids (pr_state r)) ->
  orow_published_at x = None.
Proof.
  intros (_ & _ & I3 & _ & _ & _ & _ & I8) Hx Hi.
  destruct (I8 _ Hi) as [y (Hy & Eid & Hp)].
  rewrite <- (NoDup_map_inj_in _ _ _ _ I3 Hy Hx Eid). exact Hp.
Qed.

Lemma pg_inv_claimed_ids r c l rest :
  pg_ob_inv r -> take_lock c (ob_locks (pr_state r)) = Some (l, rest) ->
  Permutation (map orow_id (List.filter (fun x => zmem (orow_id x) (lock_ids l))
                                        (ob_rows (pr_state r))))
              (lock_ids l).
Proof.
  intros Hinv Ht. pose proof Hinv as (_ & _ & I3 & _ & _ & _ & I7 & I8).
  pose proof (locked_ids_take _ _ _ _ Ht) as P.
  assert (Hnd : NoDup (lock_ids l ++ concat (map lock_ids rest))) by (rewrite <- P; exact I7).
  apply NoDup_app in Hnd as [HndL _].
  apply NoDup_Permutation; [apply NoDup_map_filter, I3|exact HndL|].
  intros i. rewrite !list_elem_of_In. split.
  - intros Hi. apply in_map_iff in Hi as [x [<- Hx]]. apply filter_In in Hx as [_ Hz].
    apply zmem_In, Hz.
  - intros Hi. assert (HiL : In i (locked_ids (pr_state r))).
    { apply (Permutation_in _ (Permutation_sym P)). apply in_or_app. left. exact Hi. }
    destruct (I8 i HiL) as [x (Hx & <- & _)]. apply in_map, filter_In.
    split; [exact Hx|]. apply zmem_In, Hi.
Qed.

Section PgFinish.
Variables (order ret : list OutboxRow -> list OutboxRow).
Hypothesis ret_perm : forall l, Permutation (ret l) l.

Lemma pg_finish_ok r c l rest :
  pg_ob_inv r -> take_lock c (ob_locks (pr_state r)) = Some (l, rest) ->
  exists es st', pg_claim_finish ret c (pr_state r) = Some (Ok es, st')
     /\ map ev_id es = map orow_id (ret (map (stamp_row (lock_now l))
           (List.filter (fun x => zmem (orow_id x) (lock_ids l)) (ob_rows (pr_state r)))))
     /\ Permutation (map ev_id es) (lock_ids l)
     /\ Forall (fun e => ev_published_at e = Some (lock_now l)) es
     /\ ob_rows st' = map (fun x => if zmem (orow_id x) (lock_ids l)
                                    then stamp_row (lock_now l) x else x) (ob_rows (pr_state r))
     /\ ob_next_id st' = ob_next_id (pr_state r) /\ ob_locks st' = rest.
Proof.
  intros Hinv Ht. pose proof Hinv as (_ & _ & _ & I4 & _).
  set (B := ret (map (stamp_row (lock_now l))
                  (List.filter (fun x => zmem (orow_id x) (lock_ids l)) (ob_rows (pr_state r))))).
  assert (HB : Forall kind_ok B).
  { eapply Forall_perm; [apply ret_perm|]. apply Forall_forall. intros y Hy.
    apply list_elem_of_In, in_map_iff in Hy as [x [<- Hx]].
    apply filter_In in Hx as [Hx _]. rewrite Forall_forall in I4.
    destruct (I4 x ltac:(apply list_elem_of_In; exact Hx)) as [k Hk]. exists k. exact Hk. }
  destruct (decode_rows_ok B HB) as [es (Hd & Hid & Hp)].
  unfold pg_claim_finish. rewrite Ht, filter_stamp. fold B. rewrite Hd.
  do 2 eexists. split; [reflexivity|]. split; [exact Hid|]. split.
  - rewrite Hid. unfold B. rewrite (Permutation_map orow_id (ret_perm _)).
    rewrite map_map. cbn. exact (pg_inv_claimed_ids r c l rest Hinv Ht).
  - split; [|split; [reflexivity|split; reflexivity]].
    refine (Forall2_Forall _ (fun x => orow_published_at x = Some (lock_now l)) _ _ _ Hp _ _).
    + eapply Forall_perm; [apply ret_perm|]. apply Forall_forall. intros y Hy.
      apply list_elem_of_In, in_map_iff in Hy as [x [<- _]]. reflexivity.
    + intros a b E Ha. rewrite E. exact Ha.
Qed.

Lemma pg_inv_finish r c :
  pg_ob_inv r -> pg_ob_inv (pg_outbox_step order ret r (PgClaimFinish c)).
Proof.
  intros Hinv. cbn.
  destruct (take_lock c (ob_locks (pr_state r))) as [[l rest]|] eqn:Ht;
    [|unfold pg_claim_finish; rewrite Ht; exact Hinv].
  destruct (pg_finish_ok r c l rest Hinv Ht) as [es [st' (Hf & Hid & Hperm & _ & Hrows & Hnext & Hlocks)]].
  rewrite Hf. pose proof Hinv as (I1 & I2 & I3 & I4 & I5 & I6 & I7 & I8).
  pose proof (locked_ids_take _ _ _ _ Ht) as P.
  assert (Hnd : NoDup (lock_ids l ++ concat (map lock_ids rest))) by (rewrite <- P; exact I7).
  set (f := fun x => if zmem (orow_id x) (lock_ids l) then stamp_row (lock_now l) x else x).
  fold f in Hrows.
  unfold pg_ob_inv. cbn [pr_state pr_enqueued pr_results]. rewrite pg_returned_app.
  assert (Hids : map orow_id (ob_rows st') = map orow_id (ob_rows (pr_state r)))
    by (rewrite Hrows; apply map_stamp_id).
  assert (Hlk : locked_ids st' = concat (map lock_ids rest))
    by (unfold locked_ids; rewrite Hlocks; reflexivity).
  split; [rewrite Hids; exact I1|]. split.
  { rewrite Hrows, Hnext. apply Forall_map. eapply Forall_impl; [exact I2|].
    intros x Hx. cbn beta. unfold f. rewrite stamp_if_id. exact Hx. }
  split; [rewrite Hids; exact I3|]. split.
  { rewrite Hrows. apply Forall_map. eapply Forall_impl; [exact I4|].
    intros x [k Hk]. exists k. cbn beta. unfold f. rewrite stamp_if_kind. exact Hk. }
  split.
  { apply Forall_app. split; [exact I5|]. constructor; [eexists; reflexivity|constructor]. }
  split.
  { rewrite map_app, I6, Hrows, filter_map_comm, map_map.
    rewrite (map_ext (fun x => orow_id (f x)) orow_id)
      by (intros x; unfold f; apply stamp_if_id).
    rewrite (List.filter_ext (fun x => is_pub (f x))
               (fun x => is_pub x || zmem (orow_id x) (lock_ids l)))
      by (intros x; unfold f; apply stamp_if_pub).
    rewrite filter_or_perm, map_app.
    - apply Permutation_app_head. rewrite Hperm. symmetry.
      exact (pg_inv_claimed_ids r c l rest Hinv Ht).
    - intros x Hx Hpub. destruct (zmem _ _) eqn:E; [|reflexivity]. exfalso.
      apply zmem_In in E.
      assert (HL : In (orow_id x) (locked_ids (pr_state r))).
      { apply (Permutation_in _ (Permutation_sym P)). apply in_or_app. left. exact E. }
      pose proof (pg_inv_locked_unpub r x Hinv Hx HL) as Hn.
      unfold is_pub in Hpub. rewrite Hn in Hpub. discriminate. }
  rewrite Hlk. apply NoDup_app in Hnd as (HndL & Hdis & HndR). split; [exact HndR|].
  intros i Hi. assert (HL : In i (locked_ids (pr_state r))).
  { apply (Permutation_in _ (Permutation_sym P)). apply in_or_app. right. exact Hi. }
  destruct (I8 i HL) as [x (Hx & Ei & Hp)]. exists (f x).
  assert (Hfx : f x = x).
  { unfold f. destruct (zmem _ _) eqn:E; [|reflexivity]. exfalso.
    apply zmem_In in E. rewrite Ei in E.
    exact (Hdis i ltac:(apply list_elem_of_In; exact E) ltac:(apply list_elem_of_In; exact Hi)). }
  rewrite Hfx, Hrows. split; [|auto]. rewrite <- Hfx. apply in_map. exact Hx.
Qed.
End PgFinish.

Lemma pg_run_inv order ret calls :
  (forall l, Permutation (order l) l) -> (forall l, Permutation (ret l) l) ->
  pg_ob_inv (pg_run_outbox order ret calls).
Proof.
  intros Ho Hr. unfold pg_run_outbox.
  assert (H0 : pg_ob_inv pg_outbox_empty).
  { repeat split; cbn; try constructor; intros i []. }
  revert H0. generalize pg_outbox_empty.
  induction calls as [|c calls IH]; intros r Hinv; [exact Hinv|]. cbn. apply IH.
  destruct c; [apply pg_inv_enqueue|apply (pg_inv_start _ _ Ho)|apply (pg_inv_finish _ _ Hr)]; exact Hinv.
Qed.

Lemma pg_inv_partition r :
  pg_ob_inv r ->
  Permutation (map ev_id (pg_returned r) ++ locked_ids (pr_state r)
               ++ map orow_id (takeable (pr_state r)))
              (pr_enqueued r).
Proof.
  intros Hinv. pose proof Hinv as (I1 & I2 & I3 & I4 & I5 & I6 & I7 & I8).
  rewrite <- I1, I6. rewrite <- (filter_split_perm is_pub (ob_rows (pr_state r))) at 2.
  rewrite map_app. apply Permutation_app_head.
  apply NoDup_Permutation.
  - apply NoDup_app. split; [exact I7|]. split; [|apply NoDup_map_filter, I3].
    intros i Hi Hj. apply list_elem_of_In in Hi, Hj. apply in_map_iff in Hj as [x [<- Hx]].
    apply takeable_spec in Hx as (_ & _ & Hn). contradiction.
  - apply NoDup_map_filter, I3.
  - intros i. rewrite !list_elem_of_In. rewrite in_app_iff. split.
    + intros [Hi|Hi].
      * destruct (I8 i Hi) as [x (Hx & <- & Hp)]. apply in_map, filter_In.
        split; [exact Hx|]. unfold is_pub. rewrite Hp. reflexivity.
      * apply in_map_iff in Hi as [x [<- Hx]]. apply takeable_spec in Hx as (Hx & Hp & _).
        apply in_map, filter_In. split; [exact Hx|]. unfold is_pub. rewrite Hp. reflexivity.
    + intros Hi. apply in_map_iff in Hi as [x [<- Hx]]. apply filter_In in Hx as [Hx Hp].
      destruct (in_dec Z.eq_dec (orow_id x) (locked_ids (pr_state r))) as [HL|HL];
        [left; exact HL|right].
      apply in_map, takeable_spec. split; [exact Hx|]. split; [|exact HL].
      unfold is_pub in Hp. destruct (orow_published_at x); [discriminate|reflexivity].
Qed.

Lemma pg_claim_start_taken order c size now st :
  (forall l, Permutation (order l) l) ->
  (forall l, Sorted (fun a b => orow_created_at a <= orow_created_at b) (order l)) ->
  exists taken, ob_locks (pg_claim_start order c size now st)
                = ob_locks st ++ [Build_ClaimLock c now (map orow_id taken)]
    /\ (length taken <= size)%nat
    /\ (forall x, In x taken -> In x (takeable st))
    /\ (forall x y, In x taken -> In y (takeable st) -> ~ In y taken ->
          orow_created_at x <= orow_created_at y).
Proof.
  intros Hp Hs. exists (firstn size (order (takeable st))).
  split; [reflexivity|]. split; [apply firstn_le_length|]. split.
  - intros x Hx. apply in_firstn in Hx. exact (Permutation_in _ (Hp _) Hx).
  - intros x y Hx Hy Hn.
    assert (Hy' : In y (skipn size (order (takeable st)))).
    { apply (Permutation_in _ (Permutation_sym (Hp _))) in Hy.
      rewrite <- (firstn_skipn size) in Hy. apply in_app_or in Hy as [Hy|Hy];
        [contradiction|exact Hy]. }
    pose proof (Hs (takeable st)) as Hsort.
    apply Sorted_StronglySorted in Hsort; [|intros a b d; lia].
    rewrite <- (firstn_skipn size) in Hsort.
    exact (strongly_sorted_app _ _ _ _ _ Hsort Hx Hy').
Qed.



(* ================================================================== *)
(** * Further properties of the code                                   *)
(* ================================================================== *)

(** ** The dashboard *)

Lemma pop_back_firstn {A} n (L : list A) :
  (if Nat.eqb (length (firstn (S n) L)) (S n) then removelast (firstn (S n) L)
   else firstn (S n) L) = firstn n L.
Proof.
  destruct (Nat.lt_ge_cases n (length L)) as [H|H].
  - rewrite length_firstn, Nat.min_l by lia. rewrite Nat.eqb_refl.
    apply removelast_firstn, H.
  - rewrite !firstn_all2 by lia. destruct (Nat.eqb_spec (length L) (S n)); [lia|reflexivity].
Qed.

Lemma dashboard_history_fold calls d es :
  dash_history d = firstn MAX_HISTORY (rev es) ->
  dash_history (fold_left dashboard_step calls d)
  = firstn MAX_HISTORY (rev (fold_left (fun es c => match c with
                         | DClearHistory => []
                         | _ => match call_event c with Some e => es ++ [e] | None => es end
                         end) calls es)).
Proof.
  revert d es. induction calls as [|c calls IH]; intros d es H; [exact H|].
  cbn [fold_left]. apply IH.
  destruct c; cbn [dashboard_step call_event]; try reflexivity;
    unfold record_store, record_lookup, record_purge, push_history; cbn [dash_history];
    rewrite H, rev_app_distr; cbn [rev app]; unfold MAX_HISTORY;
    rewrite (pop_back_firstn 199); reflexivity.
Qed.

(** X1. The dashboard history is the events recorded since the last
    [clear_history], newest first, cut to the [MAX_HISTORY] = 200 newest;
    so it never holds more than 200 events. *)
Theorem dashboard_history_newest_first calls :
  dash_history (run_dashboard calls) = firstn MAX_HISTORY (rev (events_since_clear calls))
  /\ (length (dash_history (run_dashboard calls)) <= MAX_HISTORY)%nat.
Proof.
  assert (H : dash_history (run_dashboard calls)
              = firstn MAX_HISTORY (rev (events_since_clear calls)))
    by (apply dashboard_history_fold; reflexivity).
  split; [exact H|]. rewrite H. apply firstn_le_length.
Qed.

Lemma count_calls_cons p c calls :
  count_calls p (c :: calls) = (if p c then 1 else 0) + count_calls p calls.
Proof. unfold count_calls. cbn. destruct (p c); cbn [length]; lia. Qed.

Lemma metric_fold (sel : Metrics -> Z) (p : DashboardCall -> bool) :
  (forall d c, sel (dash_metrics (dashboard_step d c))
               = if p c then u64_incr (sel (dash_metrics d)) else sel (dash_metrics d)) ->
  forall calls d, 0 <= sel (dash_metrics d) < U64_MOD ->
    sel (dash_metrics (fold_left dashboard_step calls d))
    = (sel (dash_metrics d) + count_calls p calls) mod U64_MOD.
Proof.
  intros Hstep calls. induction calls as [|c calls IH]; intros d Hd.
  - cbn. rewrite Z.add_0_r, Z.mod_small by exact Hd. reflexivity.
  - cbn [fold_left]. rewrite IH.
    + rewrite Hstep, count_calls_cons. unfold u64_incr.
      destruct (p c); [|f_equal; lia].
      rewrite Z.add_mod_idemp_l by (unfold U64_MOD; lia). f_equal. lia.
    + rewrite Hstep. unfold u64_incr. destruct (p c); [|exact Hd].
      apply Z.mod_pos_bound. unfold U64_MOD. lia.
Qed.

Ltac dash_step := intros d c; destruct c as [? ? ? [|] ?|? ? [|] ?|? ? ?|]; reflexivity.

Lemma run_dashboard_counts calls :
  let m := dash_metrics (run_dashboard calls) in
  total_stores m = count_calls is_store calls mod U64_MOD
  /\ total_lookups m = count_calls is_lookup calls mod U64_MOD
  /\ cache_hits m = count_calls is_hit calls mod U64_MOD
  /\ cache_misses m = count_calls is_miss calls mod U64_MOD
  /\ total_purges m = count_calls is_purge calls mod U64_MOD.
Proof.
  assert (R : 0 <= 0 < U64_MOD) by (unfold U64_MOD; lia).
  unfold run_dashboard. cbn zeta.
  split; [|split; [|split; [|split]]];
    (erewrite metric_fold; [reflexivity|dash_step|exact R]).
Qed.

(** X2. After any sequence of dashboard calls from the default state,
    each counter is the number of calls of its kind, modulo 2^64 (the
    [u64] [+= 1] wraps in a release build): stores, lookups, lookups that
    hit, lookups that missed, and purges; a further [clear_history] leaves
    all the metrics as they were. *)
Theorem dashboard_counters calls :
  let m := dash_metrics (run_dashboard calls) in
  total_stores m = count_calls is_store calls mod U64_MOD
  /\ total_lookups m = count_calls is_lookup calls mod U64_MOD
  /\ cache_hits m = count_calls is_hit calls mod U64_MOD
  /\ cache_misses m = count_calls is_miss calls mod U64_MOD
  /\ total_purges m = count_calls is_purge calls mod U64_MOD
  /\ dash_metrics (run_dashboard (calls ++ [DClearHistory])) = m.
Proof.
  cbn zeta. destruct (run_dashboard_counts calls) as (H1 & H2 & H3 & H4 & H5).
  repeat split; try assumption.
  unfold run_dashboard. rewrite fold_left_app. reflexivity.
Qed.

(** ** Binary64 facts for the hit rate *)

Module F64Facts.
Import SpecFloat.

Lemma digits2_pos_size p : digits2_pos p = Pos.size p.
Proof. induction p; cbn; try rewrite IHp; reflexivity. Qed.

Lemma shr_1_m mrs : 0 <= shr_m mrs -> shr_m (shr_1 mrs) = shr_m mrs / 2.
Proof.
  destruct mrs as [m r s]; cbn. intros Hm.
  destruct m as [|[p|p|]|p]; cbn; try lia; try reflexivity.
  - rewrite Pos2Z.inj_xI. rewrite Z.add_comm, Z.mul_comm, Z.div_add by lia. reflexivity.
  - rewrite Pos2Z.inj_xO, Z.mul_comm, Z.div_mul by lia. reflexivity.
Qed.

Lemma iter_shr_m n : forall mrs, 0 <= shr_m mrs ->
  shr_m (iter_pos shr_1 n mrs) = shr_m mrs / 2 ^ Zpos n.
Proof.
  induction n as [n IH|n IH|]; intros mrs Hm; cbn [iter_pos].
  - assert (H1 : 0 <= shr_m (shr_1 mrs)) by (rewrite shr_1_m by lia; apply Z.div_pos; lia).
    assert (H2 : 0 <= shr_m (iter_pos shr_1 n (shr_1 mrs)))
      by (rewrite IH by lia; apply Z.div_pos; lia).
    rewrite IH, IH, shr_1_m by lia.
    rewrite !Z.div_div by lia. f_equal.
    replace (Zpos n~1) with (1 + Zpos n + Zpos n) by lia.
    rewrite !Z.pow_add_r, Z.pow_1_r by lia. lia.
  - assert (H2 : 0 <= shr_m (iter_pos shr_1 n mrs)) by (rewrite IH by lia; apply Z.div_pos; lia).
    rewrite IH, IH by lia. rewrite Z.div_div by lia. f_equal.
    replace (Zpos n~0) with (Zpos n + Zpos n) by lia.
    rewrite Z.pow_add_r by lia. reflexivity.
  - rewrite shr_1_m by lia. reflexivity.
Qed.

Lemma shr_record_of_loc_m m l : shr_m (shr_record_of_loc m l) = m.
Proof. destruct l as [|[]]; reflexivity. Qed.

Lemma shr_fexp_spec m e l : 0 <= m ->
  let n := Z.max 0 (fexp 53 1024 (Zdigits2 m + e) - e) in
  shr_m (fst (shr_fexp 53 1024 m e l)) = m / 2 ^ n
  /\ snd (shr_fexp 53 1024 m e l) = e + n.
Proof.
  intros Hm n. unfold shr_fexp, shr. subst n.
  destruct (fexp 53 1024 (Zdigits2 m + e) - e) as [|k|k] eqn:Ek; cbn [fst snd Z.max].
  - rewrite shr_record_of_loc_m, Z.div_1_r. split; [reflexivity|lia].
  - rewrite iter_shr_m; rewrite shr_record_of_loc_m; [split; reflexivity|exact Hm].
  - rewrite shr_record_of_loc_m, Z.div_1_r. split; [reflexivity|lia].
Qed.

Lemma round_nearest_even_bounds mx lx : mx <= round_nearest_even mx lx <= mx + 1.
Proof.
  destruct lx as [|[]]; cbn; try lia. destruct (Z.even mx); lia.
Qed.

Lemma round_aux_nonneg mx ex lx : 0 <= mx ->
  f64_nonneg (binary_round_aux 53 1024 false mx ex lx) = true.
Proof.
  intros Hm. unfold binary_round_aux.
  pose proof (shr_fexp_spec mx ex lx Hm) as [H1 _].
  destruct (shr_fexp 53 1024 mx ex lx) as [mrs' e'] eqn:E1. cbn [fst] in H1.
  assert (Hr : 0 <= round_nearest_even (shr_m mrs') (loc_of_shr_record mrs')).
  { pose proof (round_nearest_even_bounds (shr_m mrs') (loc_of_shr_record mrs')).
    rewrite H1 in *. pose proof (Z.div_pos mx (2 ^ Z.max 0 (fexp 53 1024 (Zdigits2 mx + ex) - ex)) Hm
      ltac:(apply Z.pow_pos_nonneg; lia)). lia. }
  pose proof (shr_fexp_spec _ e' loc_Exact Hr) as [H2 _].
  destruct (shr_fexp 53 1024 (round_nearest_even (shr_m mrs') (loc_of_shr_record mrs')) e' loc_Exact) as [mrs'' e''] eqn:E2. cbn [fst] in H2.
  assert (H3 : 0 <= shr_m mrs'') by (rewrite H2; apply Z.div_pos; [lia|apply Z.pow_pos_nonneg; lia]).
  destruct (shr_m mrs'') as [|p|p]; [reflexivity| |lia].
  destruct (e'' <=? 1024 - 53); reflexivity.
Qed.

Lemma Zdigits2_log2 m : 0 < m -> Zdigits2 m = Z.log2 m + 1.
Proof.
  intros Hm. destruct m as [|p|p]; try lia. cbn [Zdigits2]. rewrite digits2_pos_size.
  destruct p as [p|p|]; cbn [Z.log2 Pos.size]; lia.
Qed.

Lemma log2_bounds m : 0 < m -> 2 ^ Z.log2 m <= m < 2 ^ (Z.log2 m + 1).
Proof. intros Hm. pose proof (Z.log2_spec m Hm). rewrite <- Z.add_1_r in H. exact H. Qed.

Lemma round_aux_finite mx ex lx :
  2 ^ 52 <= mx -> -1000 <= ex -> Z.log2 mx + ex <= 900 ->
  exists m e, binary_round_aux 53 1024 false mx ex lx = S754_finite false m e.
Proof.
  intros Hm He Hl. unfold binary_round_aux.
  assert (Hm0 : 0 < mx) by lia.
  pose proof (log2_bounds mx Hm0) as [Lo Hi].
  assert (L52 : 52 <= Z.log2 mx).
  { rewrite <- (Z.log2_pow2 52) by lia. apply Z.log2_le_mono. lia. }
  pose proof (shr_fexp_spec mx ex lx ltac:(lia)) as [H1 He1].
  rewrite (Zdigits2_log2 mx Hm0) in H1, He1. unfold fexp, emin in H1, He1.
  destruct (shr_fexp 53 1024 mx ex lx) as [mrs' e'] eqn:E1. cbn [fst snd] in H1, He1.
  set (k := Z.max 0 (Z.max (Z.log2 mx + 1 + ex - 53) (3 - 1024 - 53) - ex)) in H1, He1.
  assert (Hk : k = Z.max 0 (Z.log2 mx - 52)) by (unfold k; lia).
  assert (Qlo : 2 ^ 52 <= shr_m mrs').
  { rewrite H1. apply Z.div_le_lower_bound; [apply Z.pow_pos_nonneg; lia|].
    rewrite <- Z.pow_add_r by lia. apply Z.le_trans with (2 ^ Z.log2 mx); [|exact Lo].
    apply Z.pow_le_mono_r; lia. }
  assert (Qhi : shr_m mrs' < 2 ^ 53).
  { rewrite H1. apply Z.div_lt_upper_bound; [apply Z.pow_pos_nonneg; lia|].
    rewrite <- Z.pow_add_r by lia. apply Z.lt_le_trans with (2 ^ (Z.log2 mx + 1)); [exact Hi|].
    apply Z.pow_le_mono_r; lia. }
  pose proof (round_nearest_even_bounds (shr_m mrs') (loc_of_shr_record mrs')) as Rb.
  remember (round_nearest_even (shr_m mrs') (loc_of_shr_record mrs')) as r eqn:Er.
  assert (Hr0 : 0 < r) by lia.
  pose proof (log2_bounds r Hr0) as [Lo' Hi'].
  assert (R52 : 52 <= Z.log2 r) by (rewrite <- (Z.log2_pow2 52) by lia; apply Z.log2_le_mono; lia).
  assert (R53 : Z.log2 r <= 53) by (rewrite <- (Z.log2_pow2 53) by lia; apply Z.log2_le_mono; lia).
  pose proof (shr_fexp_spec r e' loc_Exact ltac:(lia)) as [H2 He2].
  rewrite (Zdigits2_log2 r Hr0) in H2, He2. unfold fexp, emin in H2, He2.
  destruct (shr_fexp 53 1024 r e' loc_Exact) as [mrs'' e''] eqn:E2. cbn [fst snd] in H2, He2.
  set (k' := Z.max 0 (Z.max (Z.log2 r + 1 + e' - 53) (3 - 1024 - 53) - e')) in H2, He2.
  assert (Hk' : k' = Z.log2 r - 52) by (unfold k'; lia).
  assert (F0 : 0 < shr_m mrs'').
  { rewrite H2, Hk'. apply Z.div_str_pos. split; [apply Z.pow_pos_nonneg; lia|].
    apply Z.le_trans with (2 ^ Z.log2 r); [apply Z.pow_le_mono_r; lia|exact Lo']. }
  destruct (shr_m mrs'') as [|p|p]; try lia.
  assert (Ee : e'' <= 1024 - 53) by lia.
  apply Z.leb_le in Ee. rewrite Ee. eauto.
Qed.

Lemma iter_xO p k : Zpos (Pos.iter xO p k) = Zpos p * 2 ^ Zpos k.
Proof.
  induction k as [|k IH] using Pos.peano_ind.
  - cbn. lia.
  - rewrite Pos.iter_succ, Pos2Z.inj_succ, Z.pow_succ_r by lia.
    change (Zpos (Pos.iter xO p k)~0) with (2 * Zpos (Pos.iter xO p k)). rewrite IH. lia.
Qed.

Lemma u64_as_f64_finite n : 0 < n < 2 ^ 64 ->
  exists m e, u64_as_f64 n = S754_finite false m e.
Proof.
  intros Hn. destruct n as [|p|p]; try lia.
  unfold u64_as_f64, binary_normalize, binary_round, shl_align.
  pose proof (Zdigits2_log2 (Zpos p) ltac:(lia)) as Hd. cbn [Zdigits2] in Hd.
  rewrite Hd. unfold fexp, emin.
  pose proof (log2_bounds (Zpos p) ltac:(lia)) as [Lo Hi].
  assert (L63 : Z.log2 (Zpos p) < 64) by (apply Z.log2_lt_pow2; lia).
  pose proof (Z.log2_nonneg (Zpos p)).
  destruct (Z.max (Z.log2 (Zpos p) + 1 + 0 - 53) (3 - 1024 - 53) - 0) as [|k|k] eqn:Ek.
  - apply round_aux_finite.
    + apply Z.le_trans with (2 ^ Z.log2 (Zpos p)); [apply Z.pow_le_mono_r; lia|exact Lo].
    + lia.
    + lia.
  - apply round_aux_finite.
    + apply Z.le_trans with (2 ^ Z.log2 (Zpos p)); [apply Z.pow_le_mono_r; lia|exact Lo].
    + lia.
    + lia.
  - apply round_aux_finite.
    + rewrite iter_xO. replace (Zpos k) with (52 - Z.log2 (Zpos p)) by lia.
      apply Z.le_trans with (2 ^ Z.log2 (Zpos p) * 2 ^ (52 - Z.log2 (Zpos p))).
      * rewrite <- Z.pow_add_r by lia. apply Z.pow_le_mono_r; lia.
      * apply Z.mul_le_mono_nonneg_r; [apply Z.pow_nonneg; lia|exact Lo].
    + lia.
    + rewrite iter_xO, Z.log2_mul_pow2 by lia. lia.
Qed.

Lemma u64_as_f64_nonneg n : 0 <= n -> f64_nonneg (u64_as_f64 n) = true.
Proof.
  intros Hn. destruct n as [|p|p]; [reflexivity| |lia].
  unfold u64_as_f64, binary_normalize, binary_round.
  destruct (shl_align p 0 _) as [mz ez]. apply round_aux_nonneg. lia.
Qed.

Lemma f64_div_nonneg x m e :
  f64_nonneg x = true -> f64_nonneg (f64_div x (S754_finite false m e)) = true.
Proof.
  intros Hx. destruct x as [[]|[]| |[] mx ex]; try discriminate; try reflexivity.
  unfold f64_div, SFdiv, SFdiv_core_binary. cbn [xorb].
  set (m' := match _ with Zpos _ => _ | Z0 => _ | Zneg _ => _ end).
  assert (Hm' : 0 <= m').
  { unfold m'. destruct (_ - _ - _); [lia|apply Z.shiftl_nonneg; lia|lia]. }
  assert (Hq : Z.div_eucl m' (Zpos m) = (m' / Zpos m, m' mod Zpos m))
    by (unfold Z.div, Z.modulo; destruct (Z.div_eucl m' (Zpos m)); reflexivity).
  rewrite Hq. apply round_aux_nonneg. apply Z.div_pos; lia.
Qed.

Lemma f64_mul_100_nonneg x : f64_nonneg x = true -> f64_nonneg (f64_mul x f64_100) = true.
Proof.
  intros Hx. destruct x as [[]|[]| |[] mx ex]; try discriminate; try reflexivity.
  unfold f64_mul, SFmul. vm_compute (f64_100). apply round_aux_nonneg. lia.
Qed.

Lemma f64_nonneg_le x : f64_nonneg x = true -> f64_le f64_zero x = true.
Proof. destruct x as [[]|[]| |[] mx ex]; try discriminate; reflexivity. Qed.

Lemma hit_rate_nonneg h t : 0 <= h -> 0 < t < 2 ^ 64 ->
  f64_le f64_zero (f64_mul (f64_div (u64_as_f64 h) (u64_as_f64 t)) f64_100) = true.
Proof.
  intros Hh Ht. destruct (u64_as_f64_finite t Ht) as (m & e & Et). rewrite Et.
  apply f64_nonneg_le, f64_mul_100_nonneg, f64_div_nonneg, u64_as_f64_nonneg, Hh.
Qed.

Lemma hit_rate_no_hits t : 0 < t < 2 ^ 64 ->
  f64_mul (f64_div (u64_as_f64 0) (u64_as_f64 t)) f64_100 = f64_zero.
Proof.
  intros Ht. destruct (u64_as_f64_finite t Ht) as (m & e & Et). rewrite Et. reflexivity.
Qed.

Lemma hit_rate_all_hits t : 0 < t < 2 ^ 64 ->
  f64_mul (f64_div (u64_as_f64 t) (u64_as_f64 t)) f64_100 = f64_100.
Proof.
  intros Ht. destruct (u64_as_f64_finite t Ht) as (m & e & Et). rewrite Et.
  unfold f64_div, SFdiv, SFdiv_core_binary. cbn [xorb].
  replace (Zdigits2 (Zpos m) + e - (Zdigits2 (Zpos m) + e)) with 0 by lia.
  replace (e - e) with 0 by lia. cbn [fexp emin Z.max Z.min Z.sub Z.add Z.opp].
  change (fexp 53 1024 0) with (-53). cbn [Z.min].
  try change (- IntDef.Z.min (-53) 0) with 53; try change (IntDef.Z.min (-53) 0) with (-53);
    try change (0 - -53) with 53.
  cbv iota. rewrite Z.shiftl_mul_pow2 by lia.
  assert (Hq : Z.div_eucl (Zpos m * 2 ^ 53) (Zpos m) = (2 ^ 53, 0)).
  { transitivity ((Zpos m * 2 ^ 53) / Zpos m, (Zpos m * 2 ^ 53) mod Zpos m).
    - unfold Z.div, Z.modulo. destruct (Z.div_eucl _ _); reflexivity.
    - rewrite Z.mul_comm, Z.div_mul, Z.mod_mul by lia. reflexivity. }
  rewrite Hq.
  assert (Hl : new_location (Zpos m) 0 = loc_Exact)
    by (unfold new_location, new_location_even, new_location_odd; destruct (Z.even _); reflexivity).
  rewrite Hl. vm_compute. reflexivity.
Qed.

End F64Facts.

Lemma count_hit_miss calls :
  count_calls is_hit calls + count_calls is_miss calls = count_calls is_lookup calls.
Proof.
  induction calls as [|c calls IH]; [reflexivity|].
  rewrite !count_calls_cons. destruct c as [? ? ? ? ?|? ? [|] ?|? ? ?|]; cbn; lia.
Qed.

Lemma count_calls_nonneg p calls : 0 <= count_calls p calls.
Proof. unfold count_calls. lia. Qed.

(** X3. While fewer than 2^64 lookups were recorded, the hits and the
    misses add up to the lookups, and the overview's [hit_rate] is the
    binary64 value [(hits as f64 / lookups as f64) * 100.0]; it is [0.0]
    when there was no lookup or no hit, exactly [100.0] when every lookup
    hit, and never NaN or negative. *)
Theorem dashboard_hit_rate calls :
  count_calls is_lookup calls < U64_MOD ->
  let m := dash_metrics (run_dashboard calls) in
  let r := hit_rate (overview (run_dashboard calls)) in
  cache_hits m + cache_misses m = total_lookups m
  /\ (total_lookups m = 0 -> r = f64_zero)
  /\ (total_lookups m <> 0 ->
      r = f64_mul (f64_div (u64_as_f64 (cache_hits m)) (u64_as_f64 (total_lookups m))) f64_100)
  /\ (cache_hits m = 0 -> r = f64_zero)
  /\ (cache_misses m = 0 -> total_lookups m <> 0 -> r = f64_100)
  /\ f64_le f64_zero r = true.
Proof.
  intros Hlt m r. destruct (run_dashboard_counts calls) as (_ & Hl & Hh & Hm & _).
  fold m in Hl, Hh, Hm.
  pose proof (count_hit_miss calls) as Hc.
  pose proof (count_calls_nonneg is_hit calls) as Nh. pose proof (count_calls_nonneg is_miss calls) as Nm.
  rewrite Z.mod_small in Hl, Hh, Hm by lia.
  assert (Hsum : cache_hits m + cache_misses m = total_lookups m) by lia.
  assert (Htot : u64_add (cache_hits m) (cache_misses m) = total_lookups m)
    by (unfold u64_add; rewrite Hsum, Z.mod_small by lia; reflexivity).
  assert (Hr : r = if Z.eqb (total_lookups m) 0 then f64_zero
                   else f64_mul (f64_div (u64_as_f64 (cache_hits m))
                                         (u64_as_f64 (total_lookups m))) f64_100)
    by (unfold r, overview, compute_overview; fold m; cbn [hit_rate]; rewrite Htot; reflexivity).
  assert (Hb : total_lookups m <> 0 -> 0 < total_lookups m < 2 ^ 64)
    by (unfold U64_MOD in Hlt; lia).
  split; [exact Hsum|]. rewrite Hr.
  split; [|split; [|split; [|split]]].
  - intros Hz. rewrite Hz. reflexivity.
  - intros Hz. apply Z.eqb_neq in Hz. rewrite Hz. reflexivity.
  - intros H0. destruct (Z.eqb_spec (total_lookups m) 0) as [Hz|Hz]; [reflexivity|].
    rewrite H0. exact (F64Facts.hit_rate_no_hits _ (Hb Hz)).
  - intros H0 Hz. apply Z.eqb_neq in Hz as Hz'. rewrite Hz'.
    replace (cache_hits m) with (total_lookups m) by lia.
    exact (F64Facts.hit_rate_all_hits _ (Hb Hz)).
  - destruct (Z.eqb_spec (total_lookups m) 0) as [Hz|Hz]; [reflexivity|].
    exact (F64Facts.hit_rate_nonneg (cache_hits m) _ ltac:(lia) (Hb Hz)).
Qed.

Lemma dashboard_hit_rate_witness :
  let r := hit_rate (overview (run_dashboard
             [DRecordLookup 1 5 true 10; DRecordLookup 1 6 false 11; DRecordStore 1 "note" 5 true 12])) in
  f64_le f64_zero r = true /\ r = u64_as_f64 50.
Proof.
  split.
  - exact (proj2 (proj2 (proj2 (proj2 (proj2 (dashboard_hit_rate
      [DRecordLookup 1 5 true 10; DRecordLookup 1 6 false 11; DRecordStore 1 "note" 5 true 12]
      ltac:(vm_compute; reflexivity))))))).
  - vm_compute. reflexivity.
Defined.

(** ** The operations endpoints *)

Lemma upsert_outcome t n now (store : NodeStore) :
  fst (upsert t n now store)
  = match get t (id n) store with Some _ => Updated | None => Created end.
Proof. rewrite upsert_cases. destruct (get t (id n) store); reflexivity. Qed.

Lemma api_store_unfold cfg tid nid k p fresh t_new t_up t_dash ctx :
  let tenant := default (default_tenant_id cfg) tid in
  let node := Build_node (default fresh nid) tenant k p None None None t_new t_new in
  api_store cfg tid nid k p fresh t_new t_up t_dash ctx
  = let created := match fst (upsert tenant node t_up (ctx_store ctx)) with
                   | Created => true | Updated => false end in
    ({| resp_node_id := default fresh nid; resp_created := created |},
     {| ctx_store := snd (upsert tenant node t_up (ctx_store ctx));
        ctx_dash := record_store (ctx_dash ctx) tenant k (default fresh nid) created t_dash |}).
Proof.
  intros tenant node. unfold api_store. fold tenant.
  assert (Hn : match nid with
               | Some i => set_id (KnowledgeNode_new fresh tenant k p t_new) i
               | None => KnowledgeNode_new fresh tenant k p t_new end = node)
    by (destruct nid; reflexivity).
  rewrite Hn. destruct (upsert tenant node t_up (ctx_store ctx)) as [o s'].
  reflexivity.
Qed.

(** X4. Storing through [api_store] and then looking up the returned
    [node_id] with the same [tenant_id] finds the node: its id is the
    requested [node_id] (a fresh one if none was given), it belongs to the
    resolved tenant, carries the stored kind and payload with no vector,
    provenance or policy, was updated at the upsert's time and keeps the
    creation time of the node it replaced.  [created] is true exactly when
    the tenant had no node with that id, and the lookup is counted as a
    hit. *)
Theorem api_store_lookup_roundtrip cfg tid nid k p fresh t_new t_up t_dash t_dash' ctx :
  let tenant := default (default_tenant_id cfg) tid in
  let r := fst (api_store cfg tid nid k p fresh t_new t_up t_dash ctx) in
  let ctx1 := snd (api_store cfg tid nid k p fresh t_new t_up t_dash ctx) in
  let prev := get tenant (resp_node_id r) (ctx_store ctx) in
  resp_node_id r = default fresh nid
  /\ resp_created r = match prev with Some _ => false | None => true end
  /\ api_lookup cfg tid (resp_node_id r) t_dash' ctx1
     = ({| found := true;
           resp_node := Some (Build_node (resp_node_id r) tenant k p None None None
                                (match prev with Some e => created_at e | None => t_up end)
                                t_up) |},
        {| ctx_store := ctx_store ctx1;
           ctx_dash := record_lookup (ctx_dash ctx1) tenant (resp_node_id r) true t_dash' |}).
Proof.
  intros tenant r ctx1 prev. unfold prev, ctx1, r.
  rewrite api_store_unfold. cbn zeta. cbn [fst snd resp_node_id resp_created ctx_store ctx_dash].
  set (node := Build_node (default fresh nid) tenant k p None None None t_new t_new).
  split; [reflexivity|]. split.
  - rewrite upsert_outcome. unfold node. cbn [id Build_node]. fold tenant. destruct (get tenant (default fresh nid) (ctx_store ctx)); reflexivity.
  - unfold api_lookup. fold tenant.
    pose proof (get_upsert_same tenant node t_up (ctx_store ctx)) as Hs.
    change (id node) with (default fresh nid) in Hs. unfold node in Hs. cbn [ctx_store].
    rewrite Hs. reflexivity.
Qed.

(** X5. Over the in-memory node repository, [api_store] changes the
    answer of no other lookup: for any tenant and id other than the stored
    node's, [api_lookup] replies the same before and after the store.
    (The Postgres repository does not scope ids by tenant, so there a store
    can change another tenant's lookup of the same id.) *)
Theorem api_store_frame cfg tid nid k p fresh t_new t_up t_dash ctx tid' i t_dash' :
  let tenant := default (default_tenant_id cfg) tid in
  let tenant' := default (default_tenant_id cfg) tid' in
  let r := fst (api_store cfg tid nid k p fresh t_new t_up t_dash ctx) in
  (tenant' <> tenant \/ i <> resp_node_id r) ->
  fst (api_lookup cfg tid' i t_dash' (snd (api_store cfg tid nid k p fresh t_new t_up t_dash ctx)))
  = fst (api_lookup cfg tid' i t_dash' ctx).
Proof.
  intros tenant tenant' r Hne. unfold r in Hne.
  rewrite api_store_unfold in *. cbn zeta in *. cbn [fst snd resp_node_id ctx_store] in *.
  unfold api_lookup. fold tenant'. cbn [ctx_store].
  rewrite get_upsert_other by exact Hne. destruct (get tenant' i (ctx_store ctx)); reflexivity.
Qed.

Lemma api_store_frame_witness :
  let cfg := {| default_tenant_id := 1; scedge_event_bus_enabled := false; tenant_slugs := ∅ |} in
  let ctx := {| ctx_store := ∅; ctx_dash := DashboardData_default |} in
  fst (api_lookup cfg None 8 3 (snd (api_store cfg None (Some 7) "note" (VOther "x") 9 1 1 2 ctx)))
  = fst (api_lookup cfg None 8 3 ctx).
Proof.
  intros cfg ctx.
  apply (api_store_frame cfg None (Some 7) "note" (VOther "x") 9 1 1 2 ctx None 8 3).
  right. rewrite api_store_unfold. cbn. lia.
Defined.

(** ** The edge repository *)

Lemma run_links_lookup calls (s : EdgeStore) t :
  default [] (run_links calls s !! t)
  = default [] (s !! t) ++ map link_entry (List.filter (fun c => Z.eqb (l_tenant c) t) calls).
Proof.
  revert s. induction calls as [|c calls IH]; intros s.
  - cbn. rewrite app_nil_r. reflexivity.
  - unfold run_links in *. cbn [fold_left]. rewrite IH. cbn [List.filter].
    unfold link. destruct (Z.eqb_spec (l_tenant c) t) as [<-|Hne].
    + rewrite lookup_insert_eq. cbn. rewrite <- app_assoc. reflexivity.
    + rewrite lookup_insert_ne by congruence. reflexivity.
Qed.

Lemma neighbors_default t i rel hops limit fresh clock (store : EdgeStore) :
  neighbors t i rel hops limit fresh clock store
  = imap (fun k se => KnowledgeNode_new (fresh k) t (edge_rel (snd se))
                        (target_json (edge_dst (snd se))) (clock k))
      (firstn limit (List.filter (edge_selected i rel) (default [] (store !! t)))).
Proof.
  unfold neighbors. destruct (store !! t); cbn; [reflexivity|].
  rewrite firstn_nil. reflexivity.
Qed.

Lemma filter_filter_and {A} (p q : A -> bool) (l : list A) :
  List.filter q (List.filter p l) = List.filter (fun x => p x && q x) l.
Proof.
  induction l as [|x l IH]; cbn; [reflexivity|].
  destruct (p x); cbn; [destruct (q x); cbn|]; rewrite IH; reflexivity.
Qed.

Lemma imap_map_comm {A B C} (f : nat -> B -> C) (g : A -> B) (l : list A) :
  imap f (map g l) = imap (fun k x => f k (g x)) l.
Proof.
  revert f. induction l as [|x l IH]; intros f; cbn; [reflexivity|].
  f_equal. apply IH.
Qed.

(** X6. After a sequence of [link] calls on an empty edge repository,
    [neighbors tenant id rel hops limit] returns one node per selected
    edge: the first [limit] links of that tenant whose source is [id] and,
    if [rel] is given, whose relation is [rel], in the order they were
    linked.  The [k]-th node has a fresh id, the tenant, the edge's
    relation as its kind, [{"target": dst}] as its payload and no vector;
    [hops] has no effect and other tenants' links never show up. *)
Theorem neighbors_after_links calls t i rel hops limit fresh clock :
  neighbors t i rel hops limit fresh clock (run_links calls ∅)
  = imap (fun k c => KnowledgeNode_new (fresh k) t (l_rel c) (target_json (l_dst c)) (clock k))
      (firstn limit (List.filter (link_selected t i rel) calls)).
Proof.
  rewrite neighbors_default, run_links_lookup, lookup_empty. cbn [default app].
  rewrite filter_map_comm, filter_filter_and, firstn_map, imap_map_comm.
  f_equal. f_equal. apply filter_ext. intros c. unfold link_selected, edge_selected. cbn.
  destruct rel; rewrite ?andb_assoc; reflexivity.
Qed.

(** ** Parsing [TENANT_SLUGS] *)

Lemma split_on_cons_ne sep s :
  exists r rs, split_on sep s = r :: rs.
Proof.
  destruct s as [|y s]; cbn; [eauto|].
  destruct (Ascii.eqb y sep); [eauto|]. destruct (split_on sep s); eauto.
Qed.

Lemma string_app_empty s : ("" ++ s)%string = s.
Proof. reflexivity. Qed.

Lemma string_app_cons a s t : (String a s ++ t)%string = String a (s ++ t)%string.
Proof. reflexivity. Qed.

Lemma split_on_app sep x y :
  split_on sep (x ++ String sep y)%string = split_on sep x ++ split_on sep y.
Proof.
  induction x as [|z x IH].
  - rewrite string_app_empty. cbn -[Ascii.eqb]. rewrite Ascii.eqb_refl. reflexivity.
  - rewrite string_app_cons. cbn -[Ascii.eqb].
    rewrite IH. destruct (Ascii.eqb z sep); [reflexivity|].
    destruct (split_on_cons_ne sep x) as (r & rs & ->). reflexivity.
Qed.

Lemma split_on_nosep sep s :
  ~ In sep (list_ascii_of_string s) -> split_on sep s = [s].
Proof.
  induction s as [|z s IH]; cbn; intros Hn; [reflexivity|].
  rewrite IH by tauto. destruct (Ascii.eqb_spec z sep) as [->|]; [tauto|reflexivity].
Qed.

Lemma split_on_concat sep (l : list string) :
  l <> [] -> Forall (fun s => ~ In sep (list_ascii_of_string s)) l ->
  split_on sep (String.concat (String sep EmptyString) l) = l.
Proof.
  induction l as [|x l IH]; intros Hne Hf; [congruence|].
  inversion Hf as [|? ? Hx Hl]; subst.
  destruct l as [|y l].
  - cbn. apply split_on_nosep. exact Hx.
  - change (String.concat (String sep EmptyString) (x :: y :: l))
      with (x ++ String sep (String.concat (String sep EmptyString) (y :: l)))%string.
    rewrite split_on_app, IH by (congruence || exact Hl).
    rewrite split_on_nosep by exact Hx. reflexivity.
Qed.

Lemma list_ascii_of_string_app s t :
  list_ascii_of_string (s ++ t)%string = list_ascii_of_string s ++ list_ascii_of_string t.
Proof.
  induction s as [|a s IH]; [reflexivity|].
  rewrite string_app_cons. cbn. rewrite IH. reflexivity.
Qed.

Lemma find_no_prefix a l (encs : list (list ascii)) :
  forallb (fun e => match e with b :: _ => negb (Ascii.eqb b a) | [] => false end) encs = true ->
  List.find (fun e => is_prefix e (a :: l)) encs = None.
Proof.
  induction encs as [|e encs IH]; cbn; [reflexivity|].
  intros H. apply andb_prop in H as [He Hs].
  destruct e as [|b e]; [discriminate|]. cbn.
  apply negb_true_iff in He. rewrite He. cbn. apply IH. exact Hs.
Qed.

Lemma strip_no_prefix f encs a l :
  forallb (fun e => match e with b :: _ => negb (Ascii.eqb b a) | [] => false end) encs = true ->
  strip_prefixes f encs (a :: l) = a :: l.
Proof.
  intros H. destruct f; cbn; [reflexivity|]. rewrite find_no_prefix by exact H. reflexivity.
Qed.

(** a printable, non-space ASCII byte starts no whitespace encoding and
    ends none *)
Lemma printable_not_ws a :
  (Nat.leb 33 (nat_of_ascii a) && Nat.leb (nat_of_ascii a) 126)%bool = true ->
  forallb (fun e => match e with b :: _ => negb (Ascii.eqb b a) | [] => false end)
    ws_encodings = true
  /\ forallb (fun e => match e with b :: _ => negb (Ascii.eqb b a) | [] => false end)
       (map (@rev ascii) ws_encodings) = true.
Proof.
  destruct a as [[] [] [] [] [] [] [] []]; vm_compute; intros H;
    solve [discriminate H | split; reflexivity].
Qed.

Lemma plain_printable a :
  plain_byte a = true ->
  (Nat.leb 33 (nat_of_ascii a) && Nat.leb (nat_of_ascii a) 126)%bool = true.
Proof. unfold plain_byte. cbn zeta. intros H. apply andb_prop in H as [H _]. apply andb_prop in H as [H _]. exact H. Qed.

Lemma trim_bytes_keep a l z :
  (Nat.leb 33 (nat_of_ascii a) && Nat.leb (nat_of_ascii a) 126)%bool = true ->
  (Nat.leb 33 (nat_of_ascii z) && Nat.leb (nat_of_ascii z) 126)%bool = true ->
  (exists m, a :: l = m ++ [z]) ->
  trim_bytes (a :: l) = a :: l.
Proof.
  intros Ha Hz (m & Hm). unfold trim_bytes.
  rewrite strip_no_prefix by apply (proj1 (printable_not_ws a Ha)).
  rewrite Hm, rev_app_distr. cbn [rev app].
  rewrite strip_no_prefix by apply (proj2 (printable_not_ws z Hz)).
  cbn [rev app]. rewrite rev_involutive. reflexivity.
Qed.

Lemma plain_no_byte s c :
  plain s = true -> plain_byte c = false -> ~ In c (list_ascii_of_string s).
Proof.
  unfold plain. intros Hs Hc Hin. rewrite forallb_forall in Hs.
  specialize (Hs c Hin). congruence.
Qed.

Lemma plain_last s :
  plain s = true -> s <> EmptyString ->
  exists m z, list_ascii_of_string s = m ++ [z] /\ plain_byte z = true.
Proof.
  unfold plain. intros Hs Hne.
  destruct (list_ascii_of_string s) as [|a l] eqn:E.
  - destruct s; [congruence|discriminate].
  - destruct (exists_last (l := a :: l) ltac:(discriminate)) as (m & z & Hmz).
    exists m, z. split; [exact Hmz|].
    rewrite forallb_forall in Hs. apply Hs. rewrite Hmz. apply in_or_app. right. left. reflexivity.
Qed.

Lemma trim_entry s t :
  plain s = true -> s <> EmptyString -> plain t = true ->
  trim (s ++ "=" ++ t)%string = (s ++ "=" ++ t)%string.
Proof.
  intros Hs Hne Ht. unfold trim.
  rewrite !list_ascii_of_string_app.
  destruct s as [|a s']; [congruence|]. cbn [list_ascii_of_string app].
  assert (Ha : plain_byte a = true) by (unfold plain in Hs; cbn in Hs; apply andb_prop in Hs; tauto).
  assert (Hlast : exists m z, a :: list_ascii_of_string s' ++ "="%char :: list_ascii_of_string t
                              = m ++ [z]
                   /\ (Nat.leb 33 (nat_of_ascii z) && Nat.leb (nat_of_ascii z) 126)%bool = true).
  { destruct (string_dec t EmptyString) as [->|Htne].
    - exists (a :: list_ascii_of_string s'), "="%char. split; [|reflexivity].
      reflexivity.
    - destruct (plain_last t Ht Htne) as (m & z & Hm & Hz).
      exists (a :: list_ascii_of_string s' ++ "="%char :: m), z. split.
      + rewrite Hm. cbn [app]. rewrite <- app_assoc. reflexivity.
      + apply plain_printable. exact Hz. }
  destruct Hlast as (m & z & Hm & Hz).
  rewrite (trim_bytes_keep a _ z (plain_printable a Ha) Hz (ex_intro _ m Hm)).
  change (String a (string_of_list_ascii (list_ascii_of_string s' ++ "="%char :: list_ascii_of_string t))
          = String a (s' ++ "=" ++ t)%string).
  f_equal. rewrite <- (string_of_list_ascii_of_string (s' ++ "=" ++ t)).
  rewrite !list_ascii_of_string_app. reflexivity.
Qed.

Lemma slug_entry_pair parse_str m s t :
  plain s = true -> s <> EmptyString -> plain t = true ->
  slug_entry parse_str m (s ++ "=" ++ t)%string
  = match parse_str t with Some u => <[s := u]> m | None => m end.
Proof.
  intros Hs Hne Ht. unfold slug_entry. rewrite trim_entry by assumption.
  replace (String.eqb (s ++ "=" ++ t) EmptyString) with false
    by (destruct s; [congruence|reflexivity]).
  change ("=" ++ t)%string with (String "="%char t).
  rewrite split_on_app.
  rewrite (split_on_nosep _ s) by (apply plain_no_byte; [exact Hs|reflexivity]).
  rewrite (split_on_nosep _ t) by (apply plain_no_byte; [exact Ht|reflexivity]).
  cbn [app]. destruct (String.eqb_spec s EmptyString); [congruence|].
  reflexivity.
Qed.

Lemma slug_fold_lookup (parse_str : string -> option Uuid) (pairs : list (string * string))
    (m : gmap string Uuid) (slug : string) :
  fold_left (fun (m : gmap string Uuid) p => match parse_str (snd p) with Some u => <[fst p := u]> m | None => m end)
    pairs m !! slug
  = fold_left (fun acc p => if String.eqb (fst p) slug then
                              match parse_str (snd p) with Some u => Some u | None => acc end
                            else acc) pairs (m !! slug).
Proof.
  revert m. induction pairs as [|[s t] pairs IH]; intros m; cbn; [reflexivity|].
  rewrite IH. f_equal. cbn.
  destruct (String.eqb_spec s slug) as [->|Hne];
    destruct (parse_str t) as [u|]; try reflexivity.
  - apply lookup_insert_eq.
  - apply lookup_insert_ne. exact Hne.
Qed.

Lemma fold_left_map_comm {A B C} (f : A -> B -> A) (g : C -> B) (l : list C) a :
  fold_left f (map g l) a = fold_left (fun a x => f a (g x)) l a.
Proof. revert a. induction l as [|x l IH]; intros a; cbn; [reflexivity|]. apply IH. Qed.

Lemma fold_left_ext_in' {A B} (f g : A -> B -> A) (l : list B) a :
  (forall a x, In x l -> f a x = g a x) -> fold_left f l a = fold_left g l a.
Proof.
  revert a. induction l as [|x l IH]; intros a H; cbn; [reflexivity|].
  rewrite H by (left; reflexivity). apply IH. intros; apply H; right; assumption.
Qed.

Lemma slug_map_lookup parse_str pairs :
  Forall (fun p => plain (fst p) = true /\ fst p <> EmptyString /\ plain (snd p) = true) pairs ->
  forall slug,
    parse_slug_map parse_str (Some (slug_source pairs)) !! slug = slug_lookup parse_str pairs slug.
Proof.
  intros Hf slug. unfold parse_slug_map, slug_lookup.
  destruct pairs as [|p0 ps] eqn:Ep.
  - reflexivity.
  - rewrite <- Ep in *. unfold slug_source.
    rewrite split_on_concat.
    2: { rewrite Ep. discriminate. }
    2: { apply Forall_map. eapply Forall_impl; [exact Hf|].
         intros [s t] (Hs & _ & Ht). cbn [fst snd]. rewrite list_ascii_of_string_app.
         cbn. rewrite in_app_iff. intros [H|[H|H]].
         - revert H. apply plain_no_byte; [exact Hs|reflexivity].
         - discriminate H.
         - revert H. apply plain_no_byte; [exact Ht|reflexivity]. }
    rewrite fold_left_map_comm.
    rewrite (fold_left_ext_in' _ (fun (m : gmap string Uuid) p => match parse_str (snd p) with
                                            | Some u => <[fst p := u]> m | None => m end)).
    + rewrite slug_fold_lookup. reflexivity.
    + intros m [s t] Hin. rewrite Forall_forall in Hf.
      destruct (Hf (s, t) (proj2 (list_elem_of_In _ _) Hin)) as (Hs & Hne & Ht).
      apply slug_entry_pair; assumption.
Qed.

(** X8. For [TENANT_SLUGS] written as comma-separated [slug=text] entries
    whose slugs are non-empty and whose slugs and texts are printable
    ASCII without spaces, [','] or ['='], [parse_slug_map] maps each slug
    to the uuid of the last entry for it whose text [Uuid::parse_str]
    accepts; entries whose text it rejects are dropped, and slugs with no
    accepted entry are absent. *)
Theorem parse_slug_map_roundtrip parse_str pairs :
  Forall (fun p => plain (fst p) = true /\ fst p <> EmptyString /\ plain (snd p) = true) pairs ->
  forall slug,
    parse_slug_map parse_str (Some (slug_source pairs)) !! slug = slug_lookup parse_str pairs slug.
Proof. exact (slug_map_lookup parse_str pairs). Qed.

Lemma parse_slug_map_roundtrip_witness :
  let parse s := if String.eqb s "00000000-0000-0000-0000-000000000005" then Some 5 else None in
  parse_slug_map parse
    (Some (slug_source [("acme", "00000000-0000-0000-0000-000000000005"); ("beta", "bad");
                        ("acme", "bad")])) !! "acme"
  = slug_lookup parse [("acme", "00000000-0000-0000-0000-000000000005"); ("beta", "bad");
                       ("acme", "bad")] "acme".
Proof.
  intros parse.
  apply parse_slug_map_roundtrip.
  repeat (apply Forall_cons || apply Forall_nil || split); vm_compute;
    (reflexivity || discriminate).
Defined.

Lemma strip_prefixes_in f encs l x :
  In x (strip_prefixes f encs l) -> In x l.
Proof.
  revert l. induction f as [|f IH]; intros l; cbn; [tauto|].
  destruct (List.find _ encs); [|tauto].
  intros H. apply IH in H. eapply in_skipn. exact H.
Qed.

Lemma trim_in s x :
  In x (list_ascii_of_string (trim s)) -> In x (list_ascii_of_string s).
Proof.
  unfold trim, trim_bytes. rewrite list_ascii_of_string_of_list_ascii. cbn zeta.
  intros H. apply in_rev in H. apply strip_prefixes_in in H. rewrite <- in_rev in H.
  apply strip_prefixes_in in H. exact H.
Qed.

Lemma slug_entry_skip parse_str m e :
  (~ In "="%char (list_ascii_of_string e) \/ String.prefix "=" (trim e) = true) ->
  slug_entry parse_str m e = m.
Proof.
  intros He. unfold slug_entry.
  destruct (String.eqb_spec (trim e) EmptyString) as [|Hne]; [reflexivity|].
  destruct He as [He|He].
  - rewrite split_on_nosep by (intros H; apply He, trim_in, H).
    destruct (String.eqb (trim e) EmptyString); reflexivity.
  - destruct (trim e) as [|c r]; [congruence|].
    revert He. unfold String.prefix.
    destruct (Ascii.ascii_dec "="%char c) as [<-|Hc]; intros He; [|discriminate He].
    cbn -[Ascii.eqb]. rewrite Ascii.eqb_refl. reflexivity.
Qed.

Lemma slug_entry_blank parse_str m : slug_entry parse_str m EmptyString = m.
Proof. reflexivity. Qed.

(** folding [slug_entry] over the entries of comma-joined parts is folding
    it over the entries of each part in turn *)
Lemma slug_fold_concat parse_str (l : list string) m :
  fold_left (slug_entry parse_str) (split_on ","%char (String.concat "," l)) m
  = fold_left (fun m s => fold_left (slug_entry parse_str) (split_on ","%char s) m) l m.
Proof.
  revert m. induction l as [|x l IH]; intros m; [reflexivity|].
  destruct l as [|y l].
  - cbn [String.concat fold_left]. reflexivity.
  - change (String.concat "," (x :: y :: l)) with (x ++ String ","%char (String.concat "," (y :: l)))%string.
    rewrite split_on_app, fold_left_app, IH. reflexivity.
Qed.

(** X7. An entry of [TENANT_SLUGS] that has no comma and, once trimmed,
    has no ['='] or starts with ['='] (an empty or blank entry, a bare
    slug, or an empty slug) is skipped, wherever it stands: removing it
    from the comma-separated entries leaves the map unchanged. *)
Theorem parse_slug_map_skip parse_str l1 e l2 :
  ~ In ","%char (list_ascii_of_string e) ->
  (~ In "="%char (list_ascii_of_string e) \/ String.prefix "=" (trim e) = true) ->
  parse_slug_map parse_str (Some (String.concat "," (l1 ++ e :: l2)))
  = parse_slug_map parse_str (Some (String.concat "," (l1 ++ l2))).
Proof.
  intros Hc He. unfold parse_slug_map. rewrite !slug_fold_concat, !fold_left_app.
  cbn [fold_left]. rewrite (split_on_nosep _ e Hc). cbn [fold_left].
  rewrite slug_entry_skip by exact He. reflexivity.
Qed.

Lemma parse_slug_map_skip_witness :
  parse_slug_map (fun _ => Some 1) (Some ("  beta ,a=x,b=y")%string)
  = parse_slug_map (fun _ => Some 1) (Some ("a=x,b=y")%string).
Proof.
  refine (parse_slug_map_skip (fun _ => Some 1) [] "  beta " ["a=x"; "b=y"] _ _).
  - intros H; vm_compute in H; repeat (destruct H as [H|H]; [discriminate H|]); exact H.
  - left. intros H; vm_compute in H; repeat (destruct H as [H|H]; [discriminate H|]); exact H.
Defined.

(** ** Reading a capsule back from a node *)

Lemma uuid_to_string_nonempty u : uuid_to_string u <> EmptyString.
Proof.
  unfold uuid_to_string. cbn zeta.
  destruct (firstn 8 (hex_digits 32 u)); cbn; discriminate.
Qed.

(** the shape of every capsule [from_node] returns *)
Lemma from_node_shape n now r :
  from_node n now = Ok r ->
  pol_tenant (policy (resp_artifact r)) <> EmptyString
  /\ hash (resp_artifact r) <> EmptyString
  /\ provenance (resp_artifact r) <> []
  /\ (resp_expires_at r = None <-> ttl_seconds (resp_artifact r) = None)
  /\ (resp_expires_at r = None <-> resp_ttl_remaining_seconds r = None)
  /\ (forall s, resp_ttl_remaining_seconds r = Some s -> 0 <= s).
Proof.
  intros H. unfold from_node in H.
  destruct (capsule_from_value (payload_json n)) as [c|]; [|discriminate H].
  cbv zeta in H.
  set (a1 := ensure_defaults (artifact c)) in H.
  set (a2 := if is_empty (pol_tenant (policy a1)) then set_policy_tenant a1 "default" else a1) in H.
  set (a3 := if is_empty (hash a2) then set_hash a2 (uuid_to_string (id n)) else a2) in H.
  assert (Ha3 : pol_tenant (policy a3) <> EmptyString /\ hash a3 <> EmptyString
                /\ provenance a3 <> []).
  { assert (Hp1 : provenance a1 <> []).
    { unfold a1, ensure_defaults. destruct (provenance (artifact c)) eqn:E; cbn;
        [discriminate|rewrite E; discriminate]. }
    assert (Ht2 : pol_tenant (policy a2) <> EmptyString /\ provenance a2 <> []).
    { unfold a2. unfold is_empty. destruct (String.eqb_spec (pol_tenant (policy a1)) "").
      - cbn. split; [discriminate|exact Hp1].
      - split; assumption. }
    unfold a3, is_empty. destruct (String.eqb_spec (hash a2) "").
    - cbn. split; [tauto|split; [apply uuid_to_string_nonempty|tauto]].
    - tauto. }
  clearbody a3. clear a2 a1.
  destruct Ha3 as (Ht & Hh & Hp).
  destruct (ttl_seconds a3) as [t|] eqn:Et; destruct (expires_at c) as [e|] eqn:Ee;
    cbn in H; rewrite ?Et in H; cbn in H.
  - injection H as <-. cbn.
    split; [exact Ht|]. split; [exact Hh|]. split; [exact Hp|].
    split; [split; intros; congruence|]. split; [split; intros; congruence|].
    intros s Hs. injection Hs as <-. lia.
  - destruct (duration_seconds t) as [d| |]; cbn in H; try discriminate H.
    destruct (datetime_add (updated_at n) d) as [e'| |]; cbn in H; try discriminate H.
    injection H as <-. cbn.
    split; [exact Ht|]. split; [exact Hh|]. split; [exact Hp|].
    split; [split; intros; congruence|]. split; [split; intros; congruence|].
    intros s Hs. injection Hs as <-. lia.
  - injection H as <-. cbn.
    split; [exact Ht|]. split; [exact Hh|]. split; [exact Hp|].
    split; [split; intros; congruence|]. split; [split; intros; congruence|].
    intros s Hs. injection Hs as <-. lia.
  - injection H as <-. cbn.
    split; [exact Ht|]. split; [exact Hh|]. split; [exact Hp|].
    split; [split; intros; congruence|]. split; [split; intros; congruence|].
    intros s Hs. discriminate Hs.
Qed.

(** X9. Whenever [CapsuleLookupResponse::from_node] succeeds, the capsule
    it returns has a non-empty policy tenant, a non-empty hash and at least
    one provenance entry; [expires_at] and [ttl_seconds] are either both
    set or both absent, [ttl_remaining_seconds] is set exactly when
    [expires_at] is, and is never negative. *)
Theorem from_node_ok_shape n now r :
  from_node n now = Ok r ->
  pol_tenant (policy (resp_artifact r)) <> EmptyString
  /\ hash (resp_artifact r) <> EmptyString
  /\ provenance (resp_artifact r) <> []
  /\ (resp_expires_at r = None <-> ttl_seconds (resp_artifact r) = None)
  /\ (resp_expires_at r = None <-> resp_ttl_remaining_seconds r = None)
  /\ (forall s, resp_ttl_remaining_seconds r = Some s -> 0 <= s).
Proof. exact (from_node_shape n now r). Qed.

Lemma from_node_ok_shape_witness :
  let node := Build_node 3 1 "capsule" (VCapsule (sample_request "k" "" (Some 60) None))
                None None None 0 0 in
  exists r, from_node node 5 = Ok r /\ hash (resp_artifact r) <> EmptyString.
Proof.
  intros node.
  destruct (from_node node 5) as [r| |] eqn:Hf; [|vm_compute in Hf; discriminate Hf..].
  exists r. split; [reflexivity|].
  exact (proj1 (proj2 (from_node_ok_shape node 5 r Hf))).
Defined.

(** ** Looking a capsule up over HTTP *)

(** X10. When [api_capsule_lookup] answers with a capsule, that capsule
    is [from_node] of the node [get_by_key] found under the resolved
    tenant, its policy tenant is never empty, and if the query named a
    [tenant] the policy tenant is exactly that name. *)
Theorem api_capsule_lookup_found get_by_key cfg qkey qtenant now store c :
  api_capsule_lookup get_by_key cfg qkey qtenant now store = Ok (LookupFound c) ->
  (exists node, get_by_key (resolve_tenant cfg qtenant) qkey store = Ok (Some node)
                /\ from_node node now = Ok c)
  /\ pol_tenant (policy (resp_artifact c)) <> EmptyString
  /\ (forall t, qtenant = Some t -> pol_tenant (policy (resp_artifact c)) = t).
Proof.
  unfold api_capsule_lookup. cbv zeta.
  destruct (get_by_key (resolve_tenant cfg qtenant) qkey store) as [[node|]| |]; try discriminate.
  destruct (from_node node now) as [c'| |] eqn:Hf; try discriminate.
  pose proof (proj1 (from_node_shape _ _ _ Hf)) as Hne.
  destruct qtenant as [expected|].
  - destruct (String.eqb_spec (pol_tenant (policy (resp_artifact c'))) expected) as [He|He];
      cbn; intros H; try discriminate H.
    injection H as <-. split; [eauto|]. split; [exact Hne|].
    intros t Ht. injection Ht as <-. exact He.
  - intros H. injection H as <-. split; [eauto|]. split; [exact Hne|]. discriminate.
Qed.

Lemma api_capsule_lookup_found_witness :
  let node := Build_node 3 1 "capsule" (VCapsule (sample_request "k" "h" (Some 60) None))
                None None None 0 0 in
  pol_tenant (policy (resp_artifact
    (match api_capsule_lookup (fun _ _ _ => Ok (Some node)) cfg_bus "k" (Some "acme") 5 ∅ with
     | Ok (LookupFound c) => c
     | _ => {| resp_key := ""; resp_artifact := sample_artifact "" "" None;
               resp_expires_at := None; resp_ttl_remaining_seconds := None |}
     end))) = "acme".
Proof.
  intros node.
  exact (proj2 (proj2 (api_capsule_lookup_found (fun _ _ _ => Ok (Some node)) cfg_bus "k" (Some "acme") 5 ∅
           _ ltac:(vm_compute; reflexivity))) "acme" eq_refl).
Defined.

(** ** The outbox kind column *)

(** X11. The Postgres [claim_batch] decodes exactly the texts [enqueue]
    writes: a text decodes to a kind if and only if it is that kind's
    [as_str], so a kind survives the round trip through the [kind]
    column and any other text is rejected with an error. *)
Theorem outbox_kind_decode_iff s k :
  decode_outbox_kind s = Ok k <-> s = outbox_kind_as_str k.
Proof.
  unfold decode_outbox_kind.
  destruct (String.eqb_spec s "UPSERT") as [->|H1];
    [destruct k; cbn; split; congruence|].
  destruct (String.eqb_spec s "SUPERSEDED_BY") as [->|H2];
    [destruct k; cbn; split; congruence|].
  destruct (String.eqb_spec s "REVOKE_CAPSULE") as [->|H3];
    [destruct k; cbn; split; congruence|].
  split; [discriminate|]. intros ->. destruct k; cbn in *; congruence.
Qed.

(** ** The gRPC [upsert_node] *)

Lemma parse_payload_err json_from_str raw st :
  parse_payload json_from_str raw = inl st <->
  (trim raw <> EmptyString /\ exists e, json_from_str raw = inr e
                                        /\ st = InvalidArgument ("payload_json is not valid JSON: " ++ e)).
Proof.
  unfold parse_payload.
  destruct (String.eqb_spec (trim raw) EmptyString) as [He|Hne].
  - split; [discriminate|]. intros [H _]. contradiction.
  - destruct (json_from_str raw) as [v|e].
    + split; [discriminate|]. intros [_ (e & He & _)]. discriminate He.
    + split.
      * intros H. injection H as <-. split; [exact Hne|]. exists e. split; reflexivity.
      * intros [_ (e' & He & ->)]. injection He as <-. reflexivity.
Qed.

(** X12. The gRPC [upsert_node], over any node repository, answers
    [InvalidArgument] exactly when the payload is not blank and not valid
    JSON, or the [node_id] is not empty and not a uuid, and then leaves
    the store and the dashboard untouched; it answers [Internal "failed to
    persist node"] exactly when both are valid and the repository's
    [upsert] of the node fails, and then leaves the dashboard untouched. *)
Theorem upsert_node_rejects {S : Type} parse_str json_from_str
    (repo_upsert : Uuid -> KnowledgeNode -> S -> (UpsertOutcome + string) * S)
    cfg node_id k payload fresh t_new t_dash (store : S) dash :
  let r := upsert_node_with parse_str json_from_str repo_upsert cfg node_id k payload
             fresh t_new t_dash store dash in
  ((exists msg, fst r = inl (InvalidArgument msg)) <->
   ((trim payload <> EmptyString /\ exists e, json_from_str payload = inr e)
    \/ (node_id <> EmptyString /\ parse_str node_id = None)))
  /\ ((exists msg, fst r = inl (Internal msg)) <->
      exists v nid e s', parse_payload json_from_str payload = inr v
        /\ (if String.eqb node_id EmptyString then nid = fresh else parse_str node_id = Some nid)
        /\ repo_upsert (default_tenant_id cfg)
             (set_id (KnowledgeNode_new fresh (default_tenant_id cfg) k v t_new) nid) store
           = (inr e, s'))
  /\ (forall msg, fst r = inl (InvalidArgument msg) -> snd r = (store, dash))
  /\ (forall msg, fst r = inl (Internal msg) ->
        msg = "failed to persist node" /\ snd (snd r) = dash).
Proof.
  intros r. unfold r, upsert_node_with.
  destruct (parse_payload json_from_str payload) as [st|v] eqn:Hp.
  - pose proof Hp as Hp'. apply parse_payload_err in Hp' as (Hne & e & He & ->). cbn.
    split; [|split; [|split]].
    + split; [intros _; left; split; [exact Hne|exists e; exact He]|intros _; eauto].
    + split; [intros (msg & H); discriminate H|].
      intros (v & _ & _ & _ & Hv & _). discriminate Hv.
    + intros msg _. reflexivity.
    + intros msg H. discriminate H.
  - assert (Hj : ~ (trim payload <> EmptyString /\ exists e, json_from_str payload = inr e)).
    { intros (Hne & e & He). unfold parse_payload in Hp.
      destruct (String.eqb_spec (trim payload) EmptyString); [contradiction|].
      rewrite He in Hp. discriminate Hp. }
    cbn [id KnowledgeNode_new Build_node].
    destruct (if String.eqb node_id EmptyString then Some fresh else parse_str node_id)
      as [nid|] eqn:Hn.
    + assert (Hnid : if String.eqb node_id EmptyString then nid = fresh
                     else parse_str node_id = Some nid).
      { destruct (String.eqb node_id EmptyString); [injection Hn as <-; reflexivity|exact Hn]. }
      assert (Hok : ~ (node_id <> EmptyString /\ parse_str node_id = None)).
      { intros (Hne & Hnone). apply String.eqb_neq in Hne. rewrite Hne in Hn.
        rewrite Hn in Hnone. discriminate. }
      destruct (repo_upsert (default_tenant_id cfg)
                  (set_id (KnowledgeNode_new fresh (default_tenant_id cfg) k v t_new) nid) store)
        as [[o|e] s'] eqn:Hu; cbn.
      * split; [|split; [|split]].
        -- split; [intros (msg & H); discriminate H|]. intros [H|H]; contradiction.
        -- split; [intros (msg & H); discriminate H|].
           intros (v' & nid' & e & s'' & Hv & Hn' & Hu').
           injection Hv as <-.
           assert (nid' = nid).
           { destruct (String.eqb node_id EmptyString); [congruence|congruence]. }
           subst nid'. rewrite Hu in Hu'. discriminate Hu'.
        -- intros msg H. discriminate H.
        -- intros msg H. discriminate H.
      * split; [|split; [|split]].
        -- split; [intros (msg & H); discriminate H|]. intros [H|H]; contradiction.
        -- split; [intros _; exists v, nid, e, s'; auto|intros _; eauto].
        -- intros msg H. discriminate H.
        -- intros msg H. injection H as <-. split; reflexivity.
    + cbn. split; [|split; [|split]].
      * split; [intros _|intros _; eauto]. right.
        destruct (String.eqb_spec node_id EmptyString); [discriminate Hn|].
        split; assumption.
      * split; [intros (msg & H); discriminate H|].
        intros (v' & nid' & e & s'' & Hv & Hn' & _).
        destruct (String.eqb node_id EmptyString); [discriminate Hn|congruence].
      * intros msg _. reflexivity.
      * intros msg H. discriminate H.
Qed.

(** X13. When the gRPC [upsert_node] succeeds, the [node_id] it answers
    is the text of a uuid: the fresh one when the request's [node_id] is
    empty, the parsed one otherwise.  An HTTP [api_lookup] of that uuid
    without a [tenant_id] then finds the node under the default tenant,
    with the requested kind, the parsed payload ([null] for a blank one),
    no vector, provenance or policy, updated at the upsert's time and
    created then unless it replaced a node. *)
Theorem upsert_node_then_lookup parse_str json_from_str cfg node_id k payload
    fresh t_new t_up t_dash t_dash' ctx resp :
  let r := upsert_node parse_str json_from_str cfg node_id k payload fresh t_new t_up t_dash ctx in
  fst r = inr resp ->
  exists nid v,
    un_node_id resp = uuid_to_string nid
    /\ (if String.eqb node_id EmptyString then nid = fresh else parse_str node_id = Some nid)
    /\ parse_payload json_from_str payload = inr v
    /\ fst (api_lookup cfg None nid t_dash' (snd r))
       = {| found := true;
            resp_node := Some (Build_node nid (default_tenant_id cfg) k v None None None
                                 (match get (default_tenant_id cfg) nid (ctx_store ctx) with
                                  | Some e => created_at e | None => t_up end)
                                 t_up) |}.
Proof.
  intros r. unfold r, upsert_node, upsert_node_with.
  destruct (parse_payload json_from_str payload) as [st|v] eqn:Hp; [cbn; discriminate|].
  set (node := KnowledgeNode_new fresh (default_tenant_id cfg) k v t_new).
  destruct (if String.eqb node_id EmptyString then Some (id node) else parse_str node_id)
    as [nid|] eqn:Hn; [|cbn; discriminate].
  set (n' := set_id node nid).
  pose proof (get_upsert_same (default_tenant_id cfg) n' t_up (ctx_store ctx)) as Hs.
  change (id n') with nid in Hs.
  unfold inmem_repo_upsert.
  destruct (upsert (default_tenant_id cfg) n' t_up (ctx_store ctx)) as [o s'] eqn:Hu.
  cbn [fst snd] in *. intros H. injection H as <-.
  exists nid, v. split; [reflexivity|]. split.
  - destruct (String.eqb node_id EmptyString); [injection Hn as <-; reflexivity|exact Hn].
  - split; [reflexivity|].
    unfold api_lookup. cbn [default ctx_store]. rewrite Hs. reflexivity.
Qed.

Lemma upsert_node_then_lookup_witness :
  let cfg := {| default_tenant_id := 1; scedge_event_bus_enabled := false; tenant_slugs := ∅ |} in
  let ctx := {| ctx_store := ∅; ctx_dash := DashboardData_default |} in
  exists nid v,
    un_node_id {| un_node_id := uuid_to_string 9; un_created := true |} = uuid_to_string nid
    /\ (if String.eqb "" EmptyString then nid = 9 else (fun _ : string => @None Uuid) "" = Some nid)
    /\ parse_payload (fun _ => inr "eof") "  " = inr v
    /\ fst (api_lookup cfg None nid 3
              (snd (upsert_node (fun _ => None) (fun _ => inr "eof") cfg "" "note" "  " 9 1 1 2 ctx)))
       = {| found := true;
            resp_node := Some (Build_node nid 1 "note" v None None None
                                 (match get 1 nid ∅ with
                                  | Some e => created_at e | None => 1 end) 1) |}.
Proof.
  intros cfg ctx.
  exact (upsert_node_then_lookup (fun _ => None) (fun _ => inr "eof") cfg "" "note" "  " 9 1 1 2 3 ctx
           {| un_node_id := uuid_to_string 9; un_created := true |} ltac:(vm_compute; reflexivity)).
Defined.

(** ** Purging capsules over HTTP *)

Lemma purge_loop_inv delete_by_key cfg tenant_id now keys :
  forall purged revoked events store rep,
    purge_loop delete_by_key cfg tenant_id now keys purged revoked events store = Ok rep ->
    purge_status rep = 200 ->
    revoked = map rv_hash events ->
    (Z.of_nat (length revoked) <= purged)%Z -> (0 <= purged)%Z ->
    (purged + Z.of_nat (length keys) < U32_MOD)%Z ->
    purge_revoked rep = map rv_hash (purge_published rep)
    /\ (Z.of_nat (length (purge_revoked rep)) <= purge_purged rep
        <= purged + Z.of_nat (length keys))%Z
    /\ (scedge_event_bus_enabled cfg = false -> purge_published rep = events).
Proof.
  induction keys as [|key keys IH]; intros purged revoked events store rep H Hst Hr Hl H0 Hlt.
  - cbn in H. injection H as <-. cbn. split; [exact Hr|]. split; [lia|reflexivity].
  - cbn [purge_loop] in H. destruct (delete_by_key tenant_id key store) as [[[node|]|e] store'];
      cbn [length] in *.
    + rewrite Z.mod_small in H by (unfold U32_MOD in *; lia).
      destruct (scedge_event_bus_enabled cfg) eqn:Hb.
      * destruct (from_node node now) as [c| |]; [| |discriminate H].
        -- destruct (IH _ _ _ _ _ H Hst) as (Ha & Hb' & _).
           ++ rewrite Hr, map_app. reflexivity.
           ++ rewrite length_app. cbn. lia.
           ++ lia.
           ++ lia.
           ++ split; [exact Ha|]. split; [lia|discriminate].
        -- destruct (IH _ _ _ _ _ H Hst Hr) as (Ha & Hb' & _); try lia.
           split; [exact Ha|]. split; [lia|discriminate].
      * destruct (IH _ _ _ _ _ H Hst Hr) as (Ha & Hb' & Hc); try lia.
        split; [exact Ha|]. split; [lia|exact Hc].
    + destruct (IH _ _ _ _ _ H Hst Hr) as (Ha & Hb' & Hc); try lia.
      split; [exact Ha|]. split; [lia|exact Hc].
    + injection H as <-. discriminate Hst.
Qed.

(** X14. When [api_capsule_purge] replies 200, its [revoked_hashes] are
    the hashes of the [REVOKE_CAPSULE] events it published, in order;
    with fewer than 2^32 keys, there are no more of them than [purged],
    which is at most the number of keys it was given ([key], then the
    non-empty entries of [keys]).  With the event bus disabled it
    publishes nothing. *)
Theorem api_capsule_purge_revoked delete_by_key cfg tenant bkey bkeys now store rep :
  api_capsule_purge delete_by_key cfg tenant bkey bkeys now store = Ok rep ->
  purge_status rep = 200 ->
  (Z.of_nat (length (purge_keys bkey bkeys)) < U32_MOD)%Z ->
  purge_revoked rep = map rv_hash (purge_published rep)
  /\ (Z.of_nat (length (purge_revoked rep)) <= purge_purged rep
      <= Z.of_nat (length (purge_keys bkey bkeys)))%Z
  /\ (scedge_event_bus_enabled cfg = false -> purge_published rep = []).
Proof.
  intros H Hst Hlt. unfold api_capsule_purge in H.
  destruct (purge_loop_inv _ _ _ _ _ _ _ _ _ _ H Hst eq_refl) as (Ha & Hb & Hc);
    cbn [length]; try lia.
  split; [exact Ha|]. split; [lia|exact Hc].
Qed.

Lemma api_capsule_purge_revoked_witness :
  let node := Build_node 3 1 "capsule" (VCapsule (sample_request "k" "h" (Some 60) None))
                None None None 0 0 in
  let del := fun (_ : Uuid) (k : string) (s : NodeStore) =>
               (if String.eqb k "k" then inl (Some node) else inl None, s) in
  exists rep,
  api_capsule_purge del cfg_bus None (Some "k") (Some [""; "x"]) 5 ∅ = Ok rep
  /\ purge_status rep = 200
  /\ purge_revoked rep = map rv_hash (purge_published rep)
  /\ (Z.of_nat (length (purge_revoked rep)) <= purge_purged rep
      <= Z.of_nat (length (purge_keys (Some "k") (Some [""; "x"]))))%Z.
Proof.
  intros node del.
  destruct (api_capsule_purge del cfg_bus None (Some "k") (Some [""; "x"]) 5 ∅) as [rep| |] eqn:H;
    [|vm_compute in H; discriminate H..].
  assert (Hst : purge_status rep = 200)
    by (vm_compute in H; injection H as <-; reflexivity).
  exists rep. split; [reflexivity|]. split; [exact Hst|].
  destruct (api_capsule_purge_revoked del cfg_bus None (Some "k") (Some [""; "x"]) 5 ∅ rep H Hst
              ltac:(vm_compute; reflexivity)) as (Ha & Hb & _).
  split; [exact Ha|exact Hb].
Defined.

(** X15. With [TENANT_SLUGS] written as in [parse_slug_map_roundtrip], a
    request naming a slug is served under the uuid of the last accepted
    entry for that slug; a request naming an unknown slug, or none, falls
    back to [DEFAULT_TENANT_ID] if it parses as a uuid, and to the nil
    uuid otherwise. *)
Theorem resolve_tenant_from_env parse_str default_env bus_env pairs slug :
  Forall (fun p => plain (fst p) = true /\ fst p <> EmptyString /\ plain (snd p) = true) pairs ->
  let cfg := from_env parse_str default_env bus_env (Some (slug_source pairs)) in
  let fallback := match default_env with
                  | Some v => match parse_str v with Some u => u | None => Uuid_nil end
                  | None => Uuid_nil
                  end in
  resolve_tenant cfg (Some slug) = default fallback (slug_lookup parse_str pairs slug)
  /\ resolve_tenant cfg None = fallback.
Proof.
  intros Hf cfg fallback. unfold resolve_tenant, cfg, from_env. cbn [tenant_slugs default_tenant_id].
  rewrite (slug_map_lookup parse_str pairs Hf slug).
  assert (Hd : match match default_env with Some value => parse_str value | None => None end with
               | Some u => u | None => Uuid_nil end = fallback)
    by (unfold fallback; destruct default_env; reflexivity).
  rewrite Hd. split; [|reflexivity].
  destruct (slug_lookup parse_str pairs slug); reflexivity.
Qed.

Lemma resolve_tenant_from_env_witness :
  let parse s := if String.eqb s "u7" then Some 7 else None in
  let cfg := from_env parse (Some "bad") None (Some (slug_source [("acme", "u7"); ("beta", "x")])) in
  resolve_tenant cfg (Some "acme") = default Uuid_nil (slug_lookup parse [("acme", "u7"); ("beta", "x")] "acme")
  /\ resolve_tenant cfg None = Uuid_nil.
Proof.
  intros parse cfg.
  exact (resolve_tenant_from_env parse (Some "bad") None [("acme", "u7"); ("beta", "x")] "acme"
           ltac:(repeat (apply Forall_cons || apply Forall_nil || split); vm_compute;
                 (reflexivity || discriminate))).
Defined.

(** ** Ingest then lookup *)

Lemma set_ttl_seconds_twice a x y :
  set_ttl_seconds (set_ttl_seconds a x) y = set_ttl_seconds a y.
Proof. reflexivity. Qed.

Lemma set_ttl_seconds_same a : set_ttl_seconds a (ttl_seconds a) = a.
Proof. destruct a; reflexivity. Qed.

Lemma ensure_defaults_idem a : ensure_defaults (ensure_defaults a) = ensure_defaults a.
Proof. unfold ensure_defaults. destruct (provenance a) eqn:E; cbn; rewrite ?E; reflexivity. Qed.

Lemma ensure_defaults_roundtrip a :
  ensure_defaults (artifact_roundtrip a) = artifact_roundtrip (ensure_defaults a).
Proof. unfold ensure_defaults. destruct a as [? ? [|? ?] ? ? ? ?]; reflexivity. Qed.

Lemma ensure_defaults_metrics a : metrics (ensure_defaults a) = metrics a.
Proof. unfold ensure_defaults. destruct (provenance a); reflexivity. Qed.

Lemma ensure_defaults_metadata a : metadata (ensure_defaults a) = metadata a.
Proof. unfold ensure_defaults. destruct (provenance a); reflexivity. Qed.

(** [from_node] changes nothing of the defaulted artifact but its TTL,
    and keeps a TTL that is already there. *)
Lemma from_node_artifact node c now r :
  capsule_from_value (payload_json node) = Some c ->
  from_node node now = Ok r ->
  resp_key r = key c
  /\ set_ttl_seconds (resp_artifact r) (ttl_seconds (artifact c)) = lookup_defaults node c
  /\ (forall s, ttl_seconds (artifact c) = Some s -> ttl_seconds (resp_artifact r) = Some s).
Proof.
  intros Hp Hf. rewrite (from_node_unfold node c now Hp) in Hf. cbv zeta in Hf.
  pose proof (lookup_defaults_ttl node c) as Ht.
  remember (lookup_defaults node c) as a eqn:Ea. rewrite <- Ht.
  assert (Hfin : forall o, resp_artifact r = set_ttl_seconds a o \/ resp_artifact r = a ->
            (forall s, ttl_seconds a = Some s -> resp_artifact r = a) ->
            resp_key r = key c ->
            resp_key r = key c
            /\ set_ttl_seconds (resp_artifact r) (ttl_seconds a) = a
            /\ (forall s, ttl_seconds a = Some s -> ttl_seconds (resp_artifact r) = Some s)).
  { intros o Ho Hk Hkey. split; [exact Hkey|]. split.
    - destruct Ho as [-> | ->]; [rewrite set_ttl_seconds_twice|]; apply set_ttl_seconds_same.
    - intros s Hs. rewrite (Hk s Hs). exact Hs. }
  clear Ht.
  destruct (ttl_seconds a) as [s|] eqn:Hs.
  - destruct (expires_at c) as [e|].
    + cbn in Hf. rewrite ?Hs in Hf. injection Hf as <-.
      apply (Hfin None); cbn; auto.
    + cbn -[duration_seconds datetime_add] in Hf. rewrite ?Hs in Hf.
      destruct (duration_seconds s) as [d| |]; cbn -[datetime_add] in Hf; [|discriminate..].
      destruct (datetime_add (updated_at node) d) as [e| |]; cbn in Hf; [|discriminate..].
      rewrite ?Hs in Hf. injection Hf as <-.
      apply (Hfin None); cbn; auto.
  - destruct (expires_at c) as [e|].
    + cbn in Hf. injection Hf as <-.
      apply (Hfin (Some (Z.max (num_seconds (e - updated_at node)) 0))); cbn; auto.
      intros s' Hs'. discriminate.
    + cbn in Hf. rewrite ?Hs in Hf. injection Hf as <-.
      apply (Hfin None); cbn; auto.
Qed.

(** X16. A capsule that [into_node] accepted reads back through
    [from_node] (at any later clock) with the same key and the artifact
    as ingested, provenance defaulted, after the JSON round trip of the
    stored payload: answer, policy, provenance and hash are unchanged,
    metrics and metadata are unchanged except that a JSON [null] comes
    back absent, and only [ttl_seconds] may differ, where the request
    left it absent; a TTL the request gave is kept. *)
Theorem ingest_lookup_content req t fresh now n now' r :
  into_node req t fresh now = Ok n ->
  from_node n now' = Ok r ->
  resp_key r = key req
  /\ set_ttl_seconds (resp_artifact r) (ttl_seconds (artifact req))
     = artifact_roundtrip (ensure_defaults (artifact req))
  /\ metrics (resp_artifact r) = option_value_roundtrip (metrics (artifact req))
  /\ metadata (resp_artifact r) = option_value_roundtrip (metadata (artifact req))
  /\ (forall s, ttl_seconds (artifact req) = Some s -> ttl_seconds (resp_artifact r) = Some s).
Proof.
  unfold into_node. cbn [artifact set_artifact key].
  rewrite ensure_defaults_policy, ensure_defaults_hash.
  destruct (is_empty (pol_tenant (policy (artifact req)))) eqn:Ep; [discriminate|].
  destruct (is_empty (hash (artifact req))) eqn:Eh; [discriminate|].
  intros Hn Hf. injection Hn as <-.
  pose proof (fun Hp => from_node_artifact _
                 (capsule_roundtrip (set_artifact req (ensure_defaults (artifact req))))
                 now' r Hp Hf) as Hfa.
  destruct (Hfa eq_refl) as [Hk [Ha Hs]].
  cbn [artifact set_artifact key capsule_roundtrip] in Hk, Ha, Hs.
  assert (Ht : ttl_seconds (artifact_roundtrip (ensure_defaults (artifact req)))
               = ttl_seconds (artifact req)) by (apply ensure_defaults_ttl).
  rewrite Ht in Ha, Hs.
  assert (Hart : set_ttl_seconds (resp_artifact r) (ttl_seconds (artifact req))
                 = artifact_roundtrip (ensure_defaults (artifact req))).
  { rewrite Ha. unfold lookup_defaults. cbn [artifact capsule_roundtrip].
    cbn [artifact set_artifact]. rewrite ensure_defaults_roundtrip, ensure_defaults_idem.
    cbv zeta. cbn [policy artifact_roundtrip]. rewrite ensure_defaults_policy, Ep.
    cbn iota. cbn [hash artifact_roundtrip]. rewrite ensure_defaults_hash, Eh. reflexivity. }
  split; [exact Hk|]. split; [exact Hart|].
  split; [|split; [|exact Hs]].
  - change (metrics (resp_artifact r))
      with (metrics (set_ttl_seconds (resp_artifact r) (ttl_seconds (artifact req)))).
    rewrite Hart. cbn. rewrite ensure_defaults_metrics. reflexivity.
  - change (metadata (resp_artifact r))
      with (metadata (set_ttl_seconds (resp_artifact r) (ttl_seconds (artifact req)))).
    rewrite Hart. cbn. rewrite ensure_defaults_metadata. reflexivity.
Qed.

Lemma ingest_lookup_content_witness :
  let req := sample_request "k" "h" None (Some 100000000000) in
  match into_node req 1 7 0 with
  | Ok n =>
      match from_node n 5 with
      | Ok r => resp_key r = key req
                /\ set_ttl_seconds (resp_artifact r) (ttl_seconds (artifact req))
                   = artifact_roundtrip (ensure_defaults (artifact req))
      | _ => False
      end
  | _ => False
  end.
Proof.
  intros req.
  destruct (into_node req 1 7 0) as [n| |] eqn:Hn; [|vm_compute in Hn; discriminate Hn..].
  destruct (from_node n 5) as [r| |] eqn:Hf.
  - destruct (ingest_lookup_content req 1 7 0 n 5 r Hn Hf) as [Hk [Ha _]].
    split; [exact Hk|exact Ha].
  - exfalso. pose proof Hn as Hn'. vm_compute in Hn'. injection Hn' as <-.
    vm_compute in Hf. discriminate Hf.
  - exfalso. pose proof Hn as Hn'. vm_compute in Hn'. injection Hn' as <-.
    vm_compute in Hf. discriminate Hf.
Defined.
